(** * Forward modelling of a magnetized rock sample: [functions.py]

    A shallow embedding of the numerical core of [src/code/functions.py]
    ([point2grid], [magnetic_data], [sensitivity], [coordplane]) and the
    properties of its index bookkeeping, validation and plane policy,
    followed by the model builders and helpers of the same file
    ([sample], [parameters_sph], [residual], [dipolesrand], [proj_polar]).

    Conventions of the embedding.
    - numpy 1-D arrays are lists; a 2-D array is a shape with its rows.
    - Python exceptions are the constructors of [pyerr]; a function that can
      raise returns a [result].
    - Floating-point numbers are the carrier [F] of a [Scalar]: the
      operations the source applies to floats, with no law assumed.  Laws
      of exact arithmetic are a separate class ([ExactArith])
      and appear as hypotheses exactly where a property needs them.  Two
      scalars are concrete: the rationals ([QcScalar]), which are exact,
      and binary64 ([FloatScalar]), the arithmetic of the code, on which
      what holds in exact arithmetic only is shown to fail.
    - The field kernels of [fatiando.gravmag], [fatiando.gridder.regular]
      and the constants of [fatiando.constants] are consumed, not defined,
      by the source: they are the fields of [Scalar] and [FieldKernel]. *)

From Stdlib Require Import ssreflect ZArith QArith Qcanon Field Lia String.
From Stdlib Require Import PrimFloat.
From Stdlib Require Uint63.
From stdpp Require Import base list.

Set Default Proof Using "Type*".

(** ** Exceptions and results *)

Inductive pyerr : Type :=
  | AssertionError (msg : string)
  | ValueError
  | IndexError
  | ZeroDivisionError
  | UnboundLocalError
  | OverflowError.

Inductive result (A : Type) : Type :=
  | Ok (a : A)
  | Err (e : pyerr).
Arguments Ok {A} a.
Arguments Err {A} e.

Definition rbind {A B} (r : result A) (f : A → result B) : result B :=
  match r with Ok a => f a | Err e => Err e end.

Notation "'let!' x ':=' e 'in' k" := (rbind e (λ x, k))
  (at level 10, x name, e at level 100, k at level 200,
   format "'[v' 'let!'  x  ':='  e  'in'  '/' k ']'").
Notation "'let!' ' p ':=' e 'in' k" := (rbind e (λ x, match x with p => k end))
  (at level 10, p pattern, e at level 100, k at level 200,
   format "'[v' 'let!'  ' p  ':='  e  'in'  '/' k ']'").
Notation "e ';;!' k" := (rbind e (λ _, k))
  (at level 100, k at level 200, right associativity).

(** [assert c, msg] *)
Definition py_assert (c : bool) (msg : string) : result unit :=
  if c then Ok tt else Err (AssertionError msg).

(** [seq[i]] for a non-negative index *)
Definition py_index {A} (l : list A) (i : nat) : result A :=
  match l !! i with Some a => Ok a | None => Err IndexError end.

(** a [for] loop whose body can raise *)
Fixpoint foldM {A B} (f : B → A → result B) (b : B) (l : list A) : result B :=
  match l with
  | [] => Ok b
  | a :: l' => let! b' := f b a in foldM f b' l'
  end.

(** [enumerate(l)] *)
Definition enumerate {A} (l : list A) : list (nat * A) :=
  zip (seq 0 (length l)) l.

Section Arrays.
Context {A : Type}.

(** [m.ravel()] of a C-ordered 2-D array given by its rows *)
Definition ravel (m : list (list A)) : list A := concat m.

(** [a.reshape(rows, cols)]; numpy raises [ValueError] when the sizes
    disagree. *)
Definition reshape (rows cols : nat) (a : list A) : result (list (list A)) :=
  if bool_decide (length a = rows * cols)
  then Ok ((λ r, take cols (drop (r * cols) a)) <$> seq 0 rows)
  else Err ValueError.

(** [m.T] for a matrix with [cols] columns given by its rows *)
Definition transpose (cols : nat) (m : list (list A)) : list (list A) :=
  (λ c, omap (λ row : list A, row !! c) m) <$> seq 0 cols.

End Arrays.

(** ** Scalars *)

Class Scalar : Type := {
  F : Type;
  fzero : F;
  fone : F;
  fadd : F → F → F;
  fsub : F → F → F;
  fmul : F → F → F;
  fdiv : F → F → F;
  fopp : F → F;
  finv : F → F;
  fltb : F → F → bool;          (* [a < b] *)
  of_Z : Z → F;                 (* an [int] used where a float is expected *)
  micro : F;                    (* the literal [0.000001] *)
  half : F;                     (* the literal [0.5] *)
  deg2rad : F → F;              (* [np.deg2rad] *)
  fcos : F → F;                 (* [np.cos] *)
  fsin : F → F;                 (* [np.sin] *)
  CM : F;                       (* [fatiando.constants.CM] *)
  T2NT : F                      (* [fatiando.constants.T2NT] *)
}.

(** Exact arithmetic: a field of characteristic zero into which the
    integers embed. *)
Class ExactArith (Sc : Scalar) : Prop := {
  F_field : field_theory fzero fone fadd fmul fsub fopp fdiv finv (@eq F);
  of_Z_0 : of_Z 0 = fzero;
  of_Z_1 : of_Z 1 = fone;
  of_Z_add : ∀ a b, of_Z (a + b) = fadd (of_Z a) (of_Z b);
  of_Z_nonzero : ∀ a, a ≠ 0%Z → of_Z a ≠ fzero
}.

Section Numpy.
Context {Sc : Scalar}.

(** [np.arange(lo, hi)] on integers *)
Definition arange (lo hi : Z) : list Z :=
  (λ i : nat, (lo + Z.of_nat i)%Z) <$> seq 0 (Z.to_nat (hi - lo)).

(** [c * np.arange(...)]: a float times an integer array *)
Definition scale_arange (c : F) (ks : list Z) : list F :=
  (λ k, fmul c (of_Z k)) <$> ks.

(** [np.meshgrid(a, b)], default [indexing='xy']: both results have
    [len(b)] rows and [len(a)] columns, [X[r][c] = a[c]], [Y[r][c] = b[r]]. *)
Definition meshgrid (a b : list F) : list (list F) * list (list F) :=
  ((λ _, a) <$> b, (λ bv, replicate (length a) bv) <$> b).

(** [np.resize(a, n)]: zero-filled when [a] is empty or [n = 0], else
    [a] repeated cyclically and cut to [n] elements. *)
Definition np_resize (a : list F) (n : nat) : list F :=
  if bool_decide (length a = 0 ∨ n = 0) then replicate n fzero
  else take n (concat (replicate (Nat.div (n + length a - 1) (length a)) a)).

(** [a[lo:hi] += v] (0 <= lo <= hi): the slice is clipped to the array;
    [v] must have the slice's length or length 1 (broadcast), otherwise
    numpy raises [ValueError]. *)
Definition slice_iadd (a : list F) (lo hi : nat) (v : list F) : result (list F) :=
  let sl := take (hi - lo) (drop lo a) in
  if bool_decide (length v = length sl)
  then Ok (take lo a ++ zip_with fadd sl v ++ drop hi a)
  else match v with
       | [v0] => Ok (take lo a ++ ((λ e, fadd e v0) <$> sl) ++ drop hi a)
       | _ => Err ValueError
       end.

(** [np.sum] and [np.mean] of a 1-D array (summed left to right) *)
Definition fsum (l : list F) : F := foldl fadd fzero l.
Definition np_mean (l : list F) : F :=
  fdiv (fsum l) (of_Z (Z.of_nat (length l))).

(** [np.mean(np.reshape(v, (n, q)), axis=1)] *)
Definition block_mean (v : list F) (n q : nat) : result (list F) :=
  let! m := reshape n q v in Ok (np_mean <$> m).

(** [a / n] for a float [a] and an [int] [n] *)
Definition py_div_int (a : F) (n : Z) : result F :=
  if bool_decide (n = 0%Z) then Err ZeroDivisionError
  else Ok (fdiv a (of_Z n)).

(** ** [point2grid] *)

Definition point2grid (x y : list F) (effective_area : F * F) (ns : Z)
    (z : option (list F)) : result (list F * list F * option (list F)) :=
  py_assert (fltb (of_Z 0) effective_area.1 && fltb (of_Z 0) effective_area.2)
    "effective area must be positive" ;;!
  py_assert (bool_decide (length x = length y))
    "x and y must have the same number of elements" ;;!
  match z with
  | Some z' => py_assert (bool_decide (length x = length z'))
                 "x, y and z must have the same number of elements"
  | None => Ok tt
  end ;;!
  py_assert (negb (bool_decide ((ns `mod` 2)%Z = 0%Z))) "ns must be odd" ;;!
  let! dx := py_div_int (fmul micro effective_area.1) ns in
  let! dy := py_div_int (fmul micro effective_area.2) ns in
  let ns2 := (ns `div` 2)%Z in
  let Q := Z.to_nat (ns * ns) in
  let '(x_small_grid, y_small_grid) :=
    meshgrid (scale_arange dx (arange (- ns2) (ns2 + 1)))
             (scale_arange dy (arange (- ns2) (ns2 + 1))) in
  let! xr := reshape Q (length x) (np_resize x (Q * length x)) in
  let xgrid := ravel (transpose (length x) xr) in
  let! yr := reshape Q (length y) (np_resize y (Q * length y)) in
  let ygrid := ravel (transpose (length y) yr) in
  let! zgrid := match z with
                | Some z' =>
                    let! zr := reshape Q (length z') (np_resize z' (Q * length z')) in
                    Ok (Some (ravel (transpose (length z') zr)))
                | None => Ok None
                end in
  let! xgrid := foldM (λ g '(i, _), slice_iadd g (i * Q) ((i + 1) * Q) (ravel x_small_grid))
                      xgrid (enumerate x) in
  let! ygrid := foldM (λ g '(i, _), slice_iadd g (i * Q) ((i + 1) * Q) (ravel y_small_grid))
                      ygrid (enumerate y) in
  Ok (xgrid, ygrid, zgrid).

End Numpy.

(** ** The consumed capabilities *)

(** Modelled from the spec: the field kernels ([fatiando.gravmag.prism],
    [fatiando.gravmag.sphere]) are not part of the repository's sources.
    The spec describes them as returning "the field component or its
    spatial derivative at each point", so a kernel is a function of one
    observation point and a source, applied to coordinate arrays of equal
    length point by point. *)
Class FieldKernel (Sc : Scalar) : Type := {
  Prism : Type;
  Sphere : Type;
  prism_bz : F → F → F → list Prism → F;
  prism_by : F → F → F → list Prism → F;
  sphere_bz : F → F → F → list Sphere → F;
  sphere_by : F → F → F → list Sphere → F;
  kernelxz : F → F → F → Prism → F;
  kernelyz : F → F → F → Prism → F;
  kernelzz : F → F → F → Prism → F;
  kernelxy : F → F → F → Prism → F;
  kernelyy : F → F → F → Prism → F
}.

(** Modelled from the spec: [fatiando.gridder.regular] is not part of the
    repository's sources.  [regular_xy area shape] lists the points of the
    regular [Nx] by [Ny] grid over [area], in the order of the flattened
    arrays. *)
Class Gridder (Sc : Scalar) : Type := {
  regular_xy : F * F * F * F → nat * nat → list (F * F)
}.

Section Core.
Context {Sc : Scalar} {K : FieldKernel Sc} {Gr : Gridder Sc}.

(** Modelled from the spec: a kernel called on the arrays [xp], [yp], [zp];
    the arrays must have one shape. *)
Definition kernel_eval {Src : Type} (k : F → F → F → Src → F)
    (xp yp zp : list F) (src : Src) : result (list F) :=
  if bool_decide (length xp = length yp ∧ length xp = length zp)
  then Ok (zip_with (λ '(xv, yv) zv, k xv yv zv src) (zip xp yp) zp)
  else Err ValueError.

(** Modelled from the spec: [gridder.regular(area, shape, z)] returns the
    two varying coordinate arrays and a third array holding [z] at every
    grid point. *)
Definition regular (area : F * F * F * F) (shape : nat * nat) (zc : F)
    : list F * list F * list F :=
  let pts := regular_xy area shape in
  (pts.*1, pts.*2, replicate (length pts) zc).

(** [a += b] on arrays of one shape *)
Definition array_iadd (a b : list F) : list F := zip_with fadd a b.

(** the tuple unpacking [xg, yg, zg = point2grid(...)] *)
Definition unpack3 (r : list F * list F * option (list F))
    : result (list F * list F * list F) :=
  match r with
  | (xg, yg, Some zg) => Ok (xg, yg, zg)
  | (_, _, None) => Err ValueError
  end.

(** ** [magnetic_data] *)

Definition magnetic_data (x y z : list F) (model : list Prism) (alpha : Z)
    (eff_area : option (F * F)) (grains : option (list Sphere)) : result (list F) :=
  py_assert (bool_decide (alpha = 0%Z) || bool_decide (alpha = 1%Z)
             || bool_decide (alpha = 2%Z) || bool_decide (alpha = 3%Z))
    "alpha must be equal to 0, 1, 2 or 3" ;;!
  let! B :=
    match eff_area with
    | Some ea =>
        let ns := 7%Z in
        let! g := point2grid x y ea ns (Some z) in
        let! '(xg, yg, zg) := unpack3 g in
        let! B :=
          if bool_decide (alpha = 0%Z) || bool_decide (alpha = 2%Z) then
            let! k := kernel_eval prism_bz xg yg zg model in
            let! B := block_mean k (length x) (Z.to_nat (ns * ns)) in
            match grains with
            | Some gr =>
                let! kg := kernel_eval sphere_bz xg yg zg gr in
                let! Bg := block_mean kg (length x) (Z.to_nat (ns * ns)) in
                Ok (Some (array_iadd B Bg))
            | None => Ok (Some B)
            end
          else Ok None in
        if bool_decide (alpha = 1%Z) || bool_decide (alpha = 3%Z) then
          let! k := kernel_eval prism_by xg yg zg model in
          let! B := block_mean k (length x) (Z.to_nat (ns * ns)) in
          match grains with
          | Some gr =>
              let! kg := kernel_eval sphere_by xg yg zg gr in
              let! Bg := block_mean kg (length x) (Z.to_nat (ns * ns)) in
              Ok (Some (array_iadd B Bg))
          | None => Ok (Some B)
          end
        else Ok B
    | None =>
        let! B :=
          if bool_decide (alpha = 0%Z) || bool_decide (alpha = 2%Z) then
            let! B := kernel_eval prism_bz x y z model in
            match grains with
            | Some gr =>
                let! Bg := kernel_eval sphere_bz x y z gr in
                Ok (Some (array_iadd B Bg))
            | None => Ok (Some B)
            end
          else Ok None in
        if bool_decide (alpha = 1%Z) || bool_decide (alpha = 3%Z) then
          let! B := kernel_eval prism_by x y z model in
          match grains with
          | Some gr =>
              let! Bg := kernel_eval sphere_by x y z gr in
              Ok (Some (array_iadd B Bg))
          | None => Ok (Some B)
          end
        else Ok B
    end in
  match B with
  | Some b => Ok b
  | None => Err UnboundLocalError
  end.

(** ** [sensitivity] *)

(** A 2-D array: its shape and its rows. *)
Record matrix : Type := Matrix {
  shape : nat * nat;
  rows : list (list F)
}.

(** [np.empty((n, m))]: an array of the given shape whose contents are
    whatever the memory held, here [junk r c]. *)
Definition np_empty (junk : nat → nat → F) (n m : nat) : matrix :=
  Matrix (n, m) ((λ r, junk r <$> seq 0 m) <$> seq 0 n).

(** [G[:, c] = v]: [IndexError] outside the columns; [v] must have one
    value per row, or a single value (broadcast). *)
Definition set_col (G : matrix) (c : nat) (v : list F) : result matrix :=
  if bool_decide (c < (shape G).2) then
    if bool_decide (length v = (shape G).1)
    then Ok (Matrix (shape G) (zip_with (λ row vn, <[c := vn]> row) (rows G) v))
    else match v with
         | [v0] => Ok (Matrix (shape G) (<[c := v0]> <$> rows G))
         | _ => Err ValueError
         end
  else Err IndexError.

(** [G *= c] *)
Definition matrix_imul (G : matrix) (c : F) : matrix :=
  Matrix (shape G) ((λ row : list F, (λ e, fmul e c) <$> row) <$> rows G).

(** [G[:, col[j]] = np.mean(np.reshape(kernel(xg, yg, zg, model[i]),
    (x.size, Q)), axis=1)] *)
Definition assign_mean_col (G : matrix) (col : list nat) (j : nat)
    (kernel : F → F → F → Prism → F) (xg yg zg : list F)
    (model : list Prism) (i n Q : nat) : result matrix :=
  let! p := py_index model i in
  let! k := kernel_eval kernel xg yg zg p in
  let! v := block_mean k n Q in
  let! c := py_index col j in
  set_col G c v.

(** [G[:, col[j]] = kernel(x, y, z, model[i])] *)
Definition assign_col (G : matrix) (col : list nat) (j : nat)
    (kernel : F → F → F → Prism → F) (x y z : list F)
    (model : list Prism) (i : nat) : result matrix :=
  let! p := py_index model i in
  let! v := kernel_eval kernel x y z p in
  let! c := py_index col j in
  set_col G c v.

(** [P] is a count of prisms: a natural number ([np.empty] refuses a
    negative dimension).  [junk] stands for what [np.empty] finds in
    memory. *)
Definition sensitivity (P : nat) (x y z : list F) (model : list Prism)
    (alpha : Z) (eff_area : option (F * F)) (junk : nat → nat → F)
    : result matrix :=
  let G := np_empty junk (length x) (3 * P) in
  let! cols := reshape P 3 (seq 0 (3 * P)) in
  let! G :=
    match eff_area with
    | Some ea =>
        let ns := 7%Z in
        let Q := Z.to_nat (ns * ns) in
        let! g := point2grid x y ea ns (Some z) in
        let! '(xg, yg, zg) := unpack3 g in
        foldM (λ G '(i, col),
          let! G :=
            if bool_decide (alpha = 0%Z) || bool_decide (alpha = 2%Z) then
              let! G := assign_mean_col G col 0 kernelxz xg yg zg model i (length x) Q in
              let! G := assign_mean_col G col 1 kernelyz xg yg zg model i (length x) Q in
              assign_mean_col G col 2 kernelzz xg yg zg model i (length x) Q
            else Ok G in
          if bool_decide (alpha = 1%Z) || bool_decide (alpha = 3%Z) then
            let! G := assign_mean_col G col 0 kernelxy xg yg zg model i (length x) Q in
            let! G := assign_mean_col G col 1 kernelyy xg yg zg model i (length x) Q in
            assign_mean_col G col 2 kernelyz xg yg zg model i (length x) Q
          else Ok G) G (enumerate cols)
    | None =>
        foldM (λ G '(i, col),
          let! G :=
            if bool_decide (alpha = 0%Z) || bool_decide (alpha = 2%Z) then
              let! G := assign_col G col 0 kernelxz x y z model i in
              let! G := assign_col G col 1 kernelyz x y z model i in
              assign_col G col 2 kernelzz x y z model i
            else Ok G in
          if bool_decide (alpha = 1%Z) || bool_decide (alpha = 3%Z) then
            let! G := assign_col G col 0 kernelxy x y z model i in
            let! G := assign_col G col 1 kernelyy x y z model i in
            assign_col G col 2 kernelyz x y z model i
          else Ok G) G (enumerate cols)
    end in
  Ok (matrix_imul G (fmul CM T2NT)).

(** ** [coordplane] *)

Definition coordplane (h L : F) (Nx Ny : nat) (area : F * F * F * F)
    (alpha : Z) (theta : F) : result (list F * list F * list F) :=
  let shape := (Nx, Ny) in
  let areaxy := area in
  let dist := fmul h micro in
  let size := L in
  let voo := fadd dist (fmul half size) in
  let ang := deg2rad theta in
  let cos := fcos ang in
  let sin := fsin ang in
  let xyz : option (list F * list F * list F) := None in
  let xyz := if bool_decide (alpha = 0%Z)
             then let '(x, y, z) := regular areaxy shape (fopp voo) in Some (x, y, z)
             else xyz in
  let xyz := if bool_decide (alpha = 1%Z)
             then let '(x, z, y) := regular areaxy shape voo in Some (x, y, z)
             else xyz in
  let xyz := if bool_decide (alpha = 2%Z)
             then let '(x, y, z) := regular areaxy shape voo in Some (x, y, z)
             else xyz in
  let xyz := if bool_decide (alpha = 3%Z)
             then let '(x, z, y) := regular areaxy shape (fopp voo) in Some (x, y, z)
             else xyz in
  let rot (u v : list F) := zip_with (λ a b, fsub (fmul cos a) (fmul sin b)) u v in
  let rot' (u v : list F) := zip_with (λ a b, fadd (fmul sin a) (fmul cos b)) u v in
  let x_rot : list (list F) := [] in
  let y_rot : list (list F) := [] in
  let z_rot : list (list F) := [] in
  let! '(x_rot, y_rot, z_rot) :=
    if bool_decide (alpha = 0%Z) || bool_decide (alpha = 2%Z) then
      match xyz with
      | Some (x, y, z) => Ok (x_rot ++ [rot x y], y_rot ++ [rot' x y], z_rot ++ [z])
      | None => Err UnboundLocalError
      end
    else Ok (x_rot, y_rot, z_rot) in
  let! '(x_rot, y_rot, z_rot) :=
    if bool_decide (alpha = 1%Z) || bool_decide (alpha = 3%Z) then
      match xyz with
      | Some (x, y, z) => Ok (x_rot ++ [rot x z], y_rot ++ [y], z_rot ++ [rot' x z])
      | None => Err UnboundLocalError
      end
    else Ok (x_rot, y_rot, z_rot) in
  let! xr := py_index x_rot 0 in
  let! yr := py_index y_rot 0 in
  let! zr := py_index z_rot 0 in
  Ok (xr, yr, zr).

End Core.

(** ** A concrete arithmetic: the rationals

    Canonical rationals [Qc] give an executable [Scalar] with exact
    arithmetic, used to run the embedding on concrete inputs.  The
    trigonometric functions are truncated Taylor polynomials and the
    kernels are simple polynomial stand-ins: the claims never depend on
    their values. *)

Definition Qc_ltb (a b : Qc) : bool :=
  match (a ?= b)%Qc with Lt => true | _ => false end.

Definition Qc_of_Z (k : Z) : Qc := Q2Qc (inject_Z k).

Definition QcScalar : Scalar := {|
  F := Qc;
  fzero := 0%Qc;
  fone := 1%Qc;
  fadd := Qcplus;
  fsub := Qcminus;
  fmul := Qcmult;
  fdiv := Qcdiv;
  fopp := Qcopp;
  finv := Qcinv;
  fltb := Qc_ltb;
  of_Z := Qc_of_Z;
  micro := Q2Qc (1 # 1000000);
  half := Q2Qc (1 # 2);
  deg2rad := λ t, (t * Q2Qc (355 # 20340))%Qc;
  fcos := λ t, (1 - t * t * Q2Qc (1 # 2))%Qc;
  fsin := λ t, (t - t * t * t * Q2Qc (1 # 6))%Qc;
  CM := Q2Qc (1 # 10000000);
  T2NT := Qc_of_Z 1000000000
|}.

(** A toy source: a prism or a sphere is its (constant) magnetization
    vector; a kernel weighs the observation point by it, and the field of
    a list of sources is the sum of the fields of its members. *)
Definition Qvec : Type := (Qc * Qc * Qc)%type.

Definition toy_field (w : Qc → Qc → Qc → Qvec → Qc) (x y z : Qc)
    (model : list Qvec) : Qc :=
  foldr (λ p acc, (w x y z p + acc)%Qc) 0%Qc model.

Definition QcKernel : FieldKernel QcScalar :=
  @Build_FieldKernel QcScalar Qvec Qvec
    (* prism_bz *)
    (toy_field (λ x y z '(mx, my, mz), (mx * x + my * y + mz * z)%Qc))
    (* prism_by *)
    (toy_field (λ x y z '(mx, my, mz), (mx * y + my * z + mz * x)%Qc))
    (* sphere_bz *)
    (toy_field (λ x y z '(mx, my, mz), (mx * z + my * x + mz * y)%Qc))
    (* sphere_by *)
    (toy_field (λ x y z '(mx, my, mz), (mx * x - my * y + mz * z)%Qc))
    (* kernelxz, kernelyz, kernelzz, kernelxy, kernelyy *)
    (λ (x y z : Qc) (p : Qvec), (p.1.1 + x * z)%Qc)
    (λ (x y z : Qc) (p : Qvec), (p.1.2 + y * z)%Qc)
    (λ (x y z : Qc) (p : Qvec), (p.2 + z * z)%Qc)
    (λ (x y z : Qc) (p : Qvec), (p.1.1 + x * y)%Qc)
    (λ (x y z : Qc) (p : Qvec), (p.1.2 + y * y)%Qc).

(** The regular grid with unit spacing starting at the lower corner of
    the area. *)
Definition unit_grid (area : Qc * Qc * Qc * Qc) (shape : nat * nat)
    : list (Qc * Qc) :=
  i ← seq 0 shape.1; j ← seq 0 shape.2;
  [((area.1.1.1 + Qc_of_Z (Z.of_nat i))%Qc, (area.1.2 + Qc_of_Z (Z.of_nat j))%Qc)].

Definition QcGridder : Gridder QcScalar := @Build_Gridder QcScalar unit_grid.

(** * The rest of [functions.py]: [sample], [parameters_sph], [residual],
      [dipolesrand], [proj_polar] *)

(** ** More consumed operations *)

(** The comparison [<=] and the square root ([np.std], [np.sqrt]) on
    floats, which the functions below use besides the operations of
    [Scalar]. *)
Class ScalarMore (Sc : Scalar) : Type := {
  fleb : F → F → bool;          (* [a <= b] *)
  fsqrt : F → F                 (* [np.sqrt] *)
}.

(** The constructors [mesher.Prism(x1, x2, y1, y2, z1, z2, props)] and
    [mesher.Sphere(x, y, z, radius, props)] of fatiando, whose results are
    the sources the kernels consume ([props] is the dictionary
    [{'magnetization': v}], or absent), and the conversions
    [utils.ang2vec(intensity, inc, dec)] and [utils.vec2ang(v)], the latter
    returning [[intensity, inclination, declination]]. *)
Class Mesher (Sc : Scalar) (K : FieldKernel Sc) : Type := {
  mesher_Prism : F → F → F → F → F → F → option (F * F * F) → Prism;
  mesher_Sphere : F → F → F → F → option (F * F * F) → Sphere;
  ang2vec : F → F → F → F * F * F;
  vec2ang : F * F * F → F * F * F
}.

(** [np.random], the legacy global generator: its state, replaced by
    [np.random.seed(seed)], and the draws [uniform(low, high, n)] and
    [normal(loc, scale, n)], each returning the values drawn and the next
    state.  Every one of the three calls can raise: [seed] for a seed
    outside [0, 2**32 - 1] ([ValueError]), [uniform] for a range that is
    not finite ([OverflowError]), [normal] for a negative [scale]
    ([ValueError]). *)
Class NumpyRandom (Sc : Scalar) : Type := {
  rng_state : Type;
  rng_seed : Z → result rng_state;
  rng_uniform : rng_state → F → F → nat → result (list F * rng_state);
  rng_normal : rng_state → F → F → nat → result (list F * rng_state)
}.

(** [range(n)] for a Python [int] *)
Definition py_range (n : Z) : list nat := seq 0 (Z.to_nat n).

(** ** [sample] *)

Section Sample.
Context {Sc : Scalar} {K : FieldKernel Sc} {M : Mesher Sc K}.

Definition sample (Lx Ly Lz : F) (P : Z) (m inc dec : option (list F))
    : result (list Prism) :=
  let sizex := Lx in
  let sizey := Ly in
  let sizez := Lz in
  let L := fmul (of_Z P) sizex in
  let a := fmul (fopp half) L in
  let model : list Prism := [] in
  match m, inc, dec with
  | Some m, Some inc, Some dec =>
      let intensity := m in
      let inclinacao := inc in
      let declinacao := dec in
      let mag : list (F * F * F) := [] in
      let! mag := foldM (λ mag i,
                    let! mi := py_index intensity i in
                    let! ii := py_index inclinacao i in
                    let! di := py_index declinacao i in
                    Ok (mag ++ [ang2vec mi ii di])) mag (py_range P) in
      foldM (λ model i,
        let! mg := py_index mag i in
        Ok (model ++ [mesher_Prism
                        (fadd a (fmul (of_Z (Z.of_nat i)) sizex))
                        (fadd a (fmul (of_Z (Z.of_nat i + 1)) sizex))
                        (fmul (fopp half) sizey) (fmul half sizey)
                        (fmul (fopp half) sizez) (fmul half sizez)
                        (Some mg)])) model (py_range P)
  | _, _, _ =>
      foldM (λ model i,
        Ok (model ++ [mesher_Prism
                        (fadd a (fmul (of_Z (Z.of_nat i)) sizex))
                        (fadd a (fmul (of_Z (Z.of_nat i + 1)) sizex))
                        (fmul (fopp half) sizey) (fmul half sizey)
                        (fmul (fopp half) sizez) (fmul half sizez)
                        None])) model (py_range P)
  end.

End Sample.

(** ** [parameters_sph] *)

Section ParametersSph.
Context {Sc : Scalar} {SM : ScalarMore Sc} {K : FieldKernel Sc} {M : Mesher Sc K}.

(** the two corrections of the declination [aux[2]] *)
Definition wrap_declination (aux : F * F * F) : F * F * F :=
  let aux := if fltb (of_Z 180) aux.2
             then (aux.1.1, aux.1.2, fsub aux.2 (of_Z 360)) else aux in
  let aux := if fleb aux.2 (fopp (of_Z 180))
             then (aux.1.1, aux.1.2, fadd aux.2 (of_Z 360)) else aux in
  aux.

Definition parameters_sph (N : nat) (coord : list F) : result (list (F * F * F)) :=
  let mag_cart : list (F * F * F) := [] in
  let! mag_cart := foldM (λ mag_cart i,
                     let! c0 := py_index coord (3 * i) in
                     let! c1 := py_index coord (3 * i + 1) in
                     let! c2 := py_index coord (3 * i + 2) in
                     Ok (mag_cart ++ [(c0, c1, c2)])) mag_cart (seq 0 N) in
  let mag_spheric : list (F * F * F) := [] in
  let! mag_spheric := foldM (λ mag_spheric i,
                        let! v := py_index mag_cart i in
                        let aux := vec2ang v in
                        Ok (mag_spheric ++ [wrap_declination aux]))
                        mag_spheric (seq 0 N) in
  let mag_sph := mag_spheric in
  Ok mag_sph.

End ParametersSph.

(** ** [residual] *)

Section Residual.
Context {Sc : Scalar} {SM : ScalarMore Sc}.

(** [a - b] on 1-D arrays: elementwise on one length, an array of length
    one is broadcast, otherwise numpy raises [ValueError]. *)
Definition array_sub (a b : list F) : result (list F) :=
  if bool_decide (length a = length b) then Ok (zip_with fsub a b)
  else match a, b with
       | _, [b0] => Ok ((λ e, fsub e b0) <$> a)
       | [a0], _ => Ok ((λ e, fsub a0 e) <$> b)
       | _, _ => Err ValueError
       end.

(** [np.std(r)]: the square root of the mean of the squared deviations
    from the mean *)
Definition np_std (r : list F) : F :=
  let arrmean := np_mean r in
  fsqrt (np_mean ((λ e, fmul (fsub e arrmean) (fsub e arrmean)) <$> r)).

Definition residual (do dp : list F) : result (list F * F * F) :=
  let! r := array_sub do dp in
  let r_mean := np_mean r in
  let r_std := np_std r in
  let r_norm := (λ e, fdiv (fsub e r_mean) r_std) <$> r in
  Ok (r_norm, r_mean, r_std).

End Residual.

(** ** [dipolesrand] *)

Section Dipolesrand.
Context {Sc : Scalar} {K : FieldKernel Sc} {M : Mesher Sc K} {Rng : NumpyRandom Sc}.

(** A computation on the global generator: from the state it finds, it
    returns a value or raises, and leaves a state. *)
Definition rand (A : Type) : Type := rng_state → result A * rng_state.

Definition rand_bind {A B} (m : rand A) (f : A → rand B) : rand B :=
  λ st, match m st with
        | (Ok a, st') => f a st'
        | (Err e, st') => (Err e, st')
        end.

(** code that does not touch the generator *)
Definition rand_pure {A} (r : result A) : rand A := λ st, (r, st).

(** [np.random.seed(seed=seed)]: the state is replaced, or left as it
    was when the seed is refused *)
Definition random_seed (seed : Z) : rand () :=
  λ st, match rng_seed seed with
        | Ok st' => (Ok (), st')
        | Err e => (Err e, st)
        end.

(** [np.random.uniform(low, high, n)] *)
Definition random_uniform (low high : F) (n : nat) : rand (list F) :=
  λ st, match rng_uniform st low high n with
        | Ok (l, st') => (Ok l, st')
        | Err e => (Err e, st)
        end.

(** [np.random.normal(loc, scale, n)] *)
Definition random_normal (loc scale : F) (n : nat) : rand (list F) :=
  λ st, match rng_normal st loc scale n with
        | Ok (l, st') => (Ok l, st')
        | Err e => (Err e, st)
        end.

Notation "'let*' x ':=' e 'in' k" := (rand_bind e (λ x, k))
  (at level 10, x name, e at level 100, k at level 200,
   format "'[v' 'let*'  x  ':='  e  'in'  '/' k ']'").

(** The generator state the call finds is its last argument; the state it
    leaves is the last component of the result.  [n] is a count of draws:
    a natural number (numpy refuses a negative one). *)
Definition dipolesrand (N : Z) (seed : Z) (n : nat) (deg_dec deg_inc std mag raio : F)
    (Lx Ly Lz : F) : rand (list Sphere * list F * list F * list F) :=
  let* _ := random_seed seed in
  let sizex := Lx in
  let sizey := Ly in
  let sizez := Lz in
  let L := fmul (of_Z N) sizex in
  let R := raio in
  let* Coordx :=
    random_uniform (fadd (fmul (fopp half) L) R) (fsub (fmul half L) R) n in
  let* Coordy :=
    random_uniform (fadd (fmul (fopp half) sizey) R) (fsub (fmul half sizey) R) n in
  let* Coordz :=
    random_uniform (fadd (fmul (fopp half) sizez) R) (fsub (fmul half sizez) R) n in
  let* Dec_rand := random_normal deg_dec std n in
  let* Inc_rand := random_normal deg_inc std n in
  rand_pure
    (let magrand : list (F * F * F) := [] in
     let! magrand := foldM (λ magrand i,
                       let! ii := py_index Inc_rand i in
                       let! di := py_index Dec_rand i in
                       Ok (magrand ++ [ang2vec mag ii di])) magrand (seq 0 n) in
     let modelrand : list Sphere := [] in
     let! modelrand := foldM (λ modelrand i,
                         let! cx := py_index Coordx i in
                         let! cy := py_index Coordy i in
                         let! cz := py_index Coordz i in
                         let! mg := py_index magrand i in
                         Ok (modelrand ++ [mesher_Sphere cx cy cz R (Some mg)]))
                         modelrand (seq 0 n) in
     Ok (modelrand, Coordx, Coordy, Coordz)).

End Dipolesrand.

(** ** [proj_polar] *)

(** [fillstyle] of a marker *)
Inductive fillstyle : Type := Full | Nofill.

Section ProjPolar.
Context {Sc : Scalar} {SM : ScalarMore Sc} {Color Marker Size : Type}.

(** One call [mpl.plot(x, y, marker=, ms=, mec=, mew=, mfc=, fillstyle=)];
    [mfc] is absent when the call leaves it out.  The figure is the list
    of the calls made on it, oldest first. *)
Record plot_call : Type := PlotCall {
  pc_x : F;
  pc_y : F;
  pc_marker : Marker;
  pc_ms : Size;
  pc_mec : Color;
  pc_mew : Z;
  pc_mfc : option Color;
  pc_fillstyle : fillstyle
}.

(** [mag[i, j]] on a 2-D array given by its rows *)
Definition index2 (mag : list (list F)) (i j : nat) : result F :=
  let! row := py_index mag i in py_index row j.

(** a [for] loop whose body makes one [mpl.plot] call or raises: the
    calls made before an exception stay on the figure *)
Fixpoint plot_loop (body : nat → result plot_call) (fig : list plot_call)
    (l : list nat) : result () * list plot_call :=
  match l with
  | [] => (Ok (), fig)
  | i :: l' =>
      match body i with
      | Ok call => plot_loop body (fig ++ [call]) l'
      | Err e => (Err e, fig)
      end
  end.

(** [v**2] *)
Definition sqr (v : F) : F := fmul v v.

(** [proj] is bound by the first loop only: it stays unbound for [N <= 0]. *)
Definition proj_polar (N : Z) (mag : list (list F)) (color : Color)
    (simbolo : Marker) (size : Size) (fig : list plot_call)
    : result () * list plot_call :=
  let projections : list F := [] in
  match foldM (λ '(projections, _) i,
          let! inc := index2 mag i 1 in
          let! dec := index2 mag i 2 in
          let projections :=
            projections ++
            [fsqrt (fadd (sqr (fmul (fcos (deg2rad inc)) (fcos (deg2rad dec))))
                         (sqr (fmul (fcos (deg2rad inc)) (fsin (deg2rad dec)))))] in
          Ok (projections, Some projections))
          (projections, None) (py_range N) with
  | Err e => (Err e, fig)
  | Ok (_, proj) =>
      plot_loop (λ i,
        let! inc := index2 mag i 1 in
        let! dec := index2 mag i 2 in
        let! p := match proj with
                  | Some proj => py_index proj i
                  | None => Err UnboundLocalError
                  end in
        if fleb fzero inc
        then Ok (PlotCall (deg2rad dec) p simbolo size color 3 (Some color) Full)
        else Ok (PlotCall (deg2rad dec) p simbolo size color 3 None Nofill))
        fig (py_range N)
  end.


(** [np.array(rows)] for rows of three numbers: the N x 3 array *)
Definition array_rows (rows : list (F * F * F)) : list (list F) :=
  (λ row : F * F * F, [row.1.1; row.1.2; row.2]) <$> rows.

End ProjPolar.

Arguments plot_call {Sc} Color Marker Size.

(** ** Concrete stand-ins for the further operations *)

Definition Qc_leb (a b : Qc) : bool :=
  match (a ?= b)%Qc with Gt => false | _ => true end.

(** the square root, exact on the squares of rationals *)
Definition Qc_sqrt (q : Qc) : Qc :=
  Q2Qc (Z.sqrt (Qnum q) # Pos.sqrt (Qden q)).

Definition QcMore : ScalarMore QcScalar := @Build_ScalarMore QcScalar Qc_leb Qc_sqrt.

(** A toy prism or sphere is its magnetization (zero when no property is
    given); the toy conversions keep the three numbers. *)
Definition toy_source (props : option (Qc * Qc * Qc)) : Qvec :=
  match props with Some v => v | None => (0%Qc, 0%Qc, 0%Qc) end.

Definition QcMesher : Mesher QcScalar QcKernel :=
  @Build_Mesher QcScalar QcKernel
    (λ (x1 x2 y1 y2 z1 z2 : Qc) props, toy_source props)
    (λ (x y z r : Qc) props, toy_source props)
    (λ (intensity inc dec : Qc), (intensity, inc, dec))
    (λ v : Qc * Qc * Qc, v).

(** A generator that steps a counter and draws the lower bound (or the
    mean) every time; it refuses the seeds and the scales that numpy
    refuses. *)
Definition QcRandom : NumpyRandom QcScalar :=
  @Build_NumpyRandom QcScalar Z
    (λ seed, if bool_decide (0 ≤ seed < 2 ^ 32)%Z then Ok seed else Err ValueError)
    (λ st (low high : Qc) n, Ok (replicate n low, (st + 1)%Z))
    (λ st (loc scale : Qc) n,
       if Qc_ltb scale 0%Qc then Err ValueError
       else Ok (replicate n loc, (st + 1)%Z)).

(** ** A second concrete arithmetic: binary64

    The primitive floats of the kernel are IEEE 754 binary64 numbers
    rounded to nearest, the [float] of Python and numpy.  They give a
    [Scalar] on which the embedding runs with the rounding of the real
    code.  Cosine and sine have no primitive: they are polynomial
    stand-ins, which no counterexample below evaluates. *)

(** An [int] converted to [float]: exact below 2**53 and rounded to
    nearest below 2**63; the integers used below are small. *)
Definition float_of_Z (k : Z) : float :=
  match k with
  | Z0 => 0%float
  | Zpos _ => PrimFloat.of_uint63 (Uint63.of_Z k)
  | Zneg _ => PrimFloat.opp (PrimFloat.of_uint63 (Uint63.of_Z (- k)))
  end.

Definition FloatScalar : Scalar := {|
  F := float;
  fzero := 0%float;
  fone := 1%float;
  fadd := PrimFloat.add;
  fsub := PrimFloat.sub;
  fmul := PrimFloat.mul;
  fdiv := PrimFloat.div;
  fopp := PrimFloat.opp;
  finv := λ a, PrimFloat.div 1%float a;
  fltb := PrimFloat.ltb;
  of_Z := float_of_Z;
  micro := 0x1.0c6f7a0b5ed8dp-20%float;
  half := 0.5%float;
  deg2rad := λ t, PrimFloat.mul t (PrimFloat.div 0x1.921fb54442d18p+1%float 180%float);
  fcos := λ t, PrimFloat.sub 1%float (PrimFloat.mul (PrimFloat.mul t t) 0.5%float);
  fsin := λ t, PrimFloat.sub t (PrimFloat.div (PrimFloat.mul (PrimFloat.mul t t) t) 6%float);
  CM := 0x1.ad7f29abcaf48p-24%float;
  T2NT := 1000000000%float
|}.

(** A toy source on floats: a prism or a sphere is its magnetization
    vector and a kernel weighs the observation point by it.  The field of
    a list of sources adds the fields of its members from the left,
    starting with the first: the field of two sources is, bit for bit,
    the sum of their two fields. *)
Definition Fvec : Type := (float * float * float)%type.

Definition float_field (w : float → float → float → Fvec → float) (x y z : float)
    (model : list Fvec) : float :=
  match model with
  | [] => 0%float
  | p :: rest => foldl (λ acc q, PrimFloat.add acc (w x y z q)) (w x y z p) rest
  end.


(** * Properties *)

(** ** Results *)

Lemma py_index_lookup {A} (l : list A) i a : l !! i = Some a → py_index l i = Ok a.
Proof. unfold py_index. by intros ->. Qed.

(** ** Arrays: tiling, reshaping, transposing *)

Section ArrayFacts.
Context {A : Type}.
Implicit Types (l a : list A) (m : list (list A)).

(** each element repeated [q] times, in order *)
Definition tile (q : nat) (l : list A) : list A :=
  concat ((λ e, replicate q e) <$> l).

Lemma length_concat_replicate q l :
  length (concat (replicate q l)) = q * length l.
Proof. induction q as [|q IH]; simpl; [done|]. rw length_app IH. lia. Qed.

Lemma length_tile q l : length (tile q l) = length l * q.
Proof.
  unfold tile. induction l as [|e l IH]; simpl; [done|].
  rw length_app length_replicate IH. lia.
Qed.

Lemma reshape_rows_concat (n cols k : nat) (pre : list A) m :
  length pre = k * cols →
  Forall (λ row, length row = cols) m →
  length m = n →
  (λ r, take cols (drop (r * cols) (pre ++ concat m))) <$> seq k n = m.
Proof.
  revert k pre m. induction n as [|n IH]; intros k pre m Hpre Hm Hn.
  - by destruct m.
  - destruct m as [|row m]; [done|]. simpl in *.
    inversion Hm as [|?? Hrow Hm']; subst.
    f_equal.
    + rw drop_app_length'; try lia. by rw take_app_length.
    + specialize (IH (S k) (pre ++ row) m).
      rw -(assoc_L (++)) in IH. apply IH; [|done|lia].
      rw length_app. simpl. lia.
Qed.

Lemma reshape_concat (n cols : nat) m :
  Forall (λ row, length row = cols) m →
  length m = n →
  reshape n cols (concat m) = Ok m.
Proof.
  intros Hm Hn. unfold reshape.
  assert (length (concat m) = n * cols) as Hlen.
  { subst n. clear -Hm. induction Hm as [|row m Hrow _ IH]; simpl; [done|].
    rw length_app IH Hrow. lia. }
  rw bool_decide_eq_true_2; try done.
  f_equal. by apply (reshape_rows_concat n cols 0 []).
Qed.

Lemma transpose_replicate (q : nat) l :
  transpose (length l) (replicate q l) = (λ e, replicate q e) <$> l.
Proof.
  unfold transpose. apply list_eq. intros c.
  rw !list_lookup_fmap.
  destruct (l !! c) as [e|] eqn:He.
  - rw lookup_seq_lt; try (by eapply lookup_lt_Some). simpl. f_equal.
    clear -He. induction q as [|q IH]; simpl; [done|].
    rw He. simpl. f_equal. exact IH.
  - rw lookup_seq_ge; [by apply lookup_ge_None|done].
Qed.

Lemma lookup_tile q l i j e :
  l !! i = Some e → j < q → tile q l !! (i * q + j) = Some e.
Proof.
  unfold tile. revert i. induction l as [|e' l IH]; intros i He Hj; [done|].
  destruct i as [|i]; simpl in *.
  - injection He as ->. rw lookup_app_l; try (by rw length_replicate).
    by apply lookup_replicate_2.
  - rw lookup_app_r; rw length_replicate; try lia.
    replace (q + i * q + j - q) with (i * q + j) by lia. by apply IH.
Qed.

End ArrayFacts.

Section GridFacts.
Context {Sc : Scalar}.
Implicit Types (x y l off : list F).

Lemma np_resize_tile (q : nat) l :
  np_resize l (q * length l) = concat (replicate q l).
Proof.
  unfold np_resize. case_bool_decide as Hz.
  - destruct Hz as [Hl | Hq].
    + apply nil_length_inv in Hl as ->. rw Nat.mul_0_r. simpl.
      clear. induction q as [|q IH]; simpl; done.
    + apply Nat.eq_mul_0 in Hq as [-> | Hl]; [done|].
      apply nil_length_inv in Hl as ->. simpl.
      clear. induction q as [|q IH]; simpl; done.
  - assert (length l ≠ 0 ∧ q ≠ 0) as [Hl Hq] by (split; intros ?; apply Hz; subst; lia).
    replace (q * length l + length l - 1) with (q * length l + (length l - 1)) by lia.
    rw Nat.div_add_l; try done. rw (Nat.div_small (length l - 1)); try lia.
    rw Nat.add_0_r. apply take_ge. rw length_concat_replicate. lia.
Qed.

(** The chain [np.resize(x, Q*x.size).reshape(Q, x.size).T.ravel()]
    repeats each element of [x] [Q] times. *)
Lemma reshape_resize (q : nat) l :
  reshape q (length l) (np_resize l (q * length l)) = Ok (replicate q l).
Proof.
  rw np_resize_tile reshape_concat; try done.
  - by apply Forall_replicate.
  - by rw length_replicate.
Qed.

Lemma ravel_transpose_replicate (q : nat) l :
  ravel (transpose (length l) (replicate q l)) = tile q l.
Proof. by rw transpose_replicate. Qed.

(** the array after the offsets were added to every block *)
Definition add_offsets (off : list F) (l : list F) : list F :=
  concat ((λ e, fadd e <$> off) <$> l).

Lemma length_add_offsets off l : length (add_offsets off l) = length l * length off.
Proof.
  unfold add_offsets. induction l as [|e l IH]; simpl; [done|].
  rw length_app length_fmap IH. lia.
Qed.

Lemma lookup_add_offsets off l i j e o :
  l !! i = Some e → off !! j = Some o →
  add_offsets off l !! (i * length off + j) = Some (fadd e o).
Proof.
  unfold add_offsets. revert i. induction l as [|e' l IH]; intros i He Ho; [done|].
  pose proof (lookup_lt_Some _ _ _ Ho) as Hj.
  destruct i as [|i]; simpl in *.
  - injection He as ->. rw lookup_app_l; try (by rw length_fmap).
    by rw list_lookup_fmap Ho.
  - rw lookup_app_r; rw length_fmap; try lia.
    replace (length off + i * length off + j - length off)
      with (i * length off + j) by lia.
    by apply IH.
Qed.

(** One iteration of the loop [xgrid[i*Q:(i+1)*Q] += offsets] on the block
    of center [i]. *)
Lemma slice_iadd_block (q k : nat) (pre rest off : list F) (e : F) :
  length pre = k * q → length off = q →
  slice_iadd (pre ++ replicate q e ++ rest) (k * q) ((k + 1) * q) off
  = Ok ((pre ++ (fadd e <$> off)) ++ rest).
Proof.
  intros Hpre Hoff. unfold slice_iadd.
  replace ((k + 1) * q - k * q) with q by lia.
  rw drop_app_length'; try done.
  rw take_app_length'; try (by rw length_replicate).
  rw length_replicate bool_decide_eq_true_2; try done.
  rw take_app_length'; try done.
  rw zip_with_replicate_l; try lia.
  rw (assoc_L (++) pre (replicate q e) rest).
  rw (drop_app_length' (pre ++ replicate q e)).
  - rw length_app length_replicate. lia.
  - by rw -!(assoc_L (++)).
Qed.

Lemma offset_loop (q : nat) off l : ∀ (k : nat) (pre : list F),
  length pre = k * q → length off = q →
  foldM (λ g '(i, _), slice_iadd g (i * q) ((i + 1) * q) off)
        (pre ++ tile q l) (zip (seq k (length l)) l)
  = Ok (pre ++ add_offsets off l).
Proof.
  induction l as [|e l IH]; intros k pre Hpre Hoff; [done|].
  simpl. unfold tile, add_offsets. simpl.
  rw slice_iadd_block; try done. simpl.
  rw (assoc_L (++) pre).
  apply (IH (S k)); [|done].
  rw length_app length_fmap. lia.
Qed.

(** The first iteration fails when the offsets have neither the block's
    length nor length one. *)
Lemma offset_loop_mismatch (q : nat) off (e : F) l :
  length off ≠ q → length off ≠ 1 →
  foldM (λ g '(i, _), slice_iadd g (i * q) ((i + 1) * q) off)
        (tile q (e :: l)) (enumerate (e :: l))
  = Err ValueError.
Proof.
  intros Hq H1. unfold enumerate, tile. simpl. unfold slice_iadd. simpl.
  rw Nat.add_0_r Nat.sub_0_r.
  rw take_app_length'; try (by rw length_replicate).
  rw length_replicate bool_decide_eq_false_2; try done.
  by destruct off as [|? [|? ?]].
Qed.

End GridFacts.

(** ** Exact arithmetic: sums and means *)

Section ExactFacts.
Context {Sc : Scalar} {EA : ExactArith Sc}.

Add Field F_field_tac : F_field.

Lemma foldl_fadd (acc : F) (l : list F) :
  foldl fadd acc l = fadd acc (fsum l).
Proof.
  unfold fsum. revert acc. induction l as [|a l IH]; intros acc; simpl.
  - ring.
  - rw (IH (fadd acc a)) (IH (fadd fzero a)). ring.
Qed.

Lemma fsum_cons (a : F) (l : list F) : fsum (a :: l) = fadd a (fsum l).
Proof. unfold fsum at 1. simpl. rw foldl_fadd. ring. Qed.

Lemma fsum_app (l1 l2 : list F) : fsum (l1 ++ l2) = fadd (fsum l1) (fsum l2).
Proof.
  induction l1 as [|a l1 IH]; simpl.
  - unfold fsum at 2. simpl. ring.
  - rw !fsum_cons IH. ring.
Qed.

Lemma fsum_concat (m : list (list F)) : fsum (concat m) = fsum (fsum <$> m).
Proof.
  induction m as [|row m IH]; simpl; [done|].
  by rw fsum_app fsum_cons IH.
Qed.

Lemma of_Z_succ (n : nat) :
  of_Z (Z.of_nat (S n)) = fadd fone (of_Z (Z.of_nat n)).
Proof. rw Nat2Z.inj_succ -Z.add_1_l of_Z_add of_Z_1. ring. Qed.

Lemma of_Z_opp (k : Z) : of_Z (- k) = fopp (of_Z k).
Proof.
  assert (fadd (of_Z (- k)) (of_Z k) = fzero) as H.
  { rw -of_Z_add Z.add_opp_diag_l. apply of_Z_0. }
  transitivity (fsub (fadd (of_Z (- k)) (of_Z k)) (of_Z k)); [ring|].
  rw H. ring.
Qed.

Lemma fsum_const (c : F) (l : list F) :
  fsum ((λ _, c) <$> l) = fmul (of_Z (Z.of_nat (length l))) c.
Proof.
  induction l as [|a l IH].
  - simpl. rw of_Z_0. unfold fsum. simpl. ring.
  - rw fmap_cons fsum_cons IH. cbn [length]. rw of_Z_succ. ring.
Qed.

Lemma fsum_shift (e : F) (l : list F) :
  fsum (fadd e <$> l) = fadd (fmul (of_Z (Z.of_nat (length l))) e) (fsum l).
Proof.
  induction l as [|a l IH].
  - simpl. rw of_Z_0. unfold fsum. simpl. ring.
  - rw fmap_cons !fsum_cons IH. cbn [length]. rw of_Z_succ. ring.
Qed.

Lemma fsum_scale (c : F) (l : list F) :
  fsum (fmul c <$> l) = fmul c (fsum l).
Proof.
  induction l as [|a l IH].
  - unfold fsum. simpl. ring.
  - rw fmap_cons !fsum_cons IH. ring.
Qed.

(** the integers [lo, lo+1, ...] summed *)
Definition Zsum (ks : list Z) : Z := foldr Z.add 0%Z ks.

Lemma fsum_of_Z (ks : list Z) : fsum (of_Z <$> ks) = of_Z (Zsum ks).
Proof.
  induction ks as [|k ks IH].
  - simpl. rw of_Z_0. done.
  - rw fmap_cons fsum_cons IH. simpl. by rw of_Z_add.
Qed.

Lemma Zsum_app (l1 l2 : list Z) : Zsum (l1 ++ l2) = (Zsum l1 + Zsum l2)%Z.
Proof. induction l1 as [|a l1 IH]; simpl; [done|]. rw IH. lia. Qed.

Lemma Zsum_arange_twice (lo : Z) (n : nat) :
  (2 * Zsum ((λ i : nat, (lo + Z.of_nat i)%Z) <$> seq 0 n)
   = Z.of_nat n * (2 * lo + Z.of_nat n - 1))%Z.
Proof.
  induction n as [|n IH].
  - simpl. lia.
  - rw seq_S fmap_app Zsum_app. simpl. lia.
Qed.

(** The integer offsets [-m .. m] cancel. *)
Lemma Zsum_symmetric (m : Z) : (0 ≤ m)%Z → Zsum (arange (- m) (m + 1)) = 0%Z.
Proof.
  intros Hm. unfold arange.
  pose proof (Zsum_arange_twice (- m) (Z.to_nat (m + 1 - - m))) as H.
  rw Z2Nat.id in H; [lia|]. nia.
Qed.

Lemma fsum_scale_arange (c : F) (m : Z) :
  (0 ≤ m)%Z → fsum (scale_arange c (arange (- m) (m + 1))) = fzero.
Proof.
  intros Hm. unfold scale_arange.
  rw (list_fmap_compose of_Z (fmul c)) fsum_scale fsum_of_Z Zsum_symmetric; try done.
  rw of_Z_0. ring.
Qed.

Lemma fsum_replicate (n : nat) (e : F) :
  fsum (replicate n e) = fmul (of_Z (Z.of_nat n)) e.
Proof.
  induction n as [|n IH].
  - simpl. rw of_Z_0. unfold fsum. simpl. ring.
  - cbn [replicate]. rw fsum_cons IH of_Z_succ. ring.
Qed.

(** Both flattened offset grids of [np.meshgrid] sum to zero when the two
    axes do. *)
Lemma fsum_meshgrid (a b : list F) :
  fsum a = fzero → fsum b = fzero →
  fsum (ravel (meshgrid a b).1) = fzero ∧ fsum (ravel (meshgrid a b).2) = fzero.
Proof.
  intros Ha Hb. unfold ravel, meshgrid. simpl. split.
  - rw fsum_concat -list_fmap_compose.
    rw (list_fmap_ext (fsum ∘ (λ _, a)) (λ _, fzero) b); [by intros; simpl|].
    rw fsum_const. ring.
  - rw fsum_concat -list_fmap_compose.
    rw (list_fmap_ext (fsum ∘ (λ bv, replicate (length a) bv))
          (fmul (of_Z (Z.of_nat (length a)))) b).
    { intros i bv _. simpl. apply fsum_replicate. }
    rw fsum_scale Hb. ring.
Qed.

(** The mean of a block of shifted offsets is the shift when the offsets
    cancel. *)
Lemma np_mean_shift (e : F) (off : list F) :
  off ≠ [] → fsum off = fzero → np_mean (fadd e <$> off) = e.
Proof.
  intros Hne Hoff. unfold np_mean.
  rw fsum_shift Hoff length_fmap.
  assert (of_Z (Z.of_nat (length off)) ≠ fzero) as Hnz.
  { apply of_Z_nonzero. destruct off; [done|]. simpl. lia. }
  field. done.
Qed.


End ExactFacts.

(** ** [point2grid]: what it returns *)

Section Point2Grid.
Context {Sc : Scalar}.
Implicit Types (x y : list F) (z : option (list F)).

Lemma length_arange lo hi : length (arange lo hi) = Z.to_nat (hi - lo).
Proof. unfold arange. by rw length_fmap length_seq. Qed.

Lemma lookup_arange lo hi (i : nat) :
  i < Z.to_nat (hi - lo) → arange lo hi !! i = Some (lo + Z.of_nat i)%Z.
Proof. intros Hi. unfold arange. rw list_lookup_fmap lookup_seq_lt; done. Qed.

(** For an odd [ns], [np.arange(-ns2, ns2+1)] has [ns] entries (none when
    [ns] is negative). *)
Lemma odd_span (ns : Z) :
  (ns `mod` 2)%Z ≠ 0%Z → (ns `div` 2 + 1 - - (ns `div` 2))%Z = ns.
Proof.
  intros Hodd. pose proof (Z.div_mod ns 2 ltac:(lia)).
  pose proof (Z.mod_pos_bound ns 2 ltac:(lia)). lia.
Qed.

(** the two axes of the local offset grid and its flattened coordinates *)
Definition axis_offsets (l : F) (ns : Z) : list F :=
  scale_arange (fdiv (fmul micro l) (of_Z ns))
    (arange (- (ns `div` 2)) (ns `div` 2 + 1)).

Definition offsets_x (lx ly : F) (ns : Z) : list F :=
  ravel (meshgrid (axis_offsets lx ns) (axis_offsets ly ns)).1.

Definition offsets_y (lx ly : F) (ns : Z) : list F :=
  ravel (meshgrid (axis_offsets lx ns) (axis_offsets ly ns)).2.

Lemma length_axis_offsets l ns :
  (ns `mod` 2)%Z ≠ 0%Z → length (axis_offsets l ns) = Z.to_nat ns.
Proof.
  intros Hodd. unfold axis_offsets, scale_arange.
  by rw length_fmap length_arange odd_span.
Qed.

Lemma length_meshgrid_1 (a b : list F) :
  length (ravel (meshgrid a b).1) = length b * length a.
Proof.
  unfold ravel, meshgrid. simpl. induction b as [|e b IH]; simpl; [done|].
  rw length_app IH. lia.
Qed.

Lemma length_meshgrid_2 (a b : list F) :
  length (ravel (meshgrid a b).2) = length b * length a.
Proof. unfold ravel, meshgrid. simpl. apply (length_tile (length a) b). Qed.

Lemma lookup_meshgrid_1 (a b : list F) r c e :
  r < length b → a !! c = Some e →
  ravel (meshgrid a b).1 !! (r * length a + c) = Some e.
Proof.
  unfold ravel, meshgrid. simpl. revert r.
  induction b as [|bv b IH]; intros r Hr He; simpl in *; [lia|].
  pose proof (lookup_lt_Some _ _ _ He) as Hc.
  destruct r as [|r]; simpl.
  - by rw lookup_app_l.
  - rw lookup_app_r; try lia.
    replace (length a + r * length a + c - length a) with (r * length a + c) by lia.
    apply IH; [lia|done].
Qed.

Lemma lookup_meshgrid_2 (a b : list F) r c e :
  c < length a → b !! r = Some e →
  ravel (meshgrid a b).2 !! (r * length a + c) = Some e.
Proof.
  intros Hc He. unfold ravel, meshgrid. simpl.
  by apply (lookup_tile (length a) b).
Qed.

Lemma length_offsets_x lx ly ns :
  (0 < ns)%Z → (ns `mod` 2)%Z ≠ 0%Z →
  length (offsets_x lx ly ns) = Z.to_nat (ns * ns).
Proof.
  intros Hpos Hodd. unfold offsets_x.
  rw length_meshgrid_1 !length_axis_offsets; try done. rw Z2Nat.inj_mul; lia.
Qed.

Lemma length_offsets_y lx ly ns :
  (0 < ns)%Z → (ns `mod` 2)%Z ≠ 0%Z →
  length (offsets_y lx ly ns) = Z.to_nat (ns * ns).
Proof.
  intros Hpos Hodd. unfold offsets_y.
  rw length_meshgrid_2 !length_axis_offsets; try done. rw Z2Nat.inj_mul; lia.
Qed.

(** the four assertions of [point2grid] *)
Definition valid_area (ea : F * F) : Prop :=
  fltb (of_Z 0) ea.1 = true ∧ fltb (of_Z 0) ea.2 = true.

Definition same_size x y z : Prop :=
  length x = length y ∧ ∀ zs : list F, z = Some zs → length x = length zs.

(** Once the assertions hold, [point2grid] is the tiling of the centers
    followed by the two loops that add the offsets. *)
Lemma point2grid_checked x y ea ns z :
  valid_area ea → same_size x y z → (ns `mod` 2)%Z ≠ 0%Z →
  point2grid x y ea ns z =
    (let Q := Z.to_nat (ns * ns) in
     let! xgrid := foldM (λ g '(i, _), slice_iadd g (i * Q) ((i + 1) * Q)
                                         (offsets_x ea.1 ea.2 ns))
                         (tile Q x) (enumerate x) in
     let! ygrid := foldM (λ g '(i, _), slice_iadd g (i * Q) ((i + 1) * Q)
                                         (offsets_y ea.1 ea.2 ns))
                         (tile Q y) (enumerate y) in
     Ok (xgrid, ygrid, tile Q <$> z)).
Proof.
  intros [Hx Hy] [Hxy Hz] Hodd. unfold point2grid.
  rw Hx Hy. simpl.
  rw bool_decide_eq_true_2; try done. simpl.
  assert ((match z with
           | Some zs => py_assert (bool_decide (length x = length zs))
               "x, y and z must have the same number of elements"
           | None => Ok tt
           end) = Ok tt) as ->.
  { destruct z as [zs|]; [|done]. rw bool_decide_eq_true_2; [by apply Hz|done]. }
  simpl. rw (bool_decide_eq_false_2 _ Hodd). simpl.
  unfold py_div_int. rw bool_decide_eq_false_2; [by intros ->|]. simpl.
  rw !reshape_resize. simpl. rw !ravel_transpose_replicate.
  destruct z as [zs|]; simpl.
  - rw reshape_resize. simpl. by rw ravel_transpose_replicate.
  - done.
Qed.

(** The grid for a positive odd resolution. *)
Lemma point2grid_positive x y ea ns z :
  valid_area ea → same_size x y z → (0 < ns)%Z → (ns `mod` 2)%Z ≠ 0%Z →
  point2grid x y ea ns z =
    Ok (add_offsets (offsets_x ea.1 ea.2 ns) x,
        add_offsets (offsets_y ea.1 ea.2 ns) y,
        tile (Z.to_nat (ns * ns)) <$> z).
Proof.
  intros Hea Hsz Hpos Hodd. rw point2grid_checked; try done. cbv zeta.
  unfold enumerate.
  rw (offset_loop _ _ x 0 []); try done; [by apply length_offsets_x|].
  rw (offset_loop _ _ y 0 []); try done. by apply length_offsets_y.
Qed.

End Point2Grid.

Section Blocks.
Context {Sc : Scalar}.

Lemma odd_mod2 (ns : Z) : Z.odd ns = true → (ns `mod` 2)%Z ≠ 0%Z.
Proof. intros Ho. rw -Z.bit0_mod Z.bit0_odd Ho. done. Qed.

(** the block of center [i] in an array built by [add_offsets] *)
Lemma block_add_offsets (off l : list F) (i : nat) (e : F) :
  l !! i = Some e →
  take (length off) (drop (i * length off) (add_offsets off l)) = fadd e <$> off.
Proof.
  unfold add_offsets. revert i. induction l as [|e' l IH]; intros i He; [done|].
  destruct i as [|i]; simpl in *.
  - injection He as ->. rw take_app_length'; [by rw length_fmap|done].
  - rw drop_app_add'; [by rw length_fmap|]. by apply IH.
Qed.

Lemma lookup_axis_offsets (l : F) (ns k : Z) :
  (ns `mod` 2)%Z ≠ 0%Z → (- (ns `div` 2) ≤ k ≤ ns `div` 2)%Z →
  axis_offsets l ns !! Z.to_nat (k + ns `div` 2)
  = Some (fmul (fdiv (fmul micro l) (of_Z ns)) (of_Z k)).
Proof.
  intros Hodd Hk. unfold axis_offsets, scale_arange.
  rw list_lookup_fmap lookup_arange; [lia|]. simpl. do 3 f_equal. lia.
Qed.

(** position of the offset pair [(kx, ky)] in the flattened local grid *)
Lemma offset_position (ns kx ky : Z) :
  (0 < ns)%Z → (ns `mod` 2)%Z ≠ 0%Z →
  (- (ns `div` 2) ≤ kx ≤ ns `div` 2)%Z → (- (ns `div` 2) ≤ ky ≤ ns `div` 2)%Z →
  Z.to_nat ((ky + ns `div` 2) * ns + (kx + ns `div` 2))
  = Z.to_nat (ky + ns `div` 2) * Z.to_nat ns + Z.to_nat (kx + ns `div` 2)
  ∧ Z.to_nat (ky + ns `div` 2) < Z.to_nat ns
  ∧ Z.to_nat (kx + ns `div` 2) < Z.to_nat ns.
Proof.
  intros Hpos Hodd Hkx Hky. pose proof (odd_span ns Hodd) as Hspan.
  split; [|lia]. rw Z2Nat.inj_add; nia.
Qed.

End Blocks.

(** ** The supersampling grid *)

Section GridClaims.
Context {Sc : Scalar}.

(** C3.  For an odd positive resolution [ns], a positive effective area
    [(lx, ly)] and coordinate arrays of one length N, [point2grid] returns
    arrays of length N·ns² in which the block of center [i] starts at
    [i·ns²] and holds, in row-major order over the integer offsets
    [-⌊ns/2⌋ .. ⌊ns/2⌋], the center's coordinate plus the offset scaled by
    [1e-6·lx/ns] in x and [1e-6·ly/ns] in y; [z], when given, is repeated
    without offset; the integer offsets sum to zero, and, in exact
    arithmetic (where the scaled offsets cancel as well), the mean of
    every block is the center's coordinate. *)
Theorem point2grid_grid (x y : list F) (z : option (list F))
    (lx ly : F) (ns : Z) :
  valid_area (lx, ly) → same_size x y z → (0 < ns)%Z → Z.odd ns = true →
  let Q := Z.to_nat (ns * ns) in
  let ns2 := (ns `div` 2)%Z in
  let dx := fdiv (fmul micro lx) (of_Z ns) in
  let dy := fdiv (fmul micro ly) (of_Z ns) in
  ∃ xg yg zg,
    point2grid x y (lx, ly) ns z = Ok (xg, yg, zg) ∧
    length xg = length x * Q ∧ length yg = length x * Q ∧
    (∀ (i : nat) (xi yi : F) (kx ky : Z),
       x !! i = Some xi → y !! i = Some yi →
       (- ns2 ≤ kx ≤ ns2)%Z → (- ns2 ≤ ky ≤ ns2)%Z →
       let j := Z.to_nat ((ky + ns2) * ns + (kx + ns2)) in
       j < Q ∧
       xg !! (i * Q + j) = Some (fadd xi (fmul dx (of_Z kx))) ∧
       yg !! (i * Q + j) = Some (fadd yi (fmul dy (of_Z ky)))) ∧
    (∀ zs : list F, z = Some zs →
       ∃ zg', zg = Some zg' ∧ length zg' = length x * Q ∧
         ∀ (i j : nat) (zi : F), zs !! i = Some zi → j < Q →
           zg' !! (i * Q + j) = Some zi) ∧
    (z = None → zg = None) ∧
    Zsum (arange (- ns2) (ns2 + 1)) = 0%Z ∧
    (ExactArith Sc →
     ∀ (i : nat) (xi yi : F), x !! i = Some xi → y !! i = Some yi →
       np_mean (take Q (drop (i * Q) xg)) = xi ∧
       np_mean (take Q (drop (i * Q) yg)) = yi).
Proof.
  intros Hea Hsz Hpos Hodd Q ns2 dx dy.
  apply odd_mod2 in Hodd.
  pose proof (length_offsets_x lx ly ns Hpos Hodd) as Hlx.
  pose proof (length_offsets_y lx ly ns Hpos Hodd) as Hly.
  pose proof (length_axis_offsets lx ns Hodd) as Hax.
  pose proof (length_axis_offsets ly ns Hodd) as Hay.
  assert (0 < Q) as HQ by (unfold Q; nia).
  assert (0 ≤ ns2)%Z as Hns2 by (apply Z.div_pos; lia).
  eexists _, _, _. split; [by apply point2grid_positive|]. simpl.
  split; [by rw length_add_offsets Hlx|].
  split; [by rw length_add_offsets Hly -(proj1 Hsz)|].
  split; [|split; [|split; [|split]]].
  - intros i xi yi kx ky Hxi Hyi Hkx Hky.
    destruct (offset_position ns kx ky Hpos Hodd Hkx Hky) as (Hj & Hr & Hc).
    fold ns2 in Hj, Hr, Hc. rw Hj.
    split; [unfold Q; rw Z2Nat.inj_mul; try lia; nia|].
    unfold Q. rw -Hlx. split.
    + apply lookup_add_offsets; [done|]. unfold offsets_x. rw -Hax.
      apply lookup_meshgrid_1; [by rw Hay|]. by apply lookup_axis_offsets.
    + rw Hlx -Hly. apply lookup_add_offsets; [done|]. unfold offsets_y. rw -Hax.
      apply lookup_meshgrid_2; [by rw Hax|]. by apply lookup_axis_offsets.
  - intros zs ->. eexists. split; [done|].
    split; [rw length_tile; by rw (proj2 Hsz zs)|].
    intros i j zi Hzi Hj. by apply lookup_tile.
  - by intros ->.
  - by apply Zsum_symmetric.
  - intros EA i xi yi Hxi Hyi.
    destruct (fsum_meshgrid (axis_offsets lx ns) (axis_offsets ly ns)) as [Sx Sy];
      [by apply fsum_scale_arange..|].
    unfold Q. rw -{1 2}Hlx -Hly.
    rw (block_add_offsets _ x i xi); [done|].
    rw (block_add_offsets _ y i yi); [done|].
    split; apply np_mean_shift; try done.
    + intros H0. rw H0 in Hlx. simpl in Hlx. lia.
    + intros H0. rw H0 in Hly. simpl in Hly. lia.
Qed.

End GridClaims.

(** ** The rationals are an exact arithmetic *)

Lemma Qc_of_Z_add (a b : Z) : Qc_of_Z (a + b) = (Qc_of_Z a + Qc_of_Z b)%Qc.
Proof.
  apply Qc_is_canon. unfold Qc_of_Z. simpl.
  rw !Qred_correct inject_Z_plus. reflexivity.
Qed.

Lemma Qc_of_Z_nonzero (a : Z) : a ≠ 0%Z → Qc_of_Z a ≠ 0%Qc.
Proof.
  intros Ha H. apply (f_equal this) in H. simpl in H.
  assert (inject_Z a == 0)%Q as H0.
  { rw -(Qred_correct (inject_Z a)) H. done. }
  unfold Qeq in H0. simpl in H0. lia.
Qed.

Lemma QcExact : ExactArith QcScalar.
Proof.
  split.
  - exact Qcft.
  - reflexivity.
  - reflexivity.
  - exact Qc_of_Z_add.
  - exact Qc_of_Z_nonzero.
Qed.

Section GridClaims2.
Context {Sc : Scalar} {K : FieldKernel Sc}.

Lemma reshape_seq_cols (P : nat) :
  reshape P 3 (seq 0 (3 * P)) = Ok ((λ i, [3 * i; 3 * i + 1; 3 * i + 2]) <$> seq 0 P).
Proof.
  unfold reshape. rw bool_decide_eq_true_2; [rw length_seq; lia|]. f_equal.
  apply list_fmap_ext. intros i r Hr. apply lookup_seq in Hr as [-> Hr]. simpl.
  apply list_eq. intros [|[|[|j]]].
  - rw lookup_take_lt; [lia|]. rw lookup_drop lookup_seq_lt; [lia|]. simpl. f_equal. lia.
  - rw lookup_take_lt; [lia|]. rw lookup_drop lookup_seq_lt; [lia|]. simpl. f_equal. lia.
  - rw lookup_take_lt; [lia|]. rw lookup_drop lookup_seq_lt; [lia|]. simpl. f_equal. lia.
  - rw lookup_take_ge; [lia|]. done.
Qed.

Definition alpha_ok (alpha : Z) : Prop :=
  alpha = 0%Z ∨ alpha = 1%Z ∨ alpha = 2%Z ∨ alpha = 3%Z.

Lemma alpha_assert_ok (alpha : Z) :
  alpha_ok alpha →
  bool_decide (alpha = 0%Z) || bool_decide (alpha = 1%Z)
  || bool_decide (alpha = 2%Z) || bool_decide (alpha = 3%Z) = true.
Proof. by intros [-> | [-> | [-> | ->]]]. Qed.

Lemma point2grid_bad_area (x y : list F) (ea : F * F) (ns : Z) (z : option (list F)) :
  fltb (of_Z 0) ea.1 = false ∨ fltb (of_Z 0) ea.2 = false →
  point2grid x y ea ns z = Err (AssertionError "effective area must be positive").
Proof.
  intros Hbad. unfold point2grid.
  assert (fltb (of_Z 0) ea.1 && fltb (of_Z 0) ea.2 = false) as ->; [|done].
  destruct Hbad as [-> | ->]; [done|]. by destruct (fltb _ ea.1).
Qed.

(** C5.  A call of [point2grid] with a non-positive effective-area
    dimension, coordinate arrays of different lengths or an even [ns] ends
    in the assertion error, whatever the other arguments.  A non-positive
    area is rejected by the first assertion for every [ns], also [ns = 0]
    for which the division [1e-6·lx/ns] would raise, and the callers
    [magnetic_data] and [sensitivity] end in the same error without a
    kernel having been evaluated. *)
Theorem point2grid_rejects (x y : list F) (ea : F * F) (ns : Z)
    (z : option (list F)) :
  (fltb (of_Z 0) ea.1 = false ∨ fltb (of_Z 0) ea.2 = false)
  ∨ length x ≠ length y
  ∨ (∃ zs : list F, z = Some zs ∧ length x ≠ length zs)
  ∨ (ns `mod` 2)%Z = 0%Z →
  (∃ msg, point2grid x y ea ns z = Err (AssertionError msg)) ∧
  (fltb (of_Z 0) ea.1 = false ∨ fltb (of_Z 0) ea.2 = false →
     (∀ x' y' ns' z', point2grid x' y' ea ns' z'
        = Err (AssertionError "effective area must be positive")) ∧
     (∀ x' y' z' model alpha grains, alpha_ok alpha →
        magnetic_data x' y' z' model alpha (Some ea) grains
        = Err (AssertionError "effective area must be positive")) ∧
     (∀ P x' y' z' model alpha junk,
        sensitivity P x' y' z' model alpha (Some ea) junk
        = Err (AssertionError "effective area must be positive"))).
Proof.
  intros Hbad. split.
  - unfold point2grid.
    destruct (fltb (of_Z 0) ea.1 && fltb (of_Z 0) ea.2) eqn:Hea;
      [|by eexists].
    simpl. case_bool_decide as Hxy; [|by eexists]. simpl.
    destruct z as [zs|].
    + case_bool_decide as Hxz; [|by eexists]. simpl.
      case_bool_decide as Hns; [by eexists|].
      exfalso. apply andb_true_iff in Hea as [H1 H2].
      destruct Hbad as [[?|?] | [? | [(zs' & [= <-] & ?) | ?]]]; congruence.
    + simpl. case_bool_decide as Hns; [by eexists|].
      exfalso. apply andb_true_iff in Hea as [H1 H2].
      destruct Hbad as [[?|?] | [? | [(zs' & ? & ?) | ?]]]; congruence.
  - intros Hea. split; [|split].
    + intros. by apply point2grid_bad_area.
    + intros x' y' z' model alpha grains Ha. unfold magnetic_data.
      rw alpha_assert_ok; [done|]. simpl.
      by rw point2grid_bad_area.
    + intros P x' y' z' model alpha junk. unfold sensitivity.
      rw reshape_seq_cols. simpl. by rw point2grid_bad_area.
Qed.

End GridClaims2.

Section GridClaims3.
Context {Sc : Scalar}.

(** C10 (as the code has it).  For a negative odd [ns], a positive
    effective area and coordinate arrays of one length holding at least
    one center, the four assertions of [point2grid] hold and the call
    raises [ValueError] in the first iteration of the offset loop: the
    local offset grid is empty and cannot be added to a block of ns²
    values. *)
Theorem point2grid_negative_ns (x y : list F) (z : option (list F))
    (ea : F * F) (ns : Z) :
  valid_area ea → same_size x y z → x ≠ [] → (ns < 0)%Z → Z.odd ns = true →
  fltb (of_Z 0) ea.1 && fltb (of_Z 0) ea.2 = true ∧
  bool_decide (length x = length y) = true ∧
  negb (bool_decide ((ns `mod` 2)%Z = 0%Z)) = true ∧
  point2grid x y ea ns z = Err ValueError.
Proof.
  intros Hea Hsz Hx Hneg Hodd. apply odd_mod2 in Hodd.
  split; [by destruct Hea as [-> ->]|].
  split; [apply bool_decide_eq_true_2, (proj1 Hsz)|].
  split; [by rw bool_decide_eq_false_2|].
  rw point2grid_checked; try done. cbv zeta.
  destruct x as [|e x]; [done|].
  rw offset_loop_mismatch; try done.
  - unfold offsets_x. rw length_meshgrid_1 !length_axis_offsets; try done. nia.
  - unfold offsets_x. rw length_meshgrid_1 !length_axis_offsets; try done. nia.
Qed.

End GridClaims3.

(** ** The Jacobian: filling the matrix column by column *)

Section Columns.
Context {Sc : Scalar}.

(** a matrix of shape [(N, W)] whose rows agree with the shape *)
Definition well_shaped (N W : nat) (G : matrix) : Prop :=
  shape G = (N, W) ∧ length (rows G) = N ∧
  ∀ (n : nat) (row : list F), rows G !! n = Some row → length row = W.

Lemma np_empty_well_shaped junk N W : well_shaped N W (np_empty junk N W).
Proof.
  unfold well_shaped, np_empty. simpl. split; [done|].
  split; [by rw length_fmap length_seq|].
  intros n row Hrow. apply list_lookup_fmap_Some in Hrow as (r & -> & _).
  by rw length_fmap length_seq.
Qed.

(** [G[:, c] = v] on a well-shaped matrix: column [c] becomes [v], the
    other columns are kept. *)
Lemma set_col_spec (N W : nat) (G : matrix) (c : nat) (v : list F) :
  well_shaped N W G → c < W → length v = N →
  ∃ G', set_col G c v = Ok G' ∧ well_shaped N W G' ∧
    ∀ (n : nat) (row' : list F), rows G' !! n = Some row' →
      ∃ row, rows G !! n = Some row ∧ row' !! c = v !! n ∧
        ∀ c', c' ≠ c → row' !! c' = row !! c'.
Proof.
  intros (Hs & Hlen & Hrows) Hc Hv. unfold set_col. rw Hs. simpl.
  rw bool_decide_eq_true_2; [done|]. rw bool_decide_eq_true_2; [done|].
  eexists. split; [done|]. simpl. split.
  - split; [done|]. split; [rw length_zip_with_l_eq; lia|].
    intros n row' Hrow'. apply lookup_zip_with_Some in Hrow' as (row & vn & -> & Hr & _).
    rw length_insert. by apply (Hrows n).
  - intros n row' Hrow'.
    apply lookup_zip_with_Some in Hrow' as (row & vn & -> & Hr & Hvn).
    exists row. split; [done|]. split.
    + rw Hvn. apply list_lookup_insert_eq. by rw (Hrows n row Hr).
    + intros c' Hne. by apply list_lookup_insert_ne.
Qed.

Section Fill.
Variables (N P L : nat) (V0 V1 V2 : nat → list F).
Hypothesis L_le_P : L ≤ P.
Hypothesis V0_len : ∀ i, i < L → length (V0 i) = N.
Hypothesis V1_len : ∀ i, i < L → length (V1 i) = N.
Hypothesis V2_len : ∀ i, i < L → length (V2 i) = N.

(** the three assignments of one loop iteration, with the column values
    already computed *)
Definition assign3 (G : matrix) (ic : nat * list nat) : result matrix :=
  let! c := py_index ic.2 0 in
  let! G := set_col G c (V0 ic.1) in
  let! c := py_index ic.2 1 in
  let! G := set_col G c (V1 ic.1) in
  let! c := py_index ic.2 2 in
  set_col G c (V2 ic.1).

(** the column blocks of the first [d] prisms are filled *)
Definition filled (d : nat) (G : matrix) : Prop :=
  well_shaped N (3 * P) G ∧
  ∀ (n : nat) (row : list F), rows G !! n = Some row →
    ∀ i, i < d →
      row !! (3 * i) = V0 i !! n ∧ row !! (3 * i + 1) = V1 i !! n ∧
      row !! (3 * i + 2) = V2 i !! n.

Lemma assign3_filled (d : nat) (G : matrix) :
  d < L → filled d G →
  ∃ G', assign3 G (d, [3 * d; 3 * d + 1; 3 * d + 2]) = Ok G' ∧ filled (S d) G'.
Proof using L_le_P V0_len V1_len V2_len.
  intros Hd [Hw HG]. unfold assign3. cbn [fst snd].
  rw (py_index_lookup _ 0 (3 * d)); [done|].
  rw (py_index_lookup _ 1 (3 * d + 1)); [done|].
  rw (py_index_lookup _ 2 (3 * d + 2)); [done|]. cbn [rbind].
  destruct (set_col_spec N (3 * P) G (3 * d) (V0 d)) as (G1 & -> & Hw1 & H1);
    [done|lia|by apply V0_len|]. cbn [rbind].
  destruct (set_col_spec N (3 * P) G1 (3 * d + 1) (V1 d)) as (G2 & -> & Hw2 & H2);
    [done|lia|by apply V1_len|]. cbn [rbind].
  destruct (set_col_spec N (3 * P) G2 (3 * d + 2) (V2 d)) as (G3 & -> & Hw3 & H3);
    [done|lia|by apply V2_len|].
  eexists. split; [done|]. split; [done|].
  intros n row3 Hrow3 i Hi.
  destruct (H3 n row3 Hrow3) as (row2 & Hrow2 & E3 & K3).
  destruct (H2 n row2 Hrow2) as (row1 & Hrow1 & E2 & K2).
  destruct (H1 n row1 Hrow1) as (row0 & Hrow0 & E1 & K1).
  destruct (decide (i = d)) as [-> | Hne].
  - split; [|split].
    + rw K3; [lia|]. rw K2; [lia|]. done.
    + rw K3; [lia|]. done.
    + done.
  - destruct (HG n row0 Hrow0 i ltac:(lia)) as (A0 & A1 & A2).
    split; [|split].
    + rw K3; [lia|]. rw K2; [lia|]. rw K1; [lia|]. done.
    + rw K3; [lia|]. rw K2; [lia|]. rw K1; [lia|]. done.
    + rw K3; [lia|]. rw K2; [lia|]. rw K1; [lia|]. done.
Qed.

Lemma fill_loop (m : nat) : ∀ (d : nat) (G : matrix),
  d + m = L → filled d G →
  ∃ G', foldM assign3 G
          (zip (seq d m) ((λ i, [3 * i; 3 * i + 1; 3 * i + 2]) <$> seq d m))
        = Ok G' ∧ filled L G'.
Proof using L_le_P V0_len V1_len V2_len.
  induction m as [|m IH]; intros d G Hd HG.
  - simpl. exists G. split; [done|]. by replace L with d by lia.
  - cbn [seq fmap list_fmap zip zip_with foldM].
    destruct (assign3_filled d G) as (G1 & -> & HG1); [lia|done|].
    cbn [rbind]. apply IH; [lia|done].
Qed.

End Fill.

Lemma foldM_ext {A B} (f g : B → A → result B) (l : list A) (b : B) :
  (∀ b' a, a ∈ l → f b' a = g b' a) → foldM f b l = foldM g b l.
Proof.
  revert b. induction l as [|a l IH]; intros b Hfg; simpl; [done|].
  rw Hfg; [by left|]. destruct (g b a) as [b'|e]; simpl; [|done].
  apply IH. intros b'' a' Ha'. apply Hfg. by right.
Qed.

Lemma foldM_app {A B} (f : B → A → result B) (l1 l2 : list A) (b : B) :
  foldM f b (l1 ++ l2) = (let! b' := foldM f b l1 in foldM f b' l2).
Proof.
  revert b. induction l1 as [|a l1 IH]; intros b; simpl; [done|].
  destruct (f b a) as [b'|e]; simpl; [|done]. apply IH.
Qed.

Lemma foldM_skip {A B} (l : list A) (b : B) : foldM (λ b' _, Ok b') b l = Ok b.
Proof. induction l as [|a l IH]; simpl; done. Qed.

(** the pairs [(i, [3i, 3i+1, 3i+2])] of [enumerate(cols)] from prism [d] on *)
Definition col_pairs (d m : nat) : list (nat * list nat) :=
  zip (seq d m) ((λ i, [3 * i; 3 * i + 1; 3 * i + 2]) <$> seq d m).

Lemma col_pairs_elem (d m i : nat) (col : list nat) :
  (i, col) ∈ col_pairs d m →
  d ≤ i < d + m ∧ col = [3 * i; 3 * i + 1; 3 * i + 2].
Proof.
  unfold col_pairs. intros Hin. apply list_elem_of_lookup in Hin as [j Hj].
  apply lookup_zip_with_Some in Hj as (i' & col' & [= <- <-] & Hi & Hc).
  apply lookup_seq in Hi as [-> Hj].
  split; [lia|].
  rw list_lookup_fmap lookup_seq_lt in Hc; [done|]. by injection Hc as <-.
Qed.

Lemma col_pairs_split (L m : nat) :
  col_pairs 0 (L + m) = col_pairs 0 L ++ col_pairs L m.
Proof.
  unfold col_pairs. rw seq_app fmap_app. simpl.
  rw zip_with_app; [by rw length_fmap|done].
Qed.

Lemma enumerate_cols (P : nat) :
  enumerate ((λ i, [3 * i; 3 * i + 1; 3 * i + 2]) <$> seq 0 P) = col_pairs 0 P.
Proof. unfold enumerate, col_pairs. by rw length_fmap length_seq. Qed.

End Columns.

(** ** The Jacobian: [sensitivity] *)

Section Sensitivity.
Context {Sc : Scalar} {K : FieldKernel Sc}.
Implicit Types (x y z : list F) (model : list Prism).

(** the values of a kernel at the points [(x[n], y[n], z[n])] *)
Definition kernel_values {Src : Type} (k : F → F → F → Src → F)
    (x y z : list F) (src : Src) : list F :=
  zip_with (λ '(xv, yv) zv, k xv yv zv src) (zip x y) z.

(** the means of the [N] consecutive blocks of [Q] values *)
Definition block_means (v : list F) (N Q : nat) : list F :=
  np_mean <$> ((λ r, take Q (drop (r * Q) v)) <$> seq 0 N).

(** the supersampling grid of resolution 7 *)
Definition grid7 (ea : F * F) x y z : list F * list F * list F :=
  (add_offsets (offsets_x ea.1 ea.2 7) x,
   add_offsets (offsets_y ea.1 ea.2 7) y,
   tile (Z.to_nat (7 * 7)) z).

(** one value per sensor: the kernel at the sensor, or its mean over the
    sensor's block of the resolution-7 grid *)
Definition field_values {Src : Type} x y z (eff_area : option (F * F))
    (k : F → F → F → Src → F) (src : Src) : list F :=
  match eff_area with
  | None => kernel_values k x y z src
  | Some ea =>
      let '(xg, yg, zg) := grid7 ea x y z in
      block_means (kernel_values k xg yg zg src) (length x) (Z.to_nat (7 * 7))
  end.

Definition is02 (alpha : Z) : bool :=
  bool_decide (alpha = 0%Z) || bool_decide (alpha = 2%Z).
Definition is13 (alpha : Z) : bool :=
  bool_decide (alpha = 1%Z) || bool_decide (alpha = 3%Z).

(** the kernel policy of the Jacobian: the kernels of the three columns
    of a prism's block *)
Definition plane_kernels (alpha : Z)
    : (F → F → F → Prism → F) * (F → F → F → Prism → F) * (F → F → F → Prism → F) :=
  if is02 alpha then (kernelxz, kernelyz, kernelzz)
  else (kernelxy, kernelyy, kernelyz).

Definition valid_eff (eff_area : option (F * F)) : Prop :=
  ∀ ea, eff_area = Some ea → valid_area ea.

Lemma is13_negb (alpha : Z) : alpha_ok alpha → is13 alpha = negb (is02 alpha).
Proof. by intros [-> | [-> | [-> | ->]]]. Qed.

Lemma not_alpha_ok (alpha : Z) : ¬ alpha_ok alpha → is02 alpha = false ∧ is13 alpha = false.
Proof.
  intros Hn. unfold is02, is13, alpha_ok in *.
  split; apply orb_false_iff; split; apply bool_decide_eq_false_2; tauto.
Qed.

Lemma kernel_eval_values {Src : Type} (k : F → F → F → Src → F) x y z (src : Src) :
  length x = length y → length x = length z →
  kernel_eval k x y z src = Ok (kernel_values k x y z src).
Proof. intros Hy Hz. unfold kernel_eval. by rw bool_decide_eq_true_2. Qed.

Lemma length_kernel_values {Src : Type} (k : F → F → F → Src → F) x y z (src : Src) :
  length x = length y → length x = length z →
  length (kernel_values k x y z src) = length x.
Proof.
  intros Hy Hz. unfold kernel_values.
  rw length_zip_with_l_eq; rw length_zip_with_l_eq; done.
Qed.

Lemma lookup_kernel_values {Src : Type} (k : F → F → F → Src → F) x y z (src : Src)
    n xn yn zn :
  x !! n = Some xn → y !! n = Some yn → z !! n = Some zn →
  kernel_values k x y z src !! n = Some (k xn yn zn src).
Proof.
  intros Hx Hy Hz. unfold kernel_values.
  apply lookup_zip_with_Some. exists (xn, yn), zn. split; [done|]. split; [|done].
  apply lookup_zip_with_Some. by exists xn, yn.
Qed.

Lemma block_mean_means (v : list F) (N Q : nat) :
  length v = N * Q → block_mean v N Q = Ok (block_means v N Q).
Proof. intros Hv. unfold block_mean, reshape. by rw bool_decide_eq_true_2. Qed.

Lemma length_block_means (v : list F) (N Q : nat) : length (block_means v N Q) = N.
Proof. unfold block_means. by rw !length_fmap length_seq. Qed.

Lemma lookup_block_means (v : list F) (N Q n : nat) :
  n < N → block_means v N Q !! n = Some (np_mean (take Q (drop (n * Q) v))).
Proof.
  intros Hn. unfold block_means. rw !list_lookup_fmap lookup_seq_lt; done.
Qed.

(** the block of sensor [n] of the kernel values on a grid is the kernel
    on the block of sensor [n] of the grid *)
Lemma block_kernel_values {Src : Type} (k : F → F → F → Src → F)
    (xg yg zg : list F) (src : Src) (lo Q : nat) :
  take Q (drop lo (kernel_values k xg yg zg src))
  = kernel_values k (take Q (drop lo xg)) (take Q (drop lo yg))
      (take Q (drop lo zg)) src.
Proof.
  unfold kernel_values. by rw !zip_with_drop !zip_with_take.
Qed.

(** [point2grid] as [magnetic_data] and [sensitivity] call it *)
Lemma point2grid_7 (ea : F * F) x y z :
  valid_area ea → length x = length y → length x = length z →
  point2grid x y ea 7 (Some z)
  = Ok ((grid7 ea x y z).1.1, (grid7 ea x y z).1.2, Some (grid7 ea x y z).2) ∧
  length (grid7 ea x y z).1.1 = length x * Z.to_nat (7 * 7) ∧
  length (grid7 ea x y z).1.2 = length x * Z.to_nat (7 * 7) ∧
  length (grid7 ea x y z).2 = length x * Z.to_nat (7 * 7).
Proof.
  intros Hea Hxy Hxz. unfold grid7. cbn [fst snd]. split.
  - rw point2grid_positive; try done. split; [done|]. by intros zs [= <-].
  - rw !length_add_offsets length_offsets_x; try done.
    rw length_offsets_y; try done. rw length_tile. by rw -Hxy -Hxz.
Qed.

Lemma length_field_values {Src : Type} x y z eff_area
    (k : F → F → F → Src → F) (src : Src) :
  length x = length y → length x = length z →
  length (field_values x y z eff_area k src) = length x.
Proof.
  intros Hxy Hxz. unfold field_values. destruct eff_area as [ea|].
  - unfold grid7. apply length_block_means.
  - by apply length_kernel_values.
Qed.

Section Loop.
Variables (model : list Prism) (alpha : Z).
Variable ev : (F → F → F → Prism → F) → Prism → list F.

(** the values assigned to column [k] of the block of prism [i] *)
Definition column (k i : nat) : list F :=
  match model !! i with
  | Some p =>
      ev (match k with
          | 0 => (plane_kernels alpha).1.1
          | 1 => (plane_kernels alpha).1.2
          | _ => (plane_kernels alpha).2
          end) p
  | None => []
  end.

(** one iteration of the loop: [model[i]] raises [IndexError] beyond the
    model, otherwise the three columns are assigned *)
Definition assign3_checked (G : matrix) (ic : nat * list nat) : result matrix :=
  if bool_decide (ic.1 < length model)
  then assign3 (column 0) (column 1) (column 2) G ic
  else Err IndexError.

Variables (N P : nat).
Hypothesis ev_len : ∀ k p, length (ev k p) = N.

Lemma column_length (k i : nat) : i < length model → length (column k i) = N.
Proof using ev_len.
  intros Hi. unfold column.
  destruct (model !! i) as [p|] eqn:Hp; [|apply lookup_ge_None in Hp; lia].
  apply ev_len.
Qed.

Lemma checked_loop_ok (L : nat) (junk : nat → nat → F) :
  L ≤ P → L ≤ length model →
  ∃ G, foldM assign3_checked (np_empty junk N (3 * P)) (col_pairs 0 L) = Ok G ∧
       filled N P (column 0) (column 1) (column 2) L G.
Proof using ev_len.
  intros HLP HLm.
  rw (foldM_ext _ (assign3 (column 0) (column 1) (column 2))).
  { intros G [i col] Hin. apply col_pairs_elem in Hin as [Hi ->].
    unfold assign3_checked. cbn [fst]. rw bool_decide_eq_true_2; [lia|done]. }
  apply (fill_loop N P L); try done.
  - intros i Hi. apply column_length. lia.
  - intros i Hi. apply column_length. lia.
  - intros i Hi. apply column_length. lia.
  - split; [apply np_empty_well_shaped|]. intros; lia.
Qed.

Lemma checked_loop_short (junk : nat → nat → F) :
  length model < P →
  foldM assign3_checked (np_empty junk N (3 * P)) (col_pairs 0 P) = Err IndexError.
Proof using ev_len.
  intros Hshort.
  replace P with (length model + S (P - length model - 1)) at 2 by lia.
  rw col_pairs_split foldM_app.
  destruct (checked_loop_ok (length model) junk) as (G & -> & _); [lia|done|].
  cbn [rbind]. unfold col_pairs. cbn [seq fmap list_fmap zip zip_with foldM].
  unfold assign3_checked at 1. cbn [fst].
  rw bool_decide_eq_false_2; [lia|done].
Qed.

End Loop.

(** The body of the loop without an effective area is [assign3_checked]. *)
Lemma direct_body x y z model (alpha : Z) (G : matrix) (i : nat) :
  alpha_ok alpha → length x = length y → length x = length z →
  (let col := [3 * i; 3 * i + 1; 3 * i + 2] in
   let! G :=
     if bool_decide (alpha = 0%Z) || bool_decide (alpha = 2%Z) then
       let! G := assign_col G col 0 kernelxz x y z model i in
       let! G := assign_col G col 1 kernelyz x y z model i in
       assign_col G col 2 kernelzz x y z model i
     else Ok G in
   if bool_decide (alpha = 1%Z) || bool_decide (alpha = 3%Z) then
     let! G := assign_col G col 0 kernelxy x y z model i in
     let! G := assign_col G col 1 kernelyy x y z model i in
     assign_col G col 2 kernelyz x y z model i
   else Ok G)
  = assign3_checked model alpha (field_values x y z None) G
      (i, [3 * i; 3 * i + 1; 3 * i + 2]).
Proof.
  intros Ha Hxy Hxz. cbv zeta.
  change (bool_decide (alpha = 0%Z) || bool_decide (alpha = 2%Z)) with (is02 alpha).
  change (bool_decide (alpha = 1%Z) || bool_decide (alpha = 3%Z)) with (is13 alpha).
  rw is13_negb; [done|].
  unfold assign3_checked, assign3, assign_col, column, plane_kernels, py_index,
    field_values.
  cbn [fst snd].
  destruct (model !! i) as [p|] eqn:Hp.
  - rw bool_decide_eq_true_2; [by eapply lookup_lt_Some|].
    cbn [lookup list_lookup rbind].
    rw !kernel_eval_values; try done. cbn [rbind].
    destruct (is02 alpha); cbn [negb fst snd rbind].
    + destruct (set_col G _ _) as [G1|]; cbn [rbind]; [|done].
      destruct (set_col G1 _ _) as [G2|]; cbn [rbind]; [|done].
      by destruct (set_col G2 _ _).
    + destruct (set_col G _ _) as [G1|]; cbn [rbind]; [|done].
      destruct (set_col G1 _ _) as [G2|]; cbn [rbind]; [|done].
      by destruct (set_col G2 _ _).
  - rw bool_decide_eq_false_2; [apply lookup_ge_None in Hp; lia|].
    by destruct (is02 alpha).
Qed.

(** The body of the loop with an effective area is [assign3_checked]. *)
Lemma averaged_body (ea : F * F) x y z model (alpha : Z) (G : matrix) (i : nat) :
  alpha_ok alpha → valid_area ea → length x = length y → length x = length z →
  (let col := [3 * i; 3 * i + 1; 3 * i + 2] in
   let '(xg, yg, zg) := grid7 ea x y z in
   let Q := Z.to_nat (7 * 7) in
   let! G :=
     if bool_decide (alpha = 0%Z) || bool_decide (alpha = 2%Z) then
       let! G := assign_mean_col G col 0 kernelxz xg yg zg model i (length x) Q in
       let! G := assign_mean_col G col 1 kernelyz xg yg zg model i (length x) Q in
       assign_mean_col G col 2 kernelzz xg yg zg model i (length x) Q
     else Ok G in
   if bool_decide (alpha = 1%Z) || bool_decide (alpha = 3%Z) then
     let! G := assign_mean_col G col 0 kernelxy xg yg zg model i (length x) Q in
     let! G := assign_mean_col G col 1 kernelyy xg yg zg model i (length x) Q in
     assign_mean_col G col 2 kernelyz xg yg zg model i (length x) Q
   else Ok G)
  = assign3_checked model alpha (field_values x y z (Some ea)) G
      (i, [3 * i; 3 * i + 1; 3 * i + 2]).
Proof.
  intros Ha Hea Hxy Hxz. cbv zeta.
  destruct (point2grid_7 ea x y z Hea Hxy Hxz) as (_ & Lx & Ly & Lz).
  change (bool_decide (alpha = 0%Z) || bool_decide (alpha = 2%Z)) with (is02 alpha).
  change (bool_decide (alpha = 1%Z) || bool_decide (alpha = 3%Z)) with (is13 alpha).
  rw is13_negb; [done|].
  unfold assign3_checked, assign3, assign_mean_col, column, plane_kernels, py_index,
    field_values.
  destruct (grid7 ea x y z) as [[xg yg] zg]. cbn [fst snd] in *.
  assert (∀ (k : F → F → F → Prism → F) (p : Prism),
            length (kernel_values k xg yg zg p)
            = length x * Z.to_nat (7 * 7)) as Hlen.
  { intros k p. rw length_kernel_values; [by rw Lx Ly|by rw Lx Lz|done]. }
  destruct (model !! i) as [p|] eqn:Hp.
  - rw bool_decide_eq_true_2; [by eapply lookup_lt_Some|].
    cbn [lookup list_lookup rbind].
    rw !kernel_eval_values; try (by rw Lx ?Ly ?Lz). cbn [rbind].
    rw !block_mean_means; try apply Hlen. cbn [rbind].
    destruct (is02 alpha); cbn [negb fst snd rbind].
    + destruct (set_col G _ _) as [G1|]; cbn [rbind]; [|done].
      destruct (set_col G1 _ _) as [G2|]; cbn [rbind]; [|done].
      by destruct (set_col G2 _ _).
    + destruct (set_col G _ _) as [G1|]; cbn [rbind]; [|done].
      destruct (set_col G1 _ _) as [G2|]; cbn [rbind]; [|done].
      by destruct (set_col G2 _ _).
  - rw bool_decide_eq_false_2; [apply lookup_ge_None in Hp; lia|].
    by destruct (is02 alpha).
Qed.

(** [sensitivity] is the checked loop over the prisms followed by the
    scaling. *)
Lemma sensitivity_loop (P : nat) x y z model (alpha : Z)
    (eff_area : option (F * F)) (junk : nat → nat → F) :
  alpha_ok alpha → valid_eff eff_area → length x = length y → length x = length z →
  sensitivity P x y z model alpha eff_area junk
  = (let! G := foldM (assign3_checked model alpha (field_values x y z eff_area))
                 (np_empty junk (length x) (3 * P)) (col_pairs 0 P) in
     Ok (matrix_imul G (fmul CM T2NT))).
Proof.
  intros Ha Hea Hxy Hxz. unfold sensitivity. rw reshape_seq_cols. cbn [rbind].
  rw enumerate_cols. destruct eff_area as [ea|].
  - specialize (Hea ea eq_refl). cbv zeta.
    destruct (point2grid_7 ea x y z Hea Hxy Hxz) as (-> & _). cbn [rbind unpack3].
    f_equal. apply foldM_ext. intros G [i col] Hin.
    apply col_pairs_elem in Hin as [_ ->].
    by rw -(averaged_body ea x y z model alpha G i).
  - f_equal. apply foldM_ext. intros G [i col] Hin.
    apply col_pairs_elem in Hin as [_ ->].
    by rw -(direct_body x y z model alpha G i).
Qed.

End Sensitivity.

Section SensitivityResults.
Context {Sc : Scalar} {K : FieldKernel Sc}.
Implicit Types (x y z : list F) (model : list Prism).

Lemma matrix_imul_lookup (G : matrix) (c : F) (n : nat) (row : list F) :
  rows G !! n = Some row →
  rows (matrix_imul G c) !! n = Some ((λ e, fmul e c) <$> row).
Proof. intros Hrow. unfold matrix_imul. simpl. by rw list_lookup_fmap Hrow. Qed.

Lemma matrix_imul_well_shaped (N W : nat) (G : matrix) (c : F) :
  well_shaped N W G → well_shaped N W (matrix_imul G c).
Proof.
  intros (Hs & Hl & Hr). unfold well_shaped, matrix_imul. simpl.
  split; [done|]. split; [by rw length_fmap|].
  intros n row Hrow. apply list_lookup_fmap_Some in Hrow as (row0 & -> & Hrow0).
  rw length_fmap. by apply (Hr n).
Qed.

(** With enough prisms in the model the loop fills every column block. *)
Lemma sensitivity_ok (P : nat) x y z model (alpha : Z)
    (eff_area : option (F * F)) (junk : nat → nat → F) :
  alpha_ok alpha → valid_eff eff_area → length x = length y → length x = length z →
  P ≤ length model →
  ∃ G, sensitivity P x y z model alpha eff_area junk
       = Ok (matrix_imul G (fmul CM T2NT)) ∧
       filled (length x) P
         (column model alpha (field_values x y z eff_area) 0)
         (column model alpha (field_values x y z eff_area) 1)
         (column model alpha (field_values x y z eff_area) 2) P G.
Proof.
  intros Ha Hea Hxy Hxz HP. rw sensitivity_loop; try done.
  destruct (checked_loop_ok model alpha (field_values x y z eff_area) (length x) P)
    with (L := P) (junk := junk) as (G & -> & HG); try done.
  - intros k p. by apply length_field_values.
  - by exists G.
Qed.

(** A model with fewer than [P] prisms makes [model[i]] raise. *)
Lemma sensitivity_short (P : nat) x y z model (alpha : Z)
    (eff_area : option (F * F)) (junk : nat → nat → F) :
  alpha_ok alpha → valid_eff eff_area → length x = length y → length x = length z →
  length model < P →
  sensitivity P x y z model alpha eff_area junk = Err IndexError.
Proof.
  intros Ha Hea Hxy Hxz HP. rw sensitivity_loop; try done.
  rw (checked_loop_short model alpha (field_values x y z eff_area) (length x) P);
    try done.
  intros k p. by apply length_field_values.
Qed.

(** Only the first [P] prisms of the model are read. *)
Lemma sensitivity_take (P : nat) x y z model (alpha : Z)
    (eff_area : option (F * F)) (junk : nat → nat → F) :
  alpha_ok alpha → valid_eff eff_area → length x = length y → length x = length z →
  P ≤ length model →
  sensitivity P x y z model alpha eff_area junk
  = sensitivity P x y z (take P model) alpha eff_area junk.
Proof.
  intros Ha Hea Hxy Hxz HP. rw !sensitivity_loop; try done. f_equal.
  apply foldM_ext. intros G [i col] Hin. apply col_pairs_elem in Hin as [Hi ->].
  unfold assign3_checked, assign3, column. cbn [fst snd].
  rw length_take_le; [done|].
  rw !bool_decide_eq_true_2; try lia.
  by rw lookup_take_lt; [lia|].
Qed.

(** Without a valid plane index no column is assigned: the result is the
    scaled contents of [np.empty]. *)
Lemma sensitivity_bad_alpha (P : nat) x y z model (alpha : Z)
    (junk : nat → nat → F) :
  ¬ alpha_ok alpha →
  sensitivity P x y z model alpha None junk
  = Ok (matrix_imul (np_empty junk (length x) (3 * P)) (fmul CM T2NT)).
Proof.
  intros Ha. destruct (not_alpha_ok alpha Ha) as [H02 H13].
  unfold sensitivity. rw reshape_seq_cols. cbn [rbind].
  change (bool_decide (alpha = 0%Z) || bool_decide (alpha = 2%Z)) with (is02 alpha).
  change (bool_decide (alpha = 1%Z) || bool_decide (alpha = 3%Z)) with (is13 alpha).
  rw H02 H13.
  rw (foldM_ext _ (λ G _, Ok G)); [by intros G [i col] _|].
  by rw foldM_skip.
Qed.

(** what one sensor contributes: the kernel at the sensor, or the mean of
    the kernel over the 49 points of the sensor's block of the grid of
    resolution 7 *)
Definition sensor_value {Src : Type} x y z (eff_area : option (F * F))
    (k : F → F → F → Src → F) (src : Src) (n : nat) (e : F) : Prop :=
  match eff_area with
  | None =>
      ∃ xn yn zn, x !! n = Some xn ∧ y !! n = Some yn ∧ z !! n = Some zn ∧
        e = k xn yn zn src
  | Some ea =>
      ∃ xg yg zg, point2grid x y ea 7 (Some z) = Ok (xg, yg, Some zg) ∧
        length xg = length x * 49 ∧
        e = np_mean (kernel_values k (take 49 (drop (n * 49) xg))
                       (take 49 (drop (n * 49) yg))
                       (take 49 (drop (n * 49) zg)) src)
  end.

Lemma field_values_sensor {Src : Type} x y z (eff_area : option (F * F))
    (k : F → F → F → Src → F) (src : Src) (n : nat) :
  valid_eff eff_area → length x = length y → length x = length z → n < length x →
  ∃ e, field_values x y z eff_area k src !! n = Some e ∧
       sensor_value x y z eff_area k src n e.
Proof.
  intros Hea Hxy Hxz Hn. unfold field_values, sensor_value.
  destruct eff_area as [ea|].
  - destruct (point2grid_7 ea x y z (Hea ea eq_refl) Hxy Hxz) as (Hg & Lx & _).
    destruct (grid7 ea x y z) as [[xg yg] zg]. cbn [fst snd] in *.
    eexists. split; [by apply lookup_block_means|].
    exists xg, yg, zg. split; [done|]. split; [done|].
    by rw block_kernel_values.
  - destruct (lookup_lt_is_Some_2 x n Hn) as [xn Hxn].
    destruct (lookup_lt_is_Some_2 y n ltac:(lia)) as [yn Hyn].
    destruct (lookup_lt_is_Some_2 z n ltac:(lia)) as [zn Hzn].
    exists (k xn yn zn src). split; [by apply lookup_kernel_values|].
    by exists xn, yn, zn.
Qed.

(** The entries of the Jacobian. *)
Lemma sensitivity_entries (P : nat) x y z model (alpha : Z)
    (eff_area : option (F * F)) (junk : nat → nat → F) :
  alpha_ok alpha → valid_eff eff_area → length x = length y → length x = length z →
  P ≤ length model →
  ∃ G, sensitivity P x y z model alpha eff_area junk = Ok G ∧
    well_shaped (length x) (3 * P) G ∧
    ∀ n, n < length x →
      ∃ row, rows G !! n = Some row ∧
        ∀ i p, i < P → model !! i = Some p →
          ∃ e0 e1 e2,
            row !! (3 * i) = Some (fmul e0 (fmul CM T2NT)) ∧
            row !! (3 * i + 1) = Some (fmul e1 (fmul CM T2NT)) ∧
            row !! (3 * i + 2) = Some (fmul e2 (fmul CM T2NT)) ∧
            sensor_value x y z eff_area (plane_kernels alpha).1.1 p n e0 ∧
            sensor_value x y z eff_area (plane_kernels alpha).1.2 p n e1 ∧
            sensor_value x y z eff_area (plane_kernels alpha).2 p n e2.
Proof.
  intros Ha Hea Hxy Hxz HP.
  destruct (sensitivity_ok P x y z model alpha eff_area junk)
    as (G & -> & Hw & HG); try done.
  eexists. split; [done|]. split; [by apply matrix_imul_well_shaped|].
  intros n Hn. destruct Hw as (_ & Hlen & _).
  destruct (lookup_lt_is_Some_2 (rows G) n ltac:(lia)) as [row Hrow].
  exists ((λ e, fmul e (fmul CM T2NT)) <$> row).
  split; [by apply matrix_imul_lookup|].
  intros i p Hi Hp. destruct (HG n row Hrow i Hi) as (E0 & E1 & E2).
  unfold column in E0, E1, E2. rw Hp in E0 E1 E2.
  destruct (field_values_sensor x y z eff_area (plane_kernels alpha).1.1 p n)
    as (e0 & He0 & S0); try done.
  destruct (field_values_sensor x y z eff_area (plane_kernels alpha).1.2 p n)
    as (e1 & He1 & S1); try done.
  destruct (field_values_sensor x y z eff_area (plane_kernels alpha).2 p n)
    as (e2 & He2 & S2); try done.
  exists e0, e1, e2. rw !list_lookup_fmap E0 E1 E2 He0 He1 He2. done.
Qed.

(** C1.  For a plane index in {0,1,2,3}, P ≥ 1 prisms and N sensor
    coordinates, [sensitivity] returns a matrix of shape N by 3P in which
    prism [i] occupies columns [3i], [3i+1], [3i+2]; for planes {0,2} the
    block holds the xz, yz and zz kernels of prism [i], for planes {1,3}
    the xy, yy and yz kernels, evaluated at the sensor or averaged over its
    footprint when an effective area is given; every entry is the kernel
    value times [CM*T2NT]. *)
Theorem sensitivity_blocks (P : nat) x y z model (alpha : Z)
    (eff_area : option (F * F)) (junk : nat → nat → F) :
  alpha_ok alpha → 1 ≤ P → length model = P →
  length x = length y → length x = length z → valid_eff eff_area →
  ∃ G, sensitivity P x y z model alpha eff_area junk = Ok G ∧
    shape G = (length x, 3 * P) ∧ length (rows G) = length x ∧
    (∀ n row, rows G !! n = Some row → length row = 3 * P) ∧
    (∀ n, n < length x →
      ∃ row, rows G !! n = Some row ∧
        ∀ i p, model !! i = Some p →
          ∃ e0 e1 e2,
            row !! (3 * i) = Some (fmul e0 (fmul CM T2NT)) ∧
            row !! (3 * i + 1) = Some (fmul e1 (fmul CM T2NT)) ∧
            row !! (3 * i + 2) = Some (fmul e2 (fmul CM T2NT)) ∧
            (alpha = 0%Z ∨ alpha = 2%Z →
               sensor_value x y z eff_area kernelxz p n e0 ∧
               sensor_value x y z eff_area kernelyz p n e1 ∧
               sensor_value x y z eff_area kernelzz p n e2) ∧
            (alpha = 1%Z ∨ alpha = 3%Z →
               sensor_value x y z eff_area kernelxy p n e0 ∧
               sensor_value x y z eff_area kernelyy p n e1 ∧
               sensor_value x y z eff_area kernelyz p n e2)).
Proof.
  intros Ha HP Hm Hxy Hxz Hea.
  destruct (sensitivity_entries P x y z model alpha eff_area junk)
    as (G & HG & (Hs & Hl & Hr) & Hent); try done; [lia|].
  exists G. do 4 (split; [done|]).
  intros n Hn. destruct (Hent n Hn) as (row & Hrow & Hcols).
  exists row. split; [done|]. intros i p Hp.
  destruct (Hcols i p) as (e0 & e1 & e2 & R0 & R1 & R2 & S0 & S1 & S2);
    [rw -Hm; by eapply lookup_lt_Some|done|].
  exists e0, e1, e2. do 3 (split; [done|]).
  unfold plane_kernels, is02 in S0, S1, S2.
  split; intros [-> | ->]; done.
Qed.

(** C9.  The column block of prism [i] depends only on prism [i] and on
    the sensor coordinates: two models that agree on prism [i] give the
    same entries in columns [3i], [3i+1], [3i+2], whatever their other
    prisms (and whatever the initial contents of the matrix). *)
Theorem sensitivity_block_independent (P : nat) x y z (model1 model2 : list Prism)
    (alpha : Z) (eff_area : option (F * F)) (junk1 junk2 : nat → nat → F)
    (i : nat) (p : Prism) :
  alpha_ok alpha → valid_eff eff_area → length x = length y → length x = length z →
  length model1 = P → length model2 = P →
  model1 !! i = Some p → model2 !! i = Some p →
  ∃ G1 G2,
    sensitivity P x y z model1 alpha eff_area junk1 = Ok G1 ∧
    sensitivity P x y z model2 alpha eff_area junk2 = Ok G2 ∧
    length (rows G1) = length x ∧ length (rows G2) = length x ∧
    ∀ n, n < length x →
      ∃ row1 row2 e0 e1 e2,
        rows G1 !! n = Some row1 ∧ rows G2 !! n = Some row2 ∧
        row1 !! (3 * i) = Some e0 ∧ row2 !! (3 * i) = Some e0 ∧
        row1 !! (3 * i + 1) = Some e1 ∧ row2 !! (3 * i + 1) = Some e1 ∧
        row1 !! (3 * i + 2) = Some e2 ∧ row2 !! (3 * i + 2) = Some e2.
Proof.
  intros Ha Hea Hxy Hxz Hm1 Hm2 Hp1 Hp2.
  assert (i < P) as Hi by (rw -Hm1; by eapply lookup_lt_Some).
  destruct (sensitivity_ok P x y z model1 alpha eff_area junk1)
    as (G1 & -> & Hw1 & HG1); try done; [lia|].
  destruct (sensitivity_ok P x y z model2 alpha eff_area junk2)
    as (G2 & -> & Hw2 & HG2); try done; [lia|].
  eexists _, _. do 2 (split; [done|]).
  destruct Hw1 as (_ & Hl1 & _). destruct Hw2 as (_ & Hl2 & _).
  split; [by rw length_fmap|]. split; [by rw length_fmap|].
  intros n Hn.
  destruct (lookup_lt_is_Some_2 (rows G1) n ltac:(lia)) as [row1 Hrow1].
  destruct (lookup_lt_is_Some_2 (rows G2) n ltac:(lia)) as [row2 Hrow2].
  destruct (HG1 n row1 Hrow1 i Hi) as (A0 & A1 & A2).
  destruct (HG2 n row2 Hrow2 i Hi) as (B0 & B1 & B2).
  unfold column in *. rw Hp1 in A0 A1 A2. rw Hp2 in B0 B1 B2.
  assert (∀ k : F → F → F → Prism → F,
            is_Some (field_values x y z eff_area k p !! n)) as Hv.
  { intros k. apply lookup_lt_is_Some_2. by rw length_field_values. }
  destruct (Hv (plane_kernels alpha).1.1) as [e0 He0].
  destruct (Hv (plane_kernels alpha).1.2) as [e1 He1].
  destruct (Hv (plane_kernels alpha).2) as [e2 He2].
  exists ((λ e, fmul e (fmul CM T2NT)) <$> row1),
         ((λ e, fmul e (fmul CM T2NT)) <$> row2),
         (fmul e0 (fmul CM T2NT)), (fmul e1 (fmul CM T2NT)), (fmul e2 (fmul CM T2NT)).
  split; [by apply matrix_imul_lookup|]. split; [by apply matrix_imul_lookup|].
  rw !list_lookup_fmap A0 A1 A2 B0 B1 B2 He0 He1 He2. done.
Qed.

End SensitivityResults.

(** ** The forward field: [magnetic_data] *)

Section MagneticData.
Context {Sc : Scalar} {K : FieldKernel Sc}.
Implicit Types (x y z : list F) (model : list Prism) (grains : option (list Sphere)).

(** the field kernels of a plane: vertical-like for planes {0,2},
    in-plane-like for planes {1,3} *)
Definition prism_field (alpha : Z) : F → F → F → list Prism → F :=
  if is02 alpha then prism_bz else prism_by.
Definition sphere_field (alpha : Z) : F → F → F → list Sphere → F :=
  if is02 alpha then sphere_bz else sphere_by.

(** [magnetic_data] returns the prism field, plus the grain field when
    grains are given. *)
Lemma magnetic_data_values x y z model (alpha : Z) (eff_area : option (F * F)) grains :
  alpha_ok alpha → valid_eff eff_area → length x = length y → length x = length z →
  magnetic_data x y z model alpha eff_area grains
  = Ok (match grains with
        | None => field_values x y z eff_area (prism_field alpha) model
        | Some gr =>
            array_iadd (field_values x y z eff_area (prism_field alpha) model)
                       (field_values x y z eff_area (sphere_field alpha) gr)
        end).
Proof.
  intros Ha Hea Hxy Hxz. unfold magnetic_data.
  rw alpha_assert_ok; [done|]. cbn [py_assert rbind].
  change (bool_decide (alpha = 0%Z) || bool_decide (alpha = 2%Z)) with (is02 alpha).
  change (bool_decide (alpha = 1%Z) || bool_decide (alpha = 3%Z)) with (is13 alpha).
  rw is13_negb; [done|]. unfold field_values, prism_field, sphere_field.
  destruct eff_area as [ea|].
  - cbv zeta.
    destruct (point2grid_7 ea x y z (Hea ea eq_refl) Hxy Hxz) as (-> & Lx & Ly & Lz).
    destruct (grid7 ea x y z) as [[xg yg] zg]. cbn [fst snd rbind unpack3] in *.
    assert (∀ (Src : Type) (k : F → F → F → Src → F) (s : Src),
              (let! v := kernel_eval k xg yg zg s in
               block_mean v (length x) (Z.to_nat (7 * 7)))
              = Ok (block_means (kernel_values k xg yg zg s) (length x)
                      (Z.to_nat (7 * 7)))) as Hk.
    { intros Src k s. rw kernel_eval_values; [by rw Lx Ly|by rw Lx Lz|].
      cbn [rbind]. apply block_mean_means.
      rw length_kernel_values; [by rw Lx Ly|by rw Lx Lz|done]. }
    destruct (is02 alpha); cbn [negb].
    + destruct grains as [gr|].
      * pose proof (Hk _ prism_bz model) as H1. pose proof (Hk _ sphere_bz gr) as H2.
        destruct (kernel_eval prism_bz xg yg zg model) as [v1|]; [|done].
        cbn [rbind] in *. rw H1. cbn [rbind].
        destruct (kernel_eval sphere_bz xg yg zg gr) as [v2|]; [|done].
        cbn [rbind] in *. rw H2. done.
      * pose proof (Hk _ prism_bz model) as H1.
        destruct (kernel_eval prism_bz xg yg zg model) as [v1|]; [|done].
        cbn [rbind] in *. rw H1. done.
    + cbn [rbind]. destruct grains as [gr|].
      * pose proof (Hk _ prism_by model) as H1. pose proof (Hk _ sphere_by gr) as H2.
        destruct (kernel_eval prism_by xg yg zg model) as [v1|]; [|done].
        cbn [rbind] in *. rw H1. cbn [rbind].
        destruct (kernel_eval sphere_by xg yg zg gr) as [v2|]; [|done].
        cbn [rbind] in *. rw H2. done.
      * pose proof (Hk _ prism_by model) as H1.
        destruct (kernel_eval prism_by xg yg zg model) as [v1|]; [|done].
        cbn [rbind] in *. rw H1. done.
  - destruct (is02 alpha); cbn [negb rbind].
    + rw kernel_eval_values; try done. cbn [rbind].
      destruct grains as [gr|]; [|done].
      rw kernel_eval_values; try done.
    + rw kernel_eval_values; try done. cbn [rbind].
      destruct grains as [gr|]; [|done].
      rw kernel_eval_values; try done.
Qed.

(** C4.  With an effective area, [magnetic_data] and [sensitivity] build
    the grid with resolution 7 (they take no resolution argument), so
    every sensor owns a block of 49 consecutive grid points, and every
    returned value is the arithmetic mean of the 49 kernel values of the
    sensor's block: the prism field (plus the grain field) for
    [magnetic_data], the three column kernels times [CM*T2NT] for
    [sensitivity]. *)
Theorem averaging_resolution_7 (P : nat) x y z model (alpha : Z) (ea : F * F)
    grains (junk : nat → nat → F) :
  alpha_ok alpha → valid_area ea → length x = length y → length x = length z →
  P ≤ length model →
  ∃ xg yg zg B G,
    point2grid x y ea 7 (Some z) = Ok (xg, yg, Some zg) ∧
    length xg = length x * 49 ∧ length yg = length x * 49 ∧
    length zg = length x * 49 ∧
    magnetic_data x y z model alpha (Some ea) grains = Ok B ∧
    sensitivity P x y z model alpha (Some ea) junk = Ok G ∧
    length B = length x ∧ length (rows G) = length x ∧
    ∀ n, n < length x →
      let block_mean_of {Src : Type} (k : F → F → F → Src → F) (src : Src) :=
        np_mean (kernel_values k (take 49 (drop (n * 49) xg))
                   (take 49 (drop (n * 49) yg))
                   (take 49 (drop (n * 49) zg)) src) in
      length (take 49 (drop (n * 49) xg)) = 49 ∧
      B !! n = Some (match grains with
                     | None => block_mean_of (prism_field alpha) model
                     | Some gr => fadd (block_mean_of (prism_field alpha) model)
                                       (block_mean_of (sphere_field alpha) gr)
                     end) ∧
      ∃ row, rows G !! n = Some row ∧
        ∀ i p, i < P → model !! i = Some p →
          row !! (3 * i)
            = Some (fmul (block_mean_of (plane_kernels alpha).1.1 p) (fmul CM T2NT)) ∧
          row !! (3 * i + 1)
            = Some (fmul (block_mean_of (plane_kernels alpha).1.2 p) (fmul CM T2NT)) ∧
          row !! (3 * i + 2)
            = Some (fmul (block_mean_of (plane_kernels alpha).2 p) (fmul CM T2NT)).
Proof.
  intros Ha Hea Hxy Hxz HP.
  assert (valid_eff (Some ea)) as Hev by (by intros ? [= <-]).
  destruct (point2grid_7 ea x y z Hea Hxy Hxz) as (Hg & Lx & Ly & Lz).
  destruct (sensitivity_ok P x y z model alpha (Some ea) junk)
    as (G & HG & Hw & Hfill); try done.
  pose proof (magnetic_data_values x y z model alpha (Some ea) grains
                Ha Hev Hxy Hxz) as HB.
  unfold field_values in *.
  destruct (grid7 ea x y z) as [[xg yg] zg]. cbn [fst snd] in *.
  change (Z.to_nat (7 * 7)) with 49 in *.
  eexists xg, yg, zg, _, _.
  do 4 (split; [done|]). split; [exact HB|]. split; [exact HG|].
  destruct Hw as (_ & Hlen & _).
  split; [|split; [by rw length_fmap|]].
  { destruct grains as [gr|]; [|apply length_block_means].
    unfold array_iadd. rw length_zip_with_l_eq; rw !length_block_means; done. }
  intros n Hn. cbv zeta. split; [|split].
  - rw length_take_le; [|done]. rw length_drop Lx. nia.
  - destruct grains as [gr|].
    + unfold array_iadd. apply lookup_zip_with_Some.
      eexists _, _. split; [done|].
      rw !lookup_block_means; try done. by rw !block_kernel_values.
    + rw lookup_block_means; try done. by rw block_kernel_values.
  - destruct (lookup_lt_is_Some_2 (rows G) n ltac:(lia)) as [row Hrow].
    exists ((λ e, fmul e (fmul CM T2NT)) <$> row).
    split; [by apply matrix_imul_lookup|].
    intros i p Hi Hp. destruct (Hfill n row Hrow i Hi) as (E0 & E1 & E2).
    unfold column in E0, E1, E2. rw Hp in E0 E1 E2.
    rw !list_lookup_fmap E0 E1 E2.
    rw !lookup_block_means; try done. by rw !block_kernel_values.
Qed.

End MagneticData.

(** ** Resolution 1 *)

Section ResolutionOne.
Context {Sc : Scalar} {K : FieldKernel Sc}.




End ResolutionOne.

(** ** Superposition *)

Section Superposition.
Context {Sc : Scalar} {K : FieldKernel Sc}.
Implicit Types (x y z : list F).






End Superposition.

(** ** Validation of the plane index and of the model length *)

Section Validation.
Context {Sc : Scalar} {K : FieldKernel Sc}.
Implicit Types (x y z : list F) (model : list Prism).

Lemma magnetic_data_bad_alpha x y z model (alpha : Z) eff_area grains :
  ¬ alpha_ok alpha →
  magnetic_data x y z model alpha eff_area grains
  = Err (AssertionError "alpha must be equal to 0, 1, 2 or 3").
Proof.
  intros Ha. unfold magnetic_data.
  assert (bool_decide (alpha = 0%Z) || bool_decide (alpha = 1%Z)
          || bool_decide (alpha = 2%Z) || bool_decide (alpha = 3%Z) = false) as ->;
    [|done].
  unfold alpha_ok in Ha.
  rw !orb_false_iff. repeat split; apply bool_decide_eq_false_2; tauto.
Qed.

(** C2 (as the code has it).  [magnetic_data] rejects a plane index outside
    {0,1,2,3} with the assertion error whatever its other arguments.
    [sensitivity], for a plane index in {0,1,2,3}, does not compare the
    model with [P]: a model with fewer than [P] prisms makes it raise
    [IndexError] (no matrix is returned), a model with at least [P] prisms
    is accepted and only its first [P] prisms are used. *)
Theorem plane_and_model_checks (P : nat) x y z model (alpha : Z)
    (eff_area : option (F * F)) (grains : option (list Sphere))
    (junk : nat → nat → F) :
  valid_eff eff_area → length x = length y → length x = length z →
  (¬ alpha_ok alpha →
     ∀ x' y' z' model' eff_area',
       magnetic_data x' y' z' model' alpha eff_area' grains
       = Err (AssertionError "alpha must be equal to 0, 1, 2 or 3")) ∧
  (alpha_ok alpha → length model < P →
     sensitivity P x y z model alpha eff_area junk = Err IndexError) ∧
  (alpha_ok alpha → P ≤ length model →
     ∃ G, sensitivity P x y z model alpha eff_area junk = Ok G ∧
          well_shaped (length x) (3 * P) G ∧
          sensitivity P x y z (take P model) alpha eff_area junk = Ok G).
Proof.
  intros Hea Hxy Hxz. split; [|split].
  - intros Ha x' y' z' model' eff_area'. by apply magnetic_data_bad_alpha.
  - intros Ha Hm. by apply sensitivity_short.
  - intros Ha Hm.
    destruct (sensitivity_entries P x y z model alpha eff_area junk)
      as (G & HG & Hw & _); try done.
    exists G. split; [done|]. split; [done|]. by rw -sensitivity_take.
Qed.

End Validation.

(** ** The sensor planes: [coordplane] *)

Section PlanesRejected.
Context {Sc : Scalar} {K : FieldKernel Sc} {Gr : Gridder Sc}.

(** With a plane index outside {0,1,2,3} [coordplane] appends nothing to
    its result lists and fails when it reads their first element. *)
Lemma coordplane_bad_alpha (h L : F) (Nx Ny : nat) (area : F * F * F * F)
    (alpha : Z) (theta : F) :
  ¬ alpha_ok alpha → coordplane h L Nx Ny area alpha theta = Err IndexError.
Proof.
  intros Ha. destruct (not_alpha_ok alpha Ha) as [H02 H13].
  unfold coordplane.
  change (bool_decide (alpha = 0%Z) || bool_decide (alpha = 2%Z)) with (is02 alpha).
  change (bool_decide (alpha = 1%Z) || bool_decide (alpha = 3%Z)) with (is13 alpha).
  by rw H02 H13.
Qed.


End PlanesRejected.

Section Planes.
Context {Sc : Scalar} {Gr : Gridder Sc}.

(** C6.  For every stand-off [h], side [L], grid shape and angle [theta],
    with [voo = h·1e-6 + 0.5·L], the two varying coordinates [(u, v)] of
    the regular grid and [c = cos θ], [s = sin θ] for [θ] in degrees:
    planes 0 and 2 return [(c·u − s·v, s·u + c·v, z)] with [z] constant at
    [−voo] (plane 0) or [+voo] (plane 2); planes 1 and 3 return
    [(c·u − s·v, y, s·u + c·v)] with [y] constant at [+voo] (plane 1) or
    [−voo] (plane 3). *)
Theorem coordplane_planes (h L : F) (Nx Ny : nat) (area : F * F * F * F)
    (alpha : Z) (theta : F) :
  alpha_ok alpha →
  let voo := fadd (fmul h micro) (fmul half L) in
  let pts := regular_xy area (Nx, Ny) in
  let u := pts.*1 in
  let v := pts.*2 in
  let c := fcos (deg2rad theta) in
  let s := fsin (deg2rad theta) in
  let rot1 := zip_with (λ a b, fsub (fmul c a) (fmul s b)) u v in
  let rot2 := zip_with (λ a b, fadd (fmul s a) (fmul c b)) u v in
  let held := if bool_decide (alpha = 1%Z) || bool_decide (alpha = 2%Z)
              then voo else fopp voo in
  coordplane h L Nx Ny area alpha theta
  = Ok (if bool_decide (alpha = 0%Z) || bool_decide (alpha = 2%Z)
        then (rot1, rot2, replicate (length pts) held)
        else (rot1, replicate (length pts) held, rot2)).
Proof. by intros [-> | [-> | [-> | ->]]]. Qed.

End Planes.

(** ** The claims on concrete inputs

    The scalars are the rationals [QcScalar] with the toy kernels
    [QcKernel]; the sensor of the spec's scenario sits at (0, 0, 1) with an
    effective area of 10 by 10 micrometers. *)

Definition q0 : Qc := 0%Qc.
Definition q1 : Qc := 1%Qc.
Definition q5 : Qc := Qc_of_Z 5.
Definition q10 : Qc := Qc_of_Z 10.
Definition mag_x : Qvec := (q1, q0, q0).
Definition mag_y : Qvec := (q0, q1, q0).
Definition mag_z : Qvec := (q0, q0, q1).
Definition no_junk : nat → nat → Qc := λ _ _, q0.

Lemma valid_area_10 : valid_area (Sc := QcScalar) (q10, q10).
Proof. split; reflexivity. Qed.

Lemma valid_eff_None {Sc : Scalar} : valid_eff (Sc := Sc) None.
Proof. intros ea H. discriminate H. Qed.

Lemma valid_eff_10 : valid_eff (Sc := QcScalar) (Some (q10, q10)).
Proof. intros ea H. injection H as <-. exact valid_area_10. Qed.


(** C3 at the spec's scenario: one sensor at (0, 0, 1), area (10, 10),
    [ns = 3]. *)
Lemma point2grid_grid_scenario :
  ∃ xg yg zg,
    point2grid (Sc := QcScalar) [q0] [q0] (q10, q10) 3 (Some [q1]) = Ok (xg, yg, zg) ∧
    length xg = 9 ∧
    np_mean (Sc := QcScalar) (take 9 (drop 0 xg)) = q0 ∧
    np_mean (Sc := QcScalar) (take 9 (drop 0 yg)) = q0.
Proof.
  destruct (point2grid_grid (Sc := QcScalar) [q0] [q0] (Some [q1]) q10 q10 3)
    as (xg & yg & zg & Hg & Lx & Ly & Hoff & Hz & Hnone & _ & Hmean).
  - exact valid_area_10.
  - split; [reflexivity|]. intros zs H. injection H as <-. reflexivity.
  - lia.
  - reflexivity.
  - exists xg, yg, zg. split; [exact Hg|]. split; [exact Lx|].
    exact (Hmean QcExact 0 q0 q0 eq_refl eq_refl).
Defined.

(** C5 at the spec's scenario: the effective area (0, 5). *)
Lemma point2grid_rejects_zero_area :
  point2grid (Sc := QcScalar) [q0] [q0] (q0, q5) 0 None
  = Err (AssertionError "effective area must be positive").
Proof.
  refine (proj1 (proj2 (point2grid_rejects (Sc := QcScalar) (K := QcKernel)
                          [q0] [q0] (q0, q5) 3 None _) _) [q0] [q0] 0%Z None).
  - left. left. reflexivity.
  - left. reflexivity.
Defined.

(** C10 with [ns = -3] and one sensor. *)
Lemma point2grid_negative_ns_scenario :
  point2grid (Sc := QcScalar) [q0] [q0] (q10, q10) (-3) None = Err ValueError.
Proof.
  refine (proj2 (proj2 (proj2 (point2grid_negative_ns (Sc := QcScalar)
                                 [q0] [q0] None (q10, q10) (-3) _ _ _ _ _)))).
  - exact valid_area_10.
  - split; [reflexivity|]. intros zs H. discriminate H.
  - discriminate.
  - lia.
  - reflexivity.
Defined.

(** C10 as stated fails without a sensor: the arguments are valid, [ns = -3]
    is negative and odd, and the call returns the (empty) grid. *)
Lemma point2grid_negative_ns_empty :
  valid_area (Sc := QcScalar) (q10, q10) ∧
  same_size (Sc := QcScalar) [] [] None ∧
  (-3 < 0)%Z ∧ Z.odd (-3) = true ∧
  point2grid (Sc := QcScalar) [] [] (q10, q10) (-3) None = Ok ([], [], None).
Proof.
  split; [exact valid_area_10|].
  split; [split; [reflexivity|]; intros zs H; discriminate H|].
  split; [lia|]. split; reflexivity.
Qed.

(** C1 on one prism and one sensor. *)
Lemma sensitivity_blocks_scenario :
  ∃ G, sensitivity (K := QcKernel) 1 [q0] [q0] [q1] [mag_x] 0 None no_junk = Ok G ∧
       shape G = (1, 3).
Proof.
  destruct (sensitivity_blocks (K := QcKernel) 1 [q0] [q0] [q1] [mag_x] 0 None no_junk)
    as (G & HG & Hs & _).
  - left. reflexivity.
  - lia.
  - reflexivity.
  - reflexivity.
  - reflexivity.
  - exact valid_eff_None.
  - exists G. split; [exact HG|exact Hs].
Defined.

(** C9 on two models that share their first prism. *)
Lemma sensitivity_block_independent_scenario :
  ∃ G1 G2,
    sensitivity (K := QcKernel) 2 [q0] [q0] [q1] [mag_x; mag_y] 1 None no_junk = Ok G1 ∧
    sensitivity (K := QcKernel) 2 [q0] [q0] [q1] [mag_x; mag_z] 1 None no_junk = Ok G2 ∧
    ∃ row1 row2, rows G1 !! 0 = Some row1 ∧ rows G2 !! 0 = Some row2 ∧
      row1 !! 0 = row2 !! 0 ∧ row1 !! 1 = row2 !! 1 ∧ row1 !! 2 = row2 !! 2.
Proof.
  destruct (sensitivity_block_independent (K := QcKernel) 2 [q0] [q0] [q1]
              [mag_x; mag_y] [mag_x; mag_z] 1 None no_junk no_junk 0 mag_x)
    as (G1 & G2 & H1 & H2 & _ & _ & Hrows).
  - right. left. reflexivity.
  - exact valid_eff_None.
  - reflexivity.
  - reflexivity.
  - reflexivity.
  - reflexivity.
  - reflexivity.
  - reflexivity.
  - exists G1, G2. split; [exact H1|]. split; [exact H2|].
    destruct (Hrows 0 (Nat.lt_0_succ 0))
      as (row1 & row2 & e0 & e1 & e2 & R1 & R2 & A0 & B0 & A1 & B1 & A2 & B2).
    exists row1, row2. split; [exact R1|]. split; [exact R2|].
    split; [exact (eq_trans A0 (eq_sym B0))|].
    split; [exact (eq_trans A1 (eq_sym B1))|exact (eq_trans A2 (eq_sym B2))].
Defined.

(** C4 on one prism and one sensor with the area (10, 10). *)
Lemma averaging_resolution_7_scenario :
  ∃ (xg : list Qc) B G,
    length xg = 49 ∧
    magnetic_data (K := QcKernel) [q0] [q0] [q1] [mag_z] 0 (Some (q10, q10)) None = Ok B ∧
    sensitivity (K := QcKernel) 1 [q0] [q0] [q1] [mag_z] 0 (Some (q10, q10)) no_junk = Ok G ∧
    length B = 1.
Proof.
  destruct (averaging_resolution_7 (K := QcKernel) 1 [q0] [q0] [q1] [mag_z] 0
              (q10, q10) None no_junk)
    as (xg & yg & zg & B & G & _ & Lx & _ & _ & HB & HG & LB & _).
  - left. reflexivity.
  - exact valid_area_10.
  - reflexivity.
  - reflexivity.
  - reflexivity.
  - exists xg, B, G. split; [exact Lx|]. split; [exact HB|]. split; [exact HG|exact LB].
Defined.


(** C2 for a model that is too short. *)
Lemma plane_and_model_checks_scenario :
  sensitivity (K := QcKernel) 2 [q0] [q0] [q1] [mag_x] 0 None no_junk = Err IndexError.
Proof.
  refine (proj1 (proj2 (plane_and_model_checks (K := QcKernel) 2 [q0] [q0] [q1]
                          [mag_x] 0 None None no_junk _ _ _)) _ _).
  - exact valid_eff_None.
  - reflexivity.
  - reflexivity.
  - left. reflexivity.
  - simpl. lia.
Defined.

(** C2 as stated fails: a model of two prisms is not rejected when one
    column block ([P = 1]) is requested; the call returns a matrix. *)
Lemma sensitivity_accepts_longer_model :
  length [mag_x; mag_y] ≠ 1 ∧
  ∃ G, sensitivity (K := QcKernel) 1 [q0] [q0] [q1] [mag_x; mag_y] 0 None no_junk = Ok G ∧
       shape G = (1, 3).
Proof.
  split; [discriminate|].
  destruct (sensitivity_entries (K := QcKernel) 1 [q0] [q0] [q1] [mag_x; mag_y] 0
              None no_junk) as (G & HG & (Hs & _) & _).
  - left. reflexivity.
  - exact valid_eff_None.
  - reflexivity.
  - reflexivity.
  - simpl. lia.
  - exists G. split; [exact HG|exact Hs].
Qed.

(** C6 for plane 0. *)
Lemma coordplane_planes_scenario :
  ∃ r, coordplane (Gr := QcGridder) q5 q10 2 2 (q0, q1, q0, q1) 0 q0 = Ok r.
Proof.
  pose proof (coordplane_planes (Gr := QcGridder) q5 q10 2 2 (q0, q1, q0, q1) 0 q0
                (or_introl eq_refl)) as H.
  cbv zeta in H. eexists. exact H.
Defined.

(** ** The claims on binary64 *)

(** The toy field of two sources is the sum of their fields, bit for bit. *)
Lemma float_field_pair (w : float → float → float → Fvec → float) (x y z : float)
    (p q : Fvec) :
  float_field w x y z [p; q]
  = PrimFloat.add (float_field w x y z [p]) (float_field w x y z [q]).
Proof. reflexivity. Qed.

(** C3 as stated fails on binary64: at the spec's scenario (one sensor at
    (0, 0, 1), area (10, 10), [ns = 3]) the nine y values of the block do
    not average to the center 0; the rounding errors of the offsets do
    not cancel. *)
Lemma point2grid_mean_not_centre :
  ∃ xg yg zg,
    point2grid (Sc := FloatScalar) [0%float] [0%float] (10%float, 10%float) 3
      (Some [1%float]) = Ok (xg, yg, zg) ∧
    length yg = 9 ∧
    np_mean (Sc := FloatScalar) (take 9 (drop 0 yg)) ≠ 0%float.
Proof.
  eexists _, _, _. split; [vm_compute; reflexivity|]. split; [reflexivity|].
  intros H. apply (f_equal (λ v, PrimFloat.ltb v 0%float)) in H.
  vm_compute in H. discriminate H.
Qed.




(** * Further properties of the modelled code *)

(** ** [sensitivity]: every entry is assigned, or none is *)

Section MoreSensitivity.
Context {Sc : Scalar} {K : FieldKernel Sc}.
Implicit Types (x y z : list F) (model : list Prism).

Lemma three_cols (c P : nat) :
  c < 3 * P →
  ∃ i k, i < P ∧ k < 3 ∧ c = 3 * i + k.
Proof.
  intros Hc. exists (c `div` 3)%nat, (c `mod` 3)%nat.
  pose proof (Nat.div_mod_eq c 3). pose proof (Nat.mod_upper_bound c 3).
  split; [|split]; lia.
Qed.

(** A matrix whose column blocks are all filled is determined by the
    column values. *)
Lemma filled_unique (N P : nat) (V0 V1 V2 : nat → list F) (G1 G2 : matrix) :
  filled N P V0 V1 V2 P G1 → filled N P V0 V1 V2 P G2 → G1 = G2.
Proof.
  intros [(Hs1 & Hl1 & Hr1) H1] [(Hs2 & Hl2 & Hr2) H2].
  destruct G1 as [s1 r1], G2 as [s2 r2]. simpl in *. subst s1 s2. f_equal.
  apply list_eq. intros n.
  destruct (r1 !! n) as [row1|] eqn:E1; destruct (r2 !! n) as [row2|] eqn:E2.
  - f_equal. apply list_eq. intros c.
    destruct (decide (c < 3 * P)) as [Hc | Hc].
    + destruct (three_cols c P Hc) as (i & k & Hi & Hk & ->).
      destruct (H1 n row1 E1 i Hi) as (A0 & A1 & A2).
      destruct (H2 n row2 E2 i Hi) as (B0 & B1 & B2).
      destruct k as [|[|[|k]]]; try lia.
      * rw Nat.add_0_r. by rw A0 B0.
      * by rw A1 B1.
      * by rw A2 B2.
    + pose proof (Hr1 n row1 E1). pose proof (Hr2 n row2 E2).
      rw !lookup_ge_None_2; try done; lia.
  - apply lookup_lt_Some in E1. apply lookup_ge_None in E2. lia.
  - apply lookup_ge_None in E1. apply lookup_lt_Some in E2. lia.
  - done.
Qed.

(** X1.  For a plane index in {0,1,2,3} and a model of at least [P]
    prisms, every entry of the matrix allocated by [np.empty] is
    overwritten: the result of [sensitivity] does not depend on what the
    memory held. *)
Theorem sensitivity_overwrites_empty (P : nat) x y z model (alpha : Z)
    (eff_area : option (F * F)) (junk1 junk2 : nat → nat → F) :
  alpha_ok alpha → valid_eff eff_area → length x = length y → length x = length z →
  P ≤ length model →
  ∃ G, sensitivity P x y z model alpha eff_area junk1 = Ok G ∧
       sensitivity P x y z model alpha eff_area junk2 = Ok G.
Proof.
  intros Ha Hea Hxy Hxz HP.
  destruct (sensitivity_ok P x y z model alpha eff_area junk1)
    as (G1 & -> & HG1); try done.
  destruct (sensitivity_ok P x y z model alpha eff_area junk2)
    as (G2 & -> & HG2); try done.
  rw (filled_unique _ _ _ _ _ G1 G2 HG1 HG2). by eexists.
Qed.

(** X2.  [sensitivity] does not check the plane index: for a plane index
    outside {0,1,2,3} no column is assigned and no error is raised; the
    call returns the contents of [np.empty], each multiplied by
    [CM*T2NT], whatever the model. *)
Theorem sensitivity_unchecked_alpha (P : nat) x y z model (alpha : Z)
    (eff_area : option (F * F)) (junk : nat → nat → F) :
  ¬ alpha_ok alpha → valid_eff eff_area →
  (is_Some eff_area → length x = length y ∧ length x = length z) →
  ∃ G, sensitivity P x y z model alpha eff_area junk = Ok G ∧
       shape G = (length x, 3 * P) ∧
       ∀ n c, n < length x → c < 3 * P →
         ∃ row, rows G !! n = Some row ∧
                row !! c = Some (fmul (junk n c) (fmul CM T2NT)).
Proof.
  intros Ha Hea Hlen.
  exists (matrix_imul (np_empty junk (length x) (3 * P)) (fmul CM T2NT)).
  split.
  - destruct eff_area as [ea|]; [|by apply sensitivity_bad_alpha].
    destruct (Hlen (mk_is_Some _ _ eq_refl)) as [Hxy Hxz].
    destruct (not_alpha_ok alpha Ha) as [H02 H13].
    unfold sensitivity. rw reshape_seq_cols. cbn [rbind]. cbv zeta.
    destruct (point2grid_7 ea x y z (Hea ea eq_refl) Hxy Hxz) as (-> & _).
    cbn [rbind unpack3].
    change (bool_decide (alpha = 0%Z) || bool_decide (alpha = 2%Z)) with (is02 alpha).
    change (bool_decide (alpha = 1%Z) || bool_decide (alpha = 3%Z)) with (is13 alpha).
    rw H02 H13.
    rw (foldM_ext _ (λ G _, Ok G)); [by intros G [i col] _|].
    by rw foldM_skip.
  - split; [done|]. intros n c Hn Hc.
    exists ((λ e, fmul e (fmul CM T2NT)) <$> (junk n <$> seq 0 (3 * P))).
    split.
    + apply matrix_imul_lookup. unfold np_empty. cbn [rows].
      rw list_lookup_fmap lookup_seq_lt; done.
    + rw !list_lookup_fmap lookup_seq_lt; done.
Qed.

End MoreSensitivity.

(** ** [magnetic_data]: one value per sensor *)

Section MoreField.
Context {Sc : Scalar} {K : FieldKernel Sc}.
Implicit Types (x y z : list F) (model : list Prism).

(** X3.  For a plane index in {0,1,2,3}, coordinate arrays of one length
    and a positive effective area when one is given, [magnetic_data]
    returns exactly one value per sensor, with or without grains and
    whatever the number of prisms. *)
Theorem magnetic_data_length x y z model (alpha : Z) (eff_area : option (F * F))
    (grains : option (list Sphere)) :
  alpha_ok alpha → valid_eff eff_area → length x = length y → length x = length z →
  ∃ B, magnetic_data x y z model alpha eff_area grains = Ok B ∧ length B = length x.
Proof.
  intros Ha Hea Hxy Hxz. rw magnetic_data_values; try done.
  eexists. split; [done|]. destruct grains as [gr|].
  - unfold array_iadd. rw length_zip_with_l_eq; rw !length_field_values; done.
  - by apply length_field_values.
Qed.

End MoreField.

(** ** [coordplane]: shapes, faces, the plane index *)

Section MorePlanes.
Context {Sc : Scalar} {Gr : Gridder Sc}.

(** X4.  [coordplane] does not check the plane index either: outside
    {0,1,2,3} nothing is appended to the result lists and reading their
    first element raises [IndexError]; no coordinates are returned. *)
Theorem coordplane_unchecked_alpha (h L : F) (Nx Ny : nat) (area : F * F * F * F)
    (alpha : Z) (theta : F) :
  ¬ alpha_ok alpha → coordplane h L Nx Ny area alpha theta = Err IndexError.
Proof.
  intros Ha. destruct (not_alpha_ok alpha Ha) as [H02 H13].
  unfold coordplane.
  change (bool_decide (alpha = 0%Z) || bool_decide (alpha = 2%Z)) with (is02 alpha).
  change (bool_decide (alpha = 1%Z) || bool_decide (alpha = 3%Z)) with (is13 alpha).
  by rw H02 H13.
Qed.

Lemma length_zip_with_same {A B C} (f : A → B → C) (l : list (A * B)) :
  length (zip_with f l.*1 l.*2) = length l.
Proof. rw length_zip_with_l_eq; rw !length_fmap; done. Qed.

(** X5.  For a plane index in {0,1,2,3} the three returned arrays have
    one length: the number of points of the regular grid. *)
Theorem coordplane_lengths (h L : F) (Nx Ny : nat) (area : F * F * F * F)
    (alpha : Z) (theta : F) :
  alpha_ok alpha →
  ∃ xr yr zr, coordplane h L Nx Ny area alpha theta = Ok (xr, yr, zr) ∧
    length xr = length (regular_xy area (Nx, Ny)) ∧
    length yr = length (regular_xy area (Nx, Ny)) ∧
    length zr = length (regular_xy area (Nx, Ny)).
Proof.
  intros [-> | [-> | [-> | ->]]]; eexists _, _, _; (split; [reflexivity|]);
    rw !length_zip_with_same length_replicate; done.
Qed.

(** X6.  The four planes share their in-plane coordinates: plane 0 is
    plane 2 with the sign of [z] changed, plane 3 is plane 1 with the sign
    of [y] changed, and plane 1 is plane 2 with [y] and [z] exchanged. *)
Theorem coordplane_faces (h L : F) (Nx Ny : nat) (area : F * F * F * F) (theta : F) :
  ∃ u v w : list F,
    coordplane h L Nx Ny area 2 theta = Ok (u, v, w) ∧
    coordplane h L Nx Ny area 0 theta = Ok (u, v, fopp <$> w) ∧
    coordplane h L Nx Ny area 1 theta = Ok (u, w, v) ∧
    coordplane h L Nx Ny area 3 theta = Ok (u, fopp <$> w, v).
Proof.
  eexists _, _, _. split; [reflexivity|].
  unfold coordplane, regular. simpl. by rw fmap_replicate.
Qed.

End MorePlanes.

Section PlaneRotation.
Context {Sc : Scalar} {Gr : Gridder Sc} {EA : ExactArith Sc}.

Add Field F_field_rot : F_field.

Lemma unit_rotation (pts : list (F * F)) :
  zip_with (λ a b, fsub (fmul fone a) (fmul fzero b)) pts.*1 pts.*2 = pts.*1
  ∧ zip_with (λ a b, fadd (fmul fzero a) (fmul fone b)) pts.*1 pts.*2 = pts.*2.
Proof.
  induction pts as [|[a b] pts [IH1 IH2]]; [done|]. simpl.
  rw IH1 IH2. split; f_equal; ring.
Qed.

(** X7.  When the cosine of the angle is one and its sine zero (a
    rotation by 0°), in exact arithmetic, the returned in-plane
    coordinates are those of the regular grid, unrotated. *)
Theorem coordplane_no_rotation (h L : F) (Nx Ny : nat)
    (area : F * F * F * F) (alpha : Z) (theta : F) :
  alpha_ok alpha →
  fcos (deg2rad theta) = fone → fsin (deg2rad theta) = fzero →
  ∃ w, coordplane h L Nx Ny area alpha theta
       = Ok (if bool_decide (alpha = 0%Z) || bool_decide (alpha = 2%Z)
             then ((regular_xy area (Nx, Ny)).*1, (regular_xy area (Nx, Ny)).*2, w)
             else ((regular_xy area (Nx, Ny)).*1, w, (regular_xy area (Nx, Ny)).*2)).
Proof.
  intros Ha Hc Hs.
  destruct (unit_rotation (regular_xy area (Nx, Ny))) as [R1 R2].
  destruct Ha as [-> | [-> | [-> | ->]]]; eexists;
    unfold coordplane, regular; simpl; rw Hc Hs R1 R2; reflexivity.
Qed.

End PlaneRotation.

(** ** [point2grid]: every outcome *)

Section MoreGrid.
Context {Sc : Scalar}.
Implicit Types (x y : list F).

(** the three conditions the assertions of [point2grid] test *)
Definition grid_checks x y (ea : F * F) (ns : Z) (z : option (list F)) : Prop :=
  valid_area ea ∧ same_size x y z ∧ (ns `mod` 2)%Z ≠ 0%Z.

Lemma point2grid_assertion x y (ea : F * F) (ns : Z) (z : option (list F)) :
  ¬ grid_checks x y ea ns z →
  ∃ msg, point2grid x y ea ns z = Err (AssertionError msg).
Proof.
  intros Hbad. unfold point2grid.
  destruct (fltb (of_Z 0) ea.1 && fltb (of_Z 0) ea.2) eqn:Hea; [|by eexists].
  simpl. case_bool_decide as Hxy; [|by eexists]. simpl.
  apply andb_true_iff in Hea as [H1 H2].
  destruct z as [zs|].
  - case_bool_decide as Hxz; [|by eexists]. simpl.
    case_bool_decide as Hns; [by eexists|].
    exfalso. apply Hbad. split; [done|]. split; [|done].
    split; [done|]. by intros zs' [= <-].
  - simpl. case_bool_decide as Hns; [by eexists|].
    exfalso. apply Hbad. split; [done|]. split; [|done].
    split; [done|]. by intros zs' [=].
Qed.

Lemma grid_checks_dec x y (ea : F * F) (ns : Z) (z : option (list F)) :
  grid_checks x y ea ns z ∨ ¬ grid_checks x y ea ns z.
Proof.
  unfold grid_checks, valid_area, same_size.
  destruct (fltb (of_Z 0) ea.1); [|right; intros [[? _] _]; done].
  destruct (fltb (of_Z 0) ea.2); [|right; intros [[_ ?] _]; done].
  destruct (decide (length x = length y)) as [Hxy|Hxy]; [|right; tauto].
  destruct (decide ((ns `mod` 2)%Z = 0%Z)) as [Hns|Hns]; [right; tauto|].
  destruct z as [zs|].
  - destruct (decide (length x = length zs)) as [Hxz|Hxz].
    + left. repeat split; try done. by intros zs' [= <-].
    + right. intros (_ & [_ Hz] & _). by apply Hxz, Hz.
  - left. repeat split; try done.
Qed.

(** X8.  The outcomes of [point2grid].  It returns a grid exactly when the
    three assertions hold and [ns] is positive or there is no sensor; it
    raises the assertion error exactly when an assertion fails; it raises
    [ValueError] exactly when the assertions hold, [ns] is negative and
    there is a sensor; it raises nothing else: the division by [ns] is
    never a division by zero. *)
Theorem point2grid_outcomes x y (ea : F * F) (ns : Z) (z : option (list F)) :
  match point2grid x y ea ns z with
  | Ok _ => grid_checks x y ea ns z ∧ ((0 < ns)%Z ∨ x = [])
  | Err (AssertionError _) => ¬ grid_checks x y ea ns z
  | Err ValueError => grid_checks x y ea ns z ∧ (ns < 0)%Z ∧ x ≠ []
  | Err _ => False
  end.
Proof.
  destruct (grid_checks_dec x y ea ns z) as [Hok | Hbad].
  - pose proof Hok as (Hea & Hsz & Hodd).
    destruct (decide (0 < ns)%Z) as [Hpos | Hneg].
    + rw point2grid_positive; try done. split; [done|by left].
    + assert (ns < 0)%Z as Hlt.
      { destruct (decide (ns = 0%Z)) as [-> | ?]; [done|lia]. }
      rw point2grid_checked; try done. cbv zeta.
      destruct x as [|e x].
      * destruct y as [|e' y]; [|by destruct Hsz]. simpl. split; [done|by right].
      * rw offset_loop_mismatch.
        -- unfold offsets_x. rw length_meshgrid_1 !length_axis_offsets; try done. nia.
        -- unfold offsets_x. rw length_meshgrid_1 !length_axis_offsets; try done. nia.
        -- simpl. done.
  - destruct (point2grid_assertion x y ea ns z Hbad) as [msg ->]. done.
Qed.

(** X9.  The [z] array takes no part in the supersampling: with a [z] of
    the length of [x], [point2grid] returns the [x] and [y] grids (or the
    error) of the call without [z], and a [z] grid that repeats each [z]
    value ns² times. *)
Theorem point2grid_z_repeated x y (ea : F * F) (ns : Z) (zs : list F) :
  length x = length zs →
  point2grid x y ea ns (Some zs)
  = (let! '(xg, yg, _) := point2grid x y ea ns None in
     Ok (xg, yg, Some (tile (Z.to_nat (ns * ns)) zs))).
Proof.
  intros Hxz.
  destruct (grid_checks_dec x y ea ns None) as [(Hea & Hsz & Hodd) | Hbad].
  - assert (same_size x y (Some zs)) as Hsz'.
    { split; [exact (proj1 Hsz)|]. by intros zs' [= <-]. }
    rw (point2grid_checked x y ea ns (Some zs) Hea Hsz' Hodd).
    rw (point2grid_checked x y ea ns None Hea Hsz Hodd).
    cbv zeta. destruct (foldM _ _ (enumerate x)) as [xg|]; [|done]. simpl.
    by destruct (foldM _ _ (enumerate y)) as [yg|].
  - unfold point2grid in *.
    destruct (fltb (of_Z 0) ea.1 && fltb (of_Z 0) ea.2) eqn:Hea; [|done].
    simpl. case_bool_decide as Hxy; [|done]. simpl.
    rw bool_decide_eq_true_2; [done|]. simpl.
    case_bool_decide as Hns; [done|]. exfalso. apply Hbad.
    apply andb_true_iff in Hea as [H1 H2].
    split; [done|]. split; [|done]. split; [done|]. by intros zs' [=].
Qed.

End MoreGrid.

(** ** Loops that collect one value per index *)

Section Collect.
Context {B : Type}.

Lemma foldM_collect (f : nat → result B) (g : nat → option B) (n : nat) :
  (∀ i, i < n → ∃ b, f i = Ok b ∧ g i = Some b) →
  ∃ l, foldM (λ acc i, let! b := f i in Ok (acc ++ [b])) [] (seq 0 n) = Ok l ∧
       length l = n ∧ ∀ i, i < n → l !! i = g i.
Proof.
  induction n as [|n IH]; intros Hf.
  - exists []. split; [done|]. split; [done|]. intros; lia.
  - destruct IH as (l & Hl & Hlen & Hlook); [intros i Hi; apply Hf; lia|].
    destruct (Hf n ltac:(lia)) as (b & Hb & Hg).
    exists (l ++ [b]). rw seq_S foldM_app Hl. simpl. rw Hb. simpl.
    split; [done|]. split; [rw length_app; simpl; lia|].
    intros i Hi. destruct (decide (i = n)) as [-> | Hne].
    + rw lookup_app_r; [lia|]. by rw Hlen Nat.sub_diag Hg.
    + rw lookup_app_l; [lia|]. apply Hlook. lia.
Qed.

Lemma foldM_collect_err (f : nat → result B) (e : pyerr) (n k : nat) :
  k < n → f k = Err e → (∀ i, i < k → ∃ b, f i = Ok b) →
  foldM (λ acc i, let! b := f i in Ok (acc ++ [b])) [] (seq 0 n) = Err e.
Proof.
  intros Hk Hfk Hok.
  replace n with (k + S (n - k - 1)) by lia.
  rw seq_app foldM_app.
  destruct (foldM_collect f (λ i, match f i with Ok b => Some b | Err _ => None end) k)
    as (l & -> & _).
  { intros i Hi. destruct (Hok i Hi) as [b Hb]. exists b. by rw Hb. }
  simpl. by rw Hfk.
Qed.

End Collect.

(** ** [sample]: the prisms it builds *)

Section SampleFacts.
Context {Sc : Scalar} {K : FieldKernel Sc} {M : Mesher Sc K}.

(** the magnetization attached to prism [i] *)
Definition sample_props (m inc dec : option (list F)) (i : nat) : option (F * F * F) :=
  match m, inc, dec with
  | Some m, Some inc, Some dec =>
      match m !! i, inc !! i, dec !! i with
      | Some mi, Some ii, Some di => Some (ang2vec mi ii di)
      | _, _, _ => None
      end
  | _, _, _ => None
  end.

(** the face of the prism array at position [i] along x *)
Definition sample_face (Lx : F) (P : Z) (i : nat) : F :=
  fadd (fmul (fopp half) (fmul (of_Z P) Lx)) (fmul (of_Z (Z.of_nat i)) Lx).

(** the lists [m], [inc], [dec], when all three are given, have an entry
    for each of the [P] prisms *)
Definition enough_angles (P : Z) (m inc dec : option (list F)) : Prop :=
  match m, inc, dec with
  | Some m, Some inc, Some dec =>
      Z.to_nat P ≤ length m ∧ Z.to_nat P ≤ length inc ∧ Z.to_nat P ≤ length dec
  | _, _, _ => True
  end.

Lemma sample_prisms (Lx Ly Lz : F) (P : Z) (m inc dec : option (list F)) :
  enough_angles P m inc dec →
  ∃ model, sample Lx Ly Lz P m inc dec = Ok model ∧
    length model = Z.to_nat P ∧
    ∀ i, i < Z.to_nat P →
      model !! i
      = Some (mesher_Prism (sample_face Lx P i) (sample_face Lx P (S i))
                (fmul (fopp half) Ly) (fmul half Ly)
                (fmul (fopp half) Lz) (fmul half Lz)
                (sample_props m inc dec i)).
Proof.
  intros Hen. unfold sample. cbv zeta.
  set (prism := λ (props : nat → option (F * F * F)) (i : nat),
         mesher_Prism (sample_face Lx P i) (sample_face Lx P (S i))
           (fmul (fopp half) Ly) (fmul half Ly)
           (fmul (fopp half) Lz) (fmul half Lz) (props i)).
  assert (∀ i, of_Z (Z.of_nat i + 1) = of_Z (Z.of_nat (S i))) as HS.
  { intros i. f_equal. lia. }
  destruct m as [m|], inc as [inc|], dec as [dec|]; unfold py_range;
    try (destruct (foldM_collect (λ i, Ok (prism (λ _, None) i))
                     (λ i, Some (prism (λ _, None) i)) (Z.to_nat P))
           as (model & Hm & Hlen & Hlook); [by eexists|];
         exists model; split; [|done];
         rw -Hm; apply foldM_ext; intros acc i _; cbn [rbind];
         unfold prism, sample_face; by rw HS).
  destruct Hen as (Hm & Hi & Hd).
  destruct (foldM_collect
              (λ i, let! mi := py_index m i in
                    let! ii := py_index inc i in
                    let! di := py_index dec i in
                    Ok (ang2vec mi ii di))
              (sample_props (Some m) (Some inc) (Some dec)) (Z.to_nat P))
    as (mag & Hmag & Hmlen & Hmlook).
  { intros i Hlt. unfold sample_props, py_index.
    destruct (lookup_lt_is_Some_2 m i ltac:(lia)) as [mi ->].
    destruct (lookup_lt_is_Some_2 inc i ltac:(lia)) as [ii ->].
    destruct (lookup_lt_is_Some_2 dec i ltac:(lia)) as [di ->].
    by eexists. }
  rw (foldM_ext _ (λ acc i, let! b := (let! mi := py_index m i in
                                       let! ii := py_index inc i in
                                       let! di := py_index dec i in
                                       Ok (ang2vec mi ii di)) in
                            Ok (acc ++ [b]))).
  { intros acc i _. destruct (py_index m i); [|done]. simpl.
    destruct (py_index inc i); [|done]. simpl. by destruct (py_index dec i). }
  rw Hmag. cbn [rbind].
  destruct (foldM_collect
              (λ i, let! mg := py_index mag i in Ok (prism (λ _, Some mg) i))
              (λ i, Some (prism (sample_props (Some m) (Some inc) (Some dec)) i))
              (Z.to_nat P))
    as (model & Hmodel & Hlen & Hlook).
  { intros i Hlt. unfold py_index. rw (Hmlook i Hlt).
    destruct (sample_props (Some m) (Some inc) (Some dec) i) as [v|] eqn:Hv.
    - eexists. split; [done|]. unfold prism. by rw Hv.
    - exfalso. unfold sample_props in Hv.
      destruct (lookup_lt_is_Some_2 m i ltac:(lia)) as [mi Hmi].
      destruct (lookup_lt_is_Some_2 inc i ltac:(lia)) as [ii Hii].
      destruct (lookup_lt_is_Some_2 dec i ltac:(lia)) as [di Hdi].
      by rw Hmi Hii Hdi in Hv. }
  exists model. split; [|done].
  rw -Hmodel. apply foldM_ext. intros acc i _.
  destruct (py_index mag i); [|done]. cbn [rbind].
  unfold prism, sample_face. by rw HS.
Qed.

End SampleFacts.

Section SampleResults.
Context {Sc : Scalar} {K : FieldKernel Sc} {M : Mesher Sc K}.

(** X10.  When [m], [inc] and [dec] are all given with at least [P]
    entries each, or one of them is missing, [sample] returns exactly [P]
    prisms (none for [P <= 0]).  Prism [i] carries the magnetization
    [ang2vec(m[i], inc[i], dec[i])] when all three lists are given; when
    one is missing no prism carries a magnetization and the lists that
    were given are not read. *)
Theorem sample_model (Lx Ly Lz : F) (P : Z) (m inc dec : option (list F)) :
  enough_angles P m inc dec →
  ∃ model, sample Lx Ly Lz P m inc dec = Ok model ∧
    length model = Z.to_nat P ∧
    ∀ i, i < Z.to_nat P →
      ∃ x1 x2 y1 y2 z1 z2 props,
        model !! i = Some (mesher_Prism x1 x2 y1 y2 z1 z2 props) ∧
        (∀ ml il dl, m = Some ml → inc = Some il → dec = Some dl →
           ∃ mi ii di, ml !! i = Some mi ∧ il !! i = Some ii ∧ dl !! i = Some di ∧
                       props = Some (ang2vec mi ii di)) ∧
        (m = None ∨ inc = None ∨ dec = None → props = None).
Proof.
  intros Hen. destruct (sample_prisms Lx Ly Lz P m inc dec Hen)
    as (model & Hs & Hlen & Hlook).
  exists model. split; [done|]. split; [done|]. intros i Hi.
  eexists _, _, _, _, _, _, _. split; [by apply Hlook|]. split.
  - intros ml il dl -> -> ->. destruct Hen as (Hm & Hinc & Hd).
    destruct (lookup_lt_is_Some_2 ml i ltac:(lia)) as [mi Hmi].
    destruct (lookup_lt_is_Some_2 il i ltac:(lia)) as [ii Hii].
    destruct (lookup_lt_is_Some_2 dl i ltac:(lia)) as [di Hdi].
    exists mi, ii, di. unfold sample_props. by rw Hmi Hii Hdi.
  - unfold sample_props. intros [-> | [-> | ->]]; [done| |].
    + by destruct m.
    + by destruct m, inc.
Qed.

(** X11.  The prisms of [sample] tile the x axis without gap or overlap:
    the upper x bound passed for prism [i] is the very value passed as
    lower x bound for prism [i+1], and all prisms get the same y and z
    bounds.  This holds in any arithmetic. *)
Theorem sample_contiguous (Lx Ly Lz : F) (P : Z) (m inc dec : option (list F)) :
  enough_angles P m inc dec →
  ∃ model (face : nat → F) (y1 y2 z1 z2 : F),
    sample Lx Ly Lz P m inc dec = Ok model ∧
    ∀ i, i < Z.to_nat P →
      ∃ props, model !! i
               = Some (mesher_Prism (face i) (face (S i)) y1 y2 z1 z2 props).
Proof.
  intros Hen. destruct (sample_prisms Lx Ly Lz P m inc dec Hen)
    as (model & Hs & Hlen & Hlook).
  exists model, (sample_face Lx P). eexists _, _, _, _. split; [done|].
  intros i Hi. eexists. by apply Hlook.
Qed.

(** X12.  When [m], [inc] and [dec] are all given and one of them has
    fewer than [P] entries, [sample] raises [IndexError] while it builds
    the magnetization vectors: no model is returned. *)
Theorem sample_short_angles (Lx Ly Lz : F) (P : Z) (m inc dec : list F) :
  length m < Z.to_nat P ∨ length inc < Z.to_nat P ∨ length dec < Z.to_nat P →
  sample Lx Ly Lz P (Some m) (Some inc) (Some dec) = Err IndexError.
Proof.
  intros Hshort. unfold sample. cbv zeta. unfold py_range.
  rw (foldM_ext _ (λ acc i, let! b := (let! mi := py_index m i in
                                       let! ii := py_index inc i in
                                       let! di := py_index dec i in
                                       Ok (ang2vec mi ii di)) in
                            Ok (acc ++ [b]))).
  { intros acc i _. destruct (py_index m i); [|done]. simpl.
    destruct (py_index inc i); [|done]. simpl. by destruct (py_index dec i). }
  set (k := length m `min` (length inc `min` length dec)).
  rw (foldM_collect_err _ IndexError (Z.to_nat P) k); try done.
  - lia.
  - unfold py_index.
    destruct (m !! k) as [mi|] eqn:Hm; [|done]. simpl.
    destruct (inc !! k) as [ii|] eqn:Hi; [|done]. simpl.
    destruct (dec !! k) as [di|] eqn:Hd; [|done].
    apply lookup_lt_Some in Hm, Hi, Hd. lia.
  - intros i Hi. unfold py_index.
    destruct (lookup_lt_is_Some_2 m i ltac:(lia)) as [mi ->].
    destruct (lookup_lt_is_Some_2 inc i ltac:(lia)) as [ii ->].
    destruct (lookup_lt_is_Some_2 dec i ltac:(lia)) as [di ->].
    by eexists.
Qed.

(** X13.  The model that [sample] builds for [P] prisms is accepted by
    [sensitivity] called for the same [P] and by [magnetic_data]:
    [model[i]] never raises, the Jacobian has shape N by 3P and the field
    one value per sensor. *)
Theorem sample_feeds_sensitivity (Lx Ly Lz : F) (P : nat) (m inc dec : option (list F))
    (x y z : list F) (alpha : Z) (eff_area : option (F * F)) (junk : nat → nat → F) :
  enough_angles (Z.of_nat P) m inc dec →
  alpha_ok alpha → valid_eff eff_area → length x = length y → length x = length z →
  ∃ model G B,
    sample Lx Ly Lz (Z.of_nat P) m inc dec = Ok model ∧
    sensitivity P x y z model alpha eff_area junk = Ok G ∧
    shape G = (length x, 3 * P) ∧
    magnetic_data x y z model alpha eff_area None = Ok B ∧
    length B = length x.
Proof.
  intros Hen Ha Hea Hxy Hxz.
  destruct (sample_prisms Lx Ly Lz (Z.of_nat P) m inc dec Hen)
    as (model & Hs & Hlen & _).
  destruct (sensitivity_entries P x y z model alpha eff_area junk)
    as (G & HG & (Hshape & _) & _); try done; [lia|].
  exists model, G. eexists. split; [done|]. split; [done|]. split; [done|].
  rw magnetic_data_values; try done. split; [done|].
  by apply length_field_values.
Qed.

End SampleResults.

Section SampleSymmetry.
Context {Sc : Scalar} {K : FieldKernel Sc} {M : Mesher Sc K} {EA : ExactArith Sc}.

Add Field F_field_sample : F_field.


End SampleSymmetry.

(** ** [parameters_sph]: the rows it returns *)

(** The order laws the declination correction relies on: [<=] is the
    negation of the converse [<], and [<] is kept by adding a constant. *)
Class OrderLaws (Sc : Scalar) (SM : ScalarMore Sc) : Prop := {
  fleb_negb : ∀ a b : F, fleb a b = negb (fltb b a);
  fltb_add_r : ∀ a b c : F, fltb a b = true → fltb (fadd a c) (fadd b c) = true
}.

Section ParametersSphFacts.
Context {Sc : Scalar} {SM : ScalarMore Sc} {K : FieldKernel Sc} {M : Mesher Sc K}.

(** the Cartesian triple of prism [i] *)
Definition coord_triple (coord : list F) (i : nat) : option (F * F * F) :=
  match coord !! (3 * i), coord !! (3 * i + 1), coord !! (3 * i + 2) with
  | Some c0, Some c1, Some c2 => Some (c0, c1, c2)
  | _, _, _ => None
  end.

Lemma coord_triple_Some (coord : list F) (i : nat) :
  3 * i + 2 < length coord → is_Some (coord_triple coord i).
Proof.
  intros Hi. unfold coord_triple.
  destruct (lookup_lt_is_Some_2 coord (3 * i) ltac:(lia)) as [c0 ->].
  destruct (lookup_lt_is_Some_2 coord (3 * i + 1) ltac:(lia)) as [c1 ->].
  destruct (lookup_lt_is_Some_2 coord (3 * i + 2) ltac:(lia)) as [c2 ->].
  by eexists.
Qed.

Lemma wrap_declination_fst (aux : F * F * F) : (wrap_declination aux).1 = aux.1.
Proof.
  unfold wrap_declination. destruct aux as [[a b] d]. simpl.
  destruct (fltb (of_Z 180) d); simpl.
  - by destruct (fleb (fsub d (of_Z 360)) (fopp (of_Z 180))).
  - by destruct (fleb d (fopp (of_Z 180))).
Qed.

Lemma parameters_sph_body (N : nat) (coord : list F) :
  parameters_sph N coord =
  (let! mag_cart := foldM (λ acc i,
                      let! b := (let! c0 := py_index coord (3 * i) in
                                 let! c1 := py_index coord (3 * i + 1) in
                                 let! c2 := py_index coord (3 * i + 2) in
                                 Ok (c0, c1, c2)) in
                      Ok (acc ++ [b])) [] (seq 0 N) in
   foldM (λ acc i,
     let! b := (let! v := py_index mag_cart i in
                Ok (wrap_declination (vec2ang v))) in
     Ok (acc ++ [b])) [] (seq 0 N)).
Proof.
  unfold parameters_sph. cbv zeta.
  rw (foldM_ext _ (λ acc i,
        let! b := (let! c0 := py_index coord (3 * i) in
                   let! c1 := py_index coord (3 * i + 1) in
                   let! c2 := py_index coord (3 * i + 2) in
                   Ok (c0, c1, c2)) in
        Ok (acc ++ [b]))).
  { intros acc i _. destruct (py_index coord (3 * i)); [|done]. cbn [rbind].
    destruct (py_index coord (3 * i + 1)); [|done]. cbn [rbind].
    by destruct (py_index coord (3 * i + 2)). }
  destruct (foldM _ [] (seq 0 N)) as [mag_cart|]; [|done]. cbn [rbind].
  rw (foldM_ext _ (λ acc i,
        let! b := (let! v := py_index mag_cart i in
                   Ok (wrap_declination (vec2ang v))) in
        Ok (acc ++ [b]))).
  { intros acc i _. by destruct (py_index mag_cart i). }
  by destruct (foldM _ [] (seq 0 N)).
Qed.

(** The rows of [parameters_sph], one per Cartesian triple. *)
Lemma parameters_sph_wrapped (N : nat) (coord : list F) :
  3 * N ≤ length coord →
  ∃ rows, parameters_sph N coord = Ok rows ∧ length rows = N ∧
    ∀ i, i < N →
      rows !! i = (λ v, wrap_declination (vec2ang v)) <$> coord_triple coord i.
Proof.
  intros Hlen. rw parameters_sph_body.
  destruct (foldM_collect
              (λ i, let! c0 := py_index coord (3 * i) in
                    let! c1 := py_index coord (3 * i + 1) in
                    let! c2 := py_index coord (3 * i + 2) in
                    Ok (c0, c1, c2))
              (coord_triple coord) N) as (mag_cart & -> & Hclen & Hclook).
  { intros i Hi. unfold coord_triple, py_index.
    destruct (lookup_lt_is_Some_2 coord (3 * i) ltac:(lia)) as [c0 ->].
    destruct (lookup_lt_is_Some_2 coord (3 * i + 1) ltac:(lia)) as [c1 ->].
    destruct (lookup_lt_is_Some_2 coord (3 * i + 2) ltac:(lia)) as [c2 ->].
    by eexists. }
  cbn [rbind].
  destruct (foldM_collect
              (λ i, let! v := py_index mag_cart i in
                    Ok (wrap_declination (vec2ang v)))
              (λ i, (λ v, wrap_declination (vec2ang v)) <$> coord_triple coord i) N)
    as (rows & -> & Hrlen & Hrlook).
  { intros i Hi. unfold py_index. rw (Hclook i Hi).
    destruct (coord_triple_Some coord i ltac:(lia)) as [v ->]. by eexists. }
  by exists rows.
Qed.

(** The row of a triple that is present. *)
Lemma parameters_sph_row (N : nat) (coord : list F) (rows : list (F * F * F))
    (i : nat) (c0 c1 c2 : F) :
  (∀ i, i < N →
     rows !! i = (λ v, wrap_declination (vec2ang v)) <$> coord_triple coord i) →
  i < N → coord !! (3 * i) = Some c0 → coord !! (3 * i + 1) = Some c1 →
  coord !! (3 * i + 2) = Some c2 →
  rows !! i = Some (wrap_declination (vec2ang (c0, c1, c2))).
Proof.
  intros Hrow Hi H0 H1 H2. rw (Hrow i Hi). unfold coord_triple. by rw H0 H1 H2.
Qed.

(** X15.  When [coord] holds at least [3N] numbers, [parameters_sph]
    returns [N] rows; row [i] is computed from [coord[3i]], [coord[3i+1]],
    [coord[3i+2]] alone: it is [vec2ang] of that triple with its intensity
    and inclination unchanged and its declination corrected; numbers
    beyond the first [3N] are not read. *)
Theorem parameters_sph_rows (N : nat) (coord : list F) :
  3 * N ≤ length coord →
  ∃ rows, parameters_sph N coord = Ok rows ∧ length rows = N ∧
    ∀ i, i < N →
      ∃ c0 c1 c2 row,
        coord !! (3 * i) = Some c0 ∧ coord !! (3 * i + 1) = Some c1 ∧
        coord !! (3 * i + 2) = Some c2 ∧
        rows !! i = Some row ∧
        row = wrap_declination (vec2ang (c0, c1, c2)) ∧
        row.1 = (vec2ang (c0, c1, c2)).1.
Proof.
  intros Hlen.
  destruct (parameters_sph_wrapped N coord Hlen) as (rows & Hrows & Hrlen & Hrlook).
  exists rows. split; [done|]. split; [done|]. intros i Hi.
  destruct (lookup_lt_is_Some_2 coord (3 * i) ltac:(lia)) as [c0 H0].
  destruct (lookup_lt_is_Some_2 coord (3 * i + 1) ltac:(lia)) as [c1 H1].
  destruct (lookup_lt_is_Some_2 coord (3 * i + 2) ltac:(lia)) as [c2 H2].
  exists c0, c1, c2. eexists. do 3 (split; [done|]).
  split; [by eapply (parameters_sph_row N coord)|].
  split; [done|]. apply wrap_declination_fst.
Qed.

(** X16.  When [coord] holds fewer than [3N] numbers, [parameters_sph]
    raises [IndexError] while it reads the Cartesian triples; no row is
    returned. *)
Theorem parameters_sph_short (N : nat) (coord : list F) :
  length coord < 3 * N → parameters_sph N coord = Err IndexError.
Proof.
  intros Hlen. rw parameters_sph_body.
  rw (foldM_collect_err _ IndexError N (length coord `div` 3)); try done.
  - apply Nat.Div0.div_lt_upper_bound. lia.
  - pose proof (Nat.div_mod_eq (length coord) 3) as Hdiv.
    pose proof (Nat.mod_upper_bound (length coord) 3 ltac:(lia)) as Hmod.
    unfold py_index.
    destruct (coord !! (3 * (length coord `div` 3))) as [c0|] eqn:E0; [|done].
    cbn [rbind].
    destruct (coord !! (3 * (length coord `div` 3) + 1)) as [c1|] eqn:E1; [|done].
    cbn [rbind].
    destruct (coord !! (3 * (length coord `div` 3) + 2)) as [c2|] eqn:E2; [|done].
    apply lookup_lt_Some in E2. lia.
  - intros i Hi. unfold py_index.
    pose proof (Nat.div_mod_eq (length coord) 3).
    destruct (lookup_lt_is_Some_2 coord (3 * i) ltac:(lia)) as [c0 ->].
    destruct (lookup_lt_is_Some_2 coord (3 * i + 1) ltac:(lia)) as [c1 ->].
    destruct (lookup_lt_is_Some_2 coord (3 * i + 2) ltac:(lia)) as [c2 ->].
    by eexists.
Qed.

End ParametersSphFacts.

Section Declination.
Context {Sc : Scalar} {SM : ScalarMore Sc} {EA : ExactArith Sc} {OL : OrderLaws Sc SM}.

Add Field F_field_decl : F_field.

Lemma of_Z_180_360 :
  fadd (of_Z 180) (fopp (of_Z 360)) = fopp (of_Z 180)
  ∧ fadd (of_Z 180) (of_Z 360) = of_Z 540
  ∧ fadd (of_Z (-540)) (of_Z 360) = fopp (of_Z 180)
  ∧ of_Z (-180) = fopp (of_Z 180).
Proof.
  assert (of_Z 360 = fadd (of_Z 180) (of_Z 180)) as H360 by (by rw -of_Z_add).
  assert (of_Z 540 = fadd (of_Z 180) (of_Z 360)) as H540 by (by rw -of_Z_add).
  assert (of_Z (-540) = fopp (of_Z 540)) as Hm540 by (by rw -of_Z_opp).
  assert (of_Z (-180) = fopp (of_Z 180)) as Hm180 by (by rw -of_Z_opp).
  repeat split; try done.
  - rw H360. ring.
  - rw Hm540 H540 H360. ring.
Qed.

(** The declination after the two corrections. *)
Lemma wrap_declination_range (a b d : F) :
  fltb (of_Z (-540)) d = true → fltb (of_Z 540) d = false →
  fltb (of_Z (-180)) (wrap_declination (a, b, d)).2 = true ∧
  fltb (of_Z 180) (wrap_declination (a, b, d)).2 = false.
Proof.
  intros Hlo Hhi. destruct of_Z_180_360 as (E1 & E2 & E3 & E4).
  rw E4. unfold wrap_declination. cbn [fst snd].
  destruct (fltb (of_Z 180) d) eqn:H180; cbn [fst snd].
  - assert (fltb (fopp (of_Z 180)) (fsub d (of_Z 360)) = true) as Hl.
    { pose proof (fltb_add_r _ _ (fopp (of_Z 360)) H180) as H. rw E1 in H.
      by replace (fadd d (fopp (of_Z 360))) with (fsub d (of_Z 360)) in H by ring. }
    rw fleb_negb Hl. cbn [negb fst snd]. split; [done|].
    destruct (fltb (of_Z 180) (fsub d (of_Z 360))) eqn:Hu; [|done].
    pose proof (fltb_add_r _ _ (of_Z 360) Hu) as H. rw E2 in H.
    replace (fadd (fsub d (of_Z 360)) (of_Z 360)) with d in H by ring.
    by rw H in Hhi.
  - rw fleb_negb. destruct (fltb (fopp (of_Z 180)) d) eqn:Hl; cbn [negb fst snd].
    + done.
    + split.
      * pose proof (fltb_add_r _ _ (of_Z 360) Hlo) as H. by rw E3 in H.
      * destruct (fltb (of_Z 180) (fadd d (of_Z 360))) eqn:Hu; [|done].
        pose proof (fltb_add_r _ _ (fopp (of_Z 360)) Hu) as H. rw E1 in H.
        replace (fadd (fadd d (of_Z 360)) (fopp (of_Z 360))) with d in H by ring.
        by rw H in Hl.
Qed.

End Declination.

Section DeclinationRows.
Context {Sc : Scalar} {SM : ScalarMore Sc} {K : FieldKernel Sc} {M : Mesher Sc K}
  {EA : ExactArith Sc} {OL : OrderLaws Sc SM}.

(** X17.  In exact ordered arithmetic, a declination that [vec2ang] gives
    in (-540, 540] comes out of [parameters_sph] in (-180, 180]. *)
Theorem parameters_sph_declination (N : nat) (coord : list F) (i : nat) (c0 c1 c2 : F) :
  3 * N ≤ length coord → i < N →
  coord !! (3 * i) = Some c0 → coord !! (3 * i + 1) = Some c1 →
  coord !! (3 * i + 2) = Some c2 →
  fltb (of_Z (-540)) (vec2ang (c0, c1, c2)).2 = true →
  fltb (of_Z 540) (vec2ang (c0, c1, c2)).2 = false →
  ∃ rows intensity inclination declination,
    parameters_sph N coord = Ok rows ∧
    rows !! i = Some (intensity, inclination, declination) ∧
    fltb (of_Z (-180)) declination = true ∧
    fltb (of_Z 180) declination = false.
Proof.
  intros Hlen Hi H0 H1 H2 Hlo Hhi.
  destruct (parameters_sph_wrapped N coord Hlen) as (rows & Hrows & _ & Hrow).
  pose proof (parameters_sph_row N coord rows i c0 c1 c2 Hrow Hi H0 H1 H2) as Hr.
  destruct (vec2ang (c0, c1, c2)) as [[a b] d] eqn:Hv. cbn [snd] in Hlo, Hhi.
  destruct (wrap_declination_range a b d Hlo Hhi) as [Rl Ru].
  destruct (wrap_declination (a, b, d)) as [[a' b'] d'] eqn:Hw. cbn [snd] in Rl, Ru.
  by exists rows, a', b', d'.
Qed.

End DeclinationRows.

(** ** [residual]: the normalised residuals *)

Section ResidualFacts.
Context {Sc : Scalar} {SM : ScalarMore Sc} {EA : ExactArith Sc}.

Add Field F_field_res : F_field.

Lemma fsum_zip_sub (a b : list F) :
  length a = length b → fsum (zip_with fsub a b) = fsub (fsum a) (fsum b).
Proof.
  revert b. induction a as [|u a IH]; intros [|v b] Hlen; try done.
  - unfold fsum. simpl. ring.
  - simpl. rw !fsum_cons IH; [by injection Hlen|]. ring.
Qed.

Lemma fsum_centre (m s : F) (r : list F) :
  fsum ((λ e, fdiv (fsub e m) s) <$> r)
  = fdiv (fsub (fsum r) (fmul (of_Z (Z.of_nat (length r))) m)) s.
Proof.
  induction r as [|e r IH].
  - simpl. rw of_Z_0. unfold fsum. simpl.
    rw !(Fdiv_def F_field). ring.
  - rw fmap_cons !fsum_cons IH. cbn [length]. rw of_Z_succ.
    rw !(Fdiv_def F_field). ring.
Qed.

Lemma fsum_squares (m s : F) (r : list F) :
  s ≠ fzero →
  fsum ((λ e, fmul e e) <$> ((λ e, fdiv (fsub e m) s) <$> r))
  = fdiv (fsum ((λ e, fmul (fsub e m) (fsub e m)) <$> r)) (fmul s s).
Proof.
  intros Hs. induction r as [|e r IH].
  - unfold fsum. simpl. field. done.
  - rw !fmap_cons !fsum_cons IH. field. done.
Qed.

(** X18.  For two arrays of one positive length whose residuals have a
    non-zero standard deviation, in exact arithmetic: [residual] returns
    one normalised residual per datum, their mean is zero, the returned
    mean is the difference of the means of the two arrays, and, when the
    square root is exact at the variance, the mean of the squared
    normalised residuals is one. *)
Theorem residual_normalised (do dp : list F) :
  length do = length dp → do ≠ [] →
  (∀ r, array_sub do dp = Ok r → np_std r ≠ fzero) →
  ∃ r r_norm r_mean r_std,
    array_sub do dp = Ok r ∧
    residual do dp = Ok (r_norm, r_mean, r_std) ∧
    length r_norm = length do ∧
    np_mean r_norm = fzero ∧
    r_mean = fsub (np_mean do) (np_mean dp) ∧
    (fmul r_std r_std = np_mean ((λ e, fmul (fsub e r_mean) (fsub e r_mean)) <$> r) →
     np_mean ((λ e, fmul e e) <$> r_norm) = fone).
Proof.
  intros Hlen Hne Hstd. unfold residual, array_sub in *.
  rw bool_decide_eq_true_2 in Hstd; [done|]. rw bool_decide_eq_true_2; [done|].
  cbn [rbind]. set (r := zip_with fsub do dp) in *.
  specialize (Hstd r eq_refl).
  assert (length r = length do) as Hr by (unfold r; by rw length_zip_with_l_eq).
  assert (of_Z (Z.of_nat (length do)) ≠ fzero) as Hn.
  { apply of_Z_nonzero. destruct do; [done|]. simpl. lia. }
  eexists r, _, _, _. split; [done|]. split; [done|].
  split; [by rw length_fmap|].
  split; [|split].
  - unfold np_mean at 1. rw fsum_centre. rw length_fmap. rw Hr.
    unfold np_mean at 1. rw Hr. field. split; done.
  - unfold np_mean. unfold r. rw fsum_zip_sub; [done|].
    rw length_zip_with_l_eq; [done|]. rw -Hlen. field. done.
  - intros Hsq. set (s := np_std r) in *. set (m := np_mean r) in *.
    unfold np_mean in Hsq. rw length_fmap Hr in Hsq.
    unfold np_mean. rw fsum_squares; [done|]. rw !length_fmap Hr.
    set (S := fsum ((λ e, fmul (fsub e m) (fsub e m)) <$> r)) in *.
    assert (S ≠ fzero) as HS.
    { intros HS0. apply Hstd.
      assert (fmul s s = fzero) as Hss by (rw Hsq HS0; field; done).
      transitivity (fdiv (fmul s s) s); [field; done|]. rw Hss. field. done. }
    rw Hsq. field. split; done.
Qed.

End ResidualFacts.

(** ** [proj_polar]: the markers it draws *)

Section FoldErrors.
Context {A B : Type}.

(** A loop whose body raises at some index of its range raises, whatever
    the state it reaches that index with. *)
Lemma foldM_raises (f : B → A → result B) (e : pyerr) (k : A) (l : list A) (b : B) :
  k ∈ l → (∀ b', f b' k = Err e) → (∀ b' a e', f b' a = Err e' → e' = e) →
  foldM f b l = Err e.
Proof.
  intros Hk Hfk Hall. revert b. induction l as [|a l IH]; intros b.
  - by apply elem_of_nil in Hk.
  - simpl. destruct (f b a) as [b'|e'] eqn:Hf.
    + simpl. apply IH. apply elem_of_cons in Hk as [-> | Hk]; [|done].
      by rw Hfk in Hf.
    + simpl. f_equal. by eapply Hall.
Qed.

End FoldErrors.

Section ProjPolarFacts.
Context {Sc : Scalar} {SM : ScalarMore Sc} {Color Marker Size : Type}.

(** the radius at which a marker is drawn *)
Definition projection (inc dec : F) : F :=
  fsqrt (fadd (sqr (fmul (fcos (deg2rad inc)) (fcos (deg2rad dec))))
              (sqr (fmul (fcos (deg2rad inc)) (fsin (deg2rad dec))))).

(** the first [n] rows of [mag] have their three columns *)
Definition three_columns (n : nat) (mag : list (list F)) : Prop :=
  ∀ i, i < n → ∃ row, mag !! i = Some row ∧ 3 ≤ length row.

Lemma index2_ok (n : nat) (mag : list (list F)) (i : nat) :
  three_columns n mag → i < n →
  ∃ inc dec, index2 mag i 1 = Ok inc ∧ index2 mag i 2 = Ok dec.
Proof.
  intros H3 Hi. destruct (H3 i Hi) as (row & Hrow & Hlen).
  unfold index2, py_index. rw Hrow. cbn [rbind].
  destruct (lookup_lt_is_Some_2 row 1 ltac:(lia)) as [inc ->].
  destruct (lookup_lt_is_Some_2 row 2 ltac:(lia)) as [dec ->].
  by exists inc, dec.
Qed.

Lemma index2_err (mag : list (list F)) (i j : nat) (e : pyerr) :
  index2 mag i j = Err e → e = IndexError.
Proof.
  unfold index2, py_index. destruct (mag !! i) as [row|]; cbn [rbind].
  - destruct (row !! j); congruence.
  - congruence.
Qed.

Lemma projections_loop (mag : list (list F)) (n : nat) :
  three_columns n mag →
  ∃ l, foldM (λ '(projections, _) i,
          let! inc := index2 mag i 1 in
          let! dec := index2 mag i 2 in
          let projections :=
            projections ++
            [fsqrt (fadd (sqr (fmul (fcos (deg2rad inc)) (fcos (deg2rad dec))))
                         (sqr (fmul (fcos (deg2rad inc)) (fsin (deg2rad dec)))))] in
          Ok (projections, Some projections))
          ([], None) (seq 0 n)
       = Ok (l, if n is 0 then None else Some l) ∧
       length l = n ∧
       ∀ i inc dec, i < n → index2 mag i 1 = Ok inc → index2 mag i 2 = Ok dec →
         l !! i = Some (projection inc dec).
Proof.
  induction n as [|n IH]; intros H3.
  - exists []. split; [done|]. split; [done|]. intros; lia.
  - destruct IH as (l & Hl & Hlen & Hlook); [intros i Hi; apply H3; lia|].
    destruct (index2_ok (S n) mag n H3 ltac:(lia)) as (inc & dec & Hinc & Hdec).
    exists (l ++ [projection inc dec]). rw seq_S foldM_app Hl. cbn [rbind foldM].
    rw Hinc Hdec. cbn [rbind]. split; [done|].
    split; [rw length_app; simpl; lia|].
    intros i inc' dec' Hi Hinc' Hdec'. destruct (decide (i = n)) as [-> | Hne].
    + rw lookup_app_r; [lia|]. rw Hlen Nat.sub_diag. simpl. congruence.
    + rw lookup_app_l; [lia|]. apply Hlook; [lia|done..].
Qed.

Lemma plot_loop_calls (body : nat → result (plot_call Color Marker Size))
    (g : nat → plot_call Color Marker Size) (fig : list (plot_call Color Marker Size))
    (a n : nat) :
  (∀ i, a ≤ i < a + n → body i = Ok (g i)) →
  plot_loop body fig (seq a n) = (Ok (), fig ++ (g <$> seq a n)).
Proof.
  revert a fig. induction n as [|n IH]; intros a fig Hb.
  - simpl. by rw app_nil_r.
  - simpl. rw Hb; [lia|]. rw IH.
    + intros i Hi. apply Hb. lia.
    + by rw -app_assoc.
Qed.

(** the [mpl.plot] call made for row [i] *)
Definition marker_call (mag : list (list F)) (color : Color) (simbolo : Marker)
    (size : Size) (i : nat) : option (plot_call Color Marker Size) :=
  match index2 mag i 1, index2 mag i 2 with
  | Ok inc, Ok dec =>
      Some (if fleb fzero inc
            then PlotCall (deg2rad dec) (projection inc dec) simbolo size color 3
                   (Some color) Full
            else PlotCall (deg2rad dec) (projection inc dec) simbolo size color 3
                   None Nofill)
  | _, _ => None
  end.

(** The calls of [proj_polar] on rows that have their three columns. *)
Lemma proj_polar_calls (N : Z) (mag : list (list F)) (color : Color)
    (simbolo : Marker) (size : Size) (fig : list (plot_call Color Marker Size)) :
  three_columns (Z.to_nat N) mag →
  ∃ calls,
    proj_polar N mag color simbolo size fig = (Ok (), fig ++ calls) ∧
    length calls = Z.to_nat N ∧
    ∀ i, i < Z.to_nat N → calls !! i = marker_call mag color simbolo size i.
Proof.
  intros H3. unfold proj_polar, py_range. cbv zeta.
  pose proof (projections_loop mag (Z.to_nat N) H3) as Hloop. cbv zeta in Hloop.
  destruct Hloop as (l & -> & Hlen & Hlook).
  set (proj := if Z.to_nat N is 0 then None else Some l).
  set (g := λ i : nat,
         default (PlotCall fzero fzero simbolo size color 3 None Nofill)
           (marker_call mag color simbolo size i)).
  assert (∀ i, i < Z.to_nat N → marker_call mag color simbolo size i = Some (g i))
    as Hg.
  { intros i Hi. unfold g, marker_call.
    destruct (index2_ok _ mag i H3 Hi) as (inc & dec & -> & ->). done. }
  exists (g <$> seq 0 (Z.to_nat N)).
  split; [|split].
  - apply plot_loop_calls. intros i Hi.
    destruct (index2_ok _ mag i H3 ltac:(lia)) as (inc & dec & Hinc & Hdec).
    unfold g, marker_call. rw Hinc Hdec. cbn [rbind default].
    assert (proj = Some l) as -> by (unfold proj; destruct (Z.to_nat N); [lia|done]).
    unfold py_index. rw (Hlook i inc dec); [lia|done|done|]. cbn [rbind].
    by destruct (fleb fzero inc).
  - by rw length_fmap length_seq.
  - intros i Hi. rw list_lookup_fmap lookup_seq_lt; [done|]. by rw Hg.
Qed.

(** X19.  When each of the first [N] rows of [mag] has its three columns,
    [proj_polar] raises nothing and adds exactly [N] markers to the
    figure, after the ones already there and in the order of the rows.
    Marker [i] is drawn at the angle [deg2rad(mag[i,2])] and at the radius
    computed from [mag[i,1]] and [mag[i,2]], with the marker, size and edge
    colour passed in; it is filled, with the face colour [color], exactly
    when [0 <= mag[i,1]], and hollow with no face colour otherwise. *)
Theorem proj_polar_markers (N : Z) (mag : list (list F)) (color : Color)
    (simbolo : Marker) (size : Size) (fig : list (plot_call Color Marker Size)) :
  three_columns (Z.to_nat N) mag →
  ∃ calls,
    proj_polar N mag color simbolo size fig = (Ok (), fig ++ calls) ∧
    length calls = Z.to_nat N ∧
    ∀ i, i < Z.to_nat N →
      ∃ inc dec call,
        index2 mag i 1 = Ok inc ∧ index2 mag i 2 = Ok dec ∧
        calls !! i = Some call ∧
        pc_x call = deg2rad dec ∧ pc_y call = projection inc dec ∧
        pc_marker call = simbolo ∧ pc_ms call = size ∧ pc_mec call = color ∧
        (pc_fillstyle call = if fleb fzero inc then Full else Nofill) ∧
        (pc_mfc call = if fleb fzero inc then Some color else None).
Proof.
  intros H3.
  destruct (proj_polar_calls N mag color simbolo size fig H3)
    as (calls & Hp & Hlen & Hcalls).
  exists calls. split; [done|]. split; [done|]. intros i Hi.
  destruct (index2_ok _ mag i H3 Hi) as (inc & dec & Hinc & Hdec).
  pose proof (Hcalls i Hi) as Hc. unfold marker_call in Hc. rw Hinc Hdec in Hc.
  exists inc, dec. eexists. split; [done|]. split; [done|]. split; [exact Hc|].
  by destruct (fleb fzero inc).
Qed.

(** X20.  When one of the first [N] rows of [mag] is missing or has fewer
    than three columns, [proj_polar] raises [IndexError] while it computes
    the radii, before the first [mpl.plot] call: the figure is left as it
    was, also when the rows before the faulty one are complete. *)
Theorem proj_polar_short (N : Z) (mag : list (list F)) (color : Color)
    (simbolo : Marker) (size : Size) (fig : list (plot_call Color Marker Size))
    (k : nat) :
  k < Z.to_nat N → (∀ row, mag !! k = Some row → length row < 3) →
  proj_polar N mag color simbolo size fig = (Err IndexError, fig).
Proof.
  intros Hk Hrow. unfold proj_polar, py_range. cbv zeta.
  rw (foldM_raises _ IndexError k); try done.
  - apply elem_of_seq. lia.
  - intros [projections proj].
    destruct (index2 mag k 1) as [inc|e] eqn:Hinc; cbn [rbind].
    + assert (index2 mag k 2 = Err IndexError) as ->; [|done].
      unfold index2, py_index in *. destruct (mag !! k) as [row|]; [|done].
      cbn [rbind]. rw lookup_ge_None_2; [|done].
      specialize (Hrow row eq_refl). lia.
    + f_equal. by eapply index2_err.
  - intros [projections proj] i e.
    destruct (index2 mag i 1) as [inc|e1] eqn:Hinc; cbn [rbind].
    + destruct (index2 mag i 2) as [dec|e2] eqn:Hdec; cbn [rbind]; [done|].
      intros [= <-]. by eapply index2_err.
    + intros [= <-]. by eapply index2_err.
Qed.

End ProjPolarFacts.

Section ProjPolarRadius.
Context {Sc : Scalar} {SM : ScalarMore Sc} {EA : ExactArith Sc} {Color Marker Size : Type}.

Add Field F_field_proj : F_field.

(** X21.  In exact arithmetic, when cos^2 + sin^2 = 1 holds at the
    angles [deg2rad(mag[i,2])], the radius of marker [i] is
    [sqrt(cos(deg2rad(mag[i,1]))^2)]: it depends on column 1 alone, not on
    the angle at which the marker is drawn. *)
Theorem proj_polar_radius (N : Z) (mag : list (list F)) (color : Color)
    (simbolo : Marker) (size : Size) (fig : list (plot_call Color Marker Size)) :
  three_columns (Z.to_nat N) mag →
  (∀ i dec, i < Z.to_nat N → index2 mag i 2 = Ok dec →
     fadd (sqr (fcos (deg2rad dec))) (sqr (fsin (deg2rad dec))) = fone) →
  ∃ calls,
    proj_polar N mag color simbolo size fig = (Ok (), fig ++ calls) ∧
    ∀ i, i < Z.to_nat N →
      ∃ inc call,
        index2 mag i 1 = Ok inc ∧ calls !! i = Some call ∧
        pc_y call = fsqrt (sqr (fcos (deg2rad inc))).
Proof.
  intros H3 Hunit.
  destruct (proj_polar_calls N mag color simbolo size fig H3)
    as (calls & Hp & _ & Hcalls).
  exists calls. split; [done|]. intros i Hi.
  destruct (index2_ok _ mag i H3 Hi) as (inc & dec & Hinc & Hdec).
  pose proof (Hcalls i Hi) as Hc. unfold marker_call in Hc. rw Hinc Hdec in Hc.
  exists inc. eexists. split; [done|]. split; [exact Hc|].
  transitivity (projection inc dec); [by destruct (fleb fzero inc)|].
  unfold projection. f_equal.
  specialize (Hunit i dec Hi Hdec). unfold sqr in *.
  set (c := fcos (deg2rad inc)) in *. set (cd := fcos (deg2rad dec)) in *.
  set (sd := fsin (deg2rad dec)) in *.
  transitivity (fmul (fmul c c) (fadd (fmul cd cd) (fmul sd sd))); [ring|].
  rw Hunit. ring.
Qed.

End ProjPolarRadius.

Section PlotEstimates.
Context {Sc : Scalar} {SM : ScalarMore Sc} {K : FieldKernel Sc} {M : Mesher Sc K}
  {Color Marker Size : Type}.

(** X22.  The array that [parameters_sph] returns for [N] prisms is
    accepted by [proj_polar] called for the same [N]: one marker per row
    is drawn, at the angle [deg2rad] of the corrected third entry of the
    row (the declination of [vec2ang]), filled exactly when the second
    entry (the inclination) is not negative. *)
Theorem parameters_sph_plotted (N : nat) (coord : list F) (color : Color)
    (simbolo : Marker) (size : Size) (fig : list (plot_call Color Marker Size)) :
  3 * N ≤ length coord →
  ∃ rows calls,
    parameters_sph N coord = Ok rows ∧
    proj_polar (Z.of_nat N) (array_rows rows) color simbolo size fig
    = (Ok (), fig ++ calls) ∧
    length calls = N ∧
    ∀ i, i < N →
      ∃ intensity inc dec call,
        rows !! i = Some (intensity, inc, dec) ∧ calls !! i = Some call ∧
        pc_x call = deg2rad dec ∧
        pc_fillstyle call = if fleb fzero inc then Full else Nofill.
Proof.
  intros Hlen.
  destruct (parameters_sph_wrapped N coord Hlen) as (rows & Hrows & Hrlen & _).
  assert (∀ i, i < N → ∃ t, rows !! i = Some t) as Hsome.
  { intros i Hi. apply lookup_lt_is_Some_2. lia. }
  assert (three_columns (Z.to_nat (Z.of_nat N)) (array_rows rows)) as H3.
  { intros i Hi. destruct (Hsome i ltac:(lia)) as [t Ht].
    eexists. unfold array_rows. rw list_lookup_fmap Ht. split; [done|]. simpl. lia. }
  destruct (proj_polar_calls (Z.of_nat N) (array_rows rows) color simbolo size fig H3)
    as (calls & Hp & Hclen & Hcalls).
  exists rows, calls. split; [done|]. split; [done|]. split; [lia|].
  intros i Hi. destruct (Hsome i Hi) as [[[intensity inc] dec] Ht].
  pose proof (Hcalls i ltac:(lia)) as Hc.
  unfold marker_call, index2, array_rows, py_index in Hc.
  rw list_lookup_fmap Ht in Hc. simpl in Hc.
  exists intensity, inc, dec. eexists. split; [done|]. split; [exact Hc|].
  by destruct (fleb fzero inc).
Qed.

End PlotEstimates.

(** ** [dipolesrand]: the spheres it builds *)

(** What numpy documents of the three calls: the seeds it accepts, the
    scale it refuses, and the number of values of a draw. *)
Class RandomLaws (Sc : Scalar) (Rng : NumpyRandom Sc) : Prop := {
  rng_seed_valid : ∀ seed, (0 ≤ seed < 2 ^ 32)%Z → ∃ st, rng_seed seed = Ok st;
  rng_seed_invalid : ∀ seed, ¬ (0 ≤ seed < 2 ^ 32)%Z → rng_seed seed = Err ValueError;
  rng_normal_scale : ∀ st loc scale n,
    fltb scale fzero = true → rng_normal st loc scale n = Err ValueError;
  rng_uniform_size : ∀ st lo hi n l st',
    rng_uniform st lo hi n = Ok (l, st') → length l = n;
  rng_normal_size : ∀ st loc scale n l st',
    rng_normal st loc scale n = Ok (l, st') → length l = n
}.

Section DipolesrandFacts.
Context {Sc : Scalar} {K : FieldKernel Sc} {M : Mesher Sc K} {Rng : NumpyRandom Sc}.

(** The two loops of [dipolesrand] on draws of [n] values each. *)
Lemma dipolesrand_loops (n : nat) (mag raio : F) (Coordx Coordy Coordz Dec_rand Inc_rand : list F) :
  length Coordx = n → length Coordy = n → length Coordz = n →
  length Dec_rand = n → length Inc_rand = n →
  ∃ modelrand,
    (let! magrand := foldM (λ magrand i,
                       let! ii := py_index Inc_rand i in
                       let! di := py_index Dec_rand i in
                       Ok (magrand ++ [ang2vec mag ii di])) [] (seq 0 n) in
     let! modelrand := foldM (λ modelrand i,
                         let! cx := py_index Coordx i in
                         let! cy := py_index Coordy i in
                         let! cz := py_index Coordz i in
                         let! mg := py_index magrand i in
                         Ok (modelrand ++ [mesher_Sphere cx cy cz raio (Some mg)]))
                         [] (seq 0 n) in
     Ok (modelrand, Coordx, Coordy, Coordz))
    = Ok (modelrand, Coordx, Coordy, Coordz) ∧
    length modelrand = n ∧
    ∀ i, i < n →
      ∃ cx cy cz dec inc,
        Coordx !! i = Some cx ∧ Coordy !! i = Some cy ∧ Coordz !! i = Some cz ∧
        Dec_rand !! i = Some dec ∧ Inc_rand !! i = Some inc ∧
        modelrand !! i
        = Some (mesher_Sphere cx cy cz raio (Some (ang2vec mag inc dec))).
Proof.
  intros Lx1 Ly1 Lz1 Ld Li.
  set (vec := λ i : nat, match Inc_rand !! i, Dec_rand !! i with
                         | Some ii, Some di => Some (ang2vec mag ii di)
                         | _, _ => None
                         end).
  destruct (foldM_collect
              (λ i, let! ii := py_index Inc_rand i in
                    let! di := py_index Dec_rand i in
                    Ok (ang2vec mag ii di)) vec n)
    as (magrand & Hmag & Hmlen & Hmlook).
  { intros i Hi. unfold vec, py_index.
    destruct (lookup_lt_is_Some_2 Inc_rand i ltac:(lia)) as [ii ->].
    destruct (lookup_lt_is_Some_2 Dec_rand i ltac:(lia)) as [di ->].
    by eexists. }
  rw (foldM_ext _ (λ acc i, let! b := (let! ii := py_index Inc_rand i in
                                       let! di := py_index Dec_rand i in
                                       Ok (ang2vec mag ii di)) in
                            Ok (acc ++ [b]))).
  { intros acc i _. destruct (py_index Inc_rand i); [|done]. cbn [rbind].
    by destruct (py_index Dec_rand i). }
  rw Hmag. cbn [rbind].
  set (sph := λ i : nat,
         match Coordx !! i, Coordy !! i, Coordz !! i, vec i with
         | Some cx, Some cy, Some cz, Some mg =>
             Some (mesher_Sphere cx cy cz raio (Some mg))
         | _, _, _, _ => None
         end).
  destruct (foldM_collect
              (λ i, let! cx := py_index Coordx i in
                    let! cy := py_index Coordy i in
                    let! cz := py_index Coordz i in
                    let! mg := py_index magrand i in
                    Ok (mesher_Sphere cx cy cz raio (Some mg))) sph n)
    as (modelrand & Hmodel & Hlen & Hlook).
  { intros i Hi. unfold sph, py_index. rw (Hmlook i Hi). unfold vec.
    destruct (lookup_lt_is_Some_2 Coordx i ltac:(lia)) as [cx ->].
    destruct (lookup_lt_is_Some_2 Coordy i ltac:(lia)) as [cy ->].
    destruct (lookup_lt_is_Some_2 Coordz i ltac:(lia)) as [cz ->].
    destruct (lookup_lt_is_Some_2 Inc_rand i ltac:(lia)) as [ii ->].
    destruct (lookup_lt_is_Some_2 Dec_rand i ltac:(lia)) as [di ->].
    by eexists. }
  rw (foldM_ext _ (λ acc i, let! b := (let! cx := py_index Coordx i in
                                       let! cy := py_index Coordy i in
                                       let! cz := py_index Coordz i in
                                       let! mg := py_index magrand i in
                                       Ok (mesher_Sphere cx cy cz raio (Some mg))) in
                            Ok (acc ++ [b]))).
  { intros acc i _. destruct (py_index Coordx i); [|done]. cbn [rbind].
    destruct (py_index Coordy i); [|done]. cbn [rbind].
    destruct (py_index Coordz i); [|done]. cbn [rbind].
    by destruct (py_index magrand i). }
  rw Hmodel. cbn [rbind].
  exists modelrand. split; [done|]. split; [done|]. intros i Hi.
  pose proof (Hlook i Hi) as Hs. unfold sph, vec in Hs.
  destruct (lookup_lt_is_Some_2 Coordx i ltac:(lia)) as [cx Hcx].
  destruct (lookup_lt_is_Some_2 Coordy i ltac:(lia)) as [cy Hcy].
  destruct (lookup_lt_is_Some_2 Coordz i ltac:(lia)) as [cz Hcz].
  destruct (lookup_lt_is_Some_2 Inc_rand i ltac:(lia)) as [ii Hii].
  destruct (lookup_lt_is_Some_2 Dec_rand i ltac:(lia)) as [di Hdi].
  rw Hcx Hcy Hcz Hii Hdi in Hs.
  by exists cx, cy, cz, di, ii.
Qed.

Context {RL : RandomLaws Sc Rng}.

(** X23.  With a generator that behaves as numpy documents, called on
    the generator state [st0]:
    - a seed outside [0, 2**32 - 1] makes [dipolesrand] raise
      [ValueError] before any draw, the generator being left as it was;
    - with a valid seed and a negative [std] the call raises (in the
      first [normal] draw, unless a [uniform] draw has failed before) and
      returns no sphere;
    - when the seeding and the five draws succeed, in the order
      x, y, z, declination, inclination, each from the state the previous
      one left, the call returns [n] spheres together with the three
      coordinate arrays drawn and leaves the state of the last draw;
      sphere [i] is centred at the [i]-th coordinates, has the radius
      [raio] and carries the magnetization
      [ang2vec(mag, Inc_rand[i], Dec_rand[i])]. *)
Theorem dipolesrand_spheres (N seed : Z) (n : nat)
    (deg_dec deg_inc std mag raio Lx Ly Lz : F) (st0 : rng_state) :
  (¬ (0 ≤ seed < 2 ^ 32)%Z →
   dipolesrand N seed n deg_dec deg_inc std mag raio Lx Ly Lz st0
   = (Err ValueError, st0)) ∧
  ((0 ≤ seed < 2 ^ 32)%Z → fltb std fzero = true →
   ∃ e st, dipolesrand N seed n deg_dec deg_inc std mag raio Lx Ly Lz st0
           = (Err e, st)) ∧
  (∀ s Coordx s1 Coordy s2 Coordz s3 Dec_rand s4 Inc_rand s5,
     rng_seed seed = Ok s →
     rng_uniform s (fadd (fmul (fopp half) (fmul (of_Z N) Lx)) raio)
       (fsub (fmul half (fmul (of_Z N) Lx)) raio) n = Ok (Coordx, s1) →
     rng_uniform s1 (fadd (fmul (fopp half) Ly) raio) (fsub (fmul half Ly) raio) n
     = Ok (Coordy, s2) →
     rng_uniform s2 (fadd (fmul (fopp half) Lz) raio) (fsub (fmul half Lz) raio) n
     = Ok (Coordz, s3) →
     rng_normal s3 deg_dec std n = Ok (Dec_rand, s4) →
     rng_normal s4 deg_inc std n = Ok (Inc_rand, s5) →
     ∃ modelrand,
       dipolesrand N seed n deg_dec deg_inc std mag raio Lx Ly Lz st0
       = (Ok (modelrand, Coordx, Coordy, Coordz), s5) ∧
       length modelrand = n ∧
       ∀ i, i < n →
         ∃ cx cy cz dec inc,
           Coordx !! i = Some cx ∧ Coordy !! i = Some cy ∧ Coordz !! i = Some cz ∧
           Dec_rand !! i = Some dec ∧ Inc_rand !! i = Some inc ∧
           modelrand !! i
           = Some (mesher_Sphere cx cy cz raio (Some (ang2vec mag inc dec)))).
Proof.
  unfold dipolesrand, rand_bind, random_seed, random_uniform, random_normal, rand_pure.
  cbv zeta. split; [|split].
  - intros Hseed. by rw rng_seed_invalid.
  - intros Hseed Hstd. destruct (rng_seed_valid seed Hseed) as [s ->].
    destruct (rng_uniform s _ _ n) as [[Coordx s1]|e]; [|by eexists _, _].
    destruct (rng_uniform s1 _ _ n) as [[Coordy s2]|e]; [|by eexists _, _].
    destruct (rng_uniform s2 _ _ n) as [[Coordz s3]|e]; [|by eexists _, _].
    rw rng_normal_scale; [done|]. by eexists _, _.
  - intros s Coordx s1 Coordy s2 Coordz s3 Dec_rand s4 Inc_rand s5 Hs E1 E2 E3 E4 E5.
    rw Hs E1 E2 E3 E4 E5.
    destruct (dipolesrand_loops n mag raio Coordx Coordy Coordz Dec_rand Inc_rand)
      as (modelrand & Hloops & Hlen & Hsph).
    + by eapply rng_uniform_size.
    + by eapply rng_uniform_size.
    + by eapply rng_uniform_size.
    + by eapply rng_normal_size.
    + by eapply rng_normal_size.
    + cbv zeta in Hloops. exists modelrand. by rw Hloops.
Qed.

End DipolesrandFacts.

(** ** The plane index *)

Section PlaneIndex.
Context {Sc : Scalar} {K : FieldKernel Sc}.

Lemma alpha_assert_tests (alpha : Z) :
  bool_decide (alpha = 0%Z) || bool_decide (alpha = 1%Z)
  || bool_decide (alpha = 2%Z) || bool_decide (alpha = 3%Z)
  = is02 alpha || is13 alpha.
Proof.
  unfold is02, is13.
  by destruct (bool_decide (alpha = 0%Z)), (bool_decide (alpha = 1%Z)),
    (bool_decide (alpha = 2%Z)), (bool_decide (alpha = 3%Z)).
Qed.

(** X24.  [magnetic_data] and [sensitivity] use the plane index only
    through the two tests "alpha is 0 or 2" and "alpha is 1 or 3": two
    indices that agree on both tests give the same result on the same
    inputs, errors included.  So plane 2 is computed as plane 0 and plane
    3 as plane 1; opposite faces differ through the coordinates passed in
    alone. *)
Theorem plane_index_tests (P : nat) x y z (model : list Prism)
    (eff_area : option (F * F)) (grains : option (list Sphere)) (junk : nat → nat → F)
    (alpha alpha' : Z) :
  is02 alpha = is02 alpha' → is13 alpha = is13 alpha' →
  magnetic_data x y z model alpha eff_area grains
  = magnetic_data x y z model alpha' eff_area grains ∧
  sensitivity P x y z model alpha eff_area junk
  = sensitivity P x y z model alpha' eff_area junk.
Proof.
  intros H02 H13. split.
  - unfold magnetic_data. rw !alpha_assert_tests.
    change (bool_decide (alpha = 0%Z) || bool_decide (alpha = 2%Z)) with (is02 alpha).
    change (bool_decide (alpha = 1%Z) || bool_decide (alpha = 3%Z)) with (is13 alpha).
    change (bool_decide (alpha' = 0%Z) || bool_decide (alpha' = 2%Z)) with (is02 alpha').
    change (bool_decide (alpha' = 1%Z) || bool_decide (alpha' = 3%Z)) with (is13 alpha').
    by rw H02 H13.
  - unfold sensitivity.
    change (bool_decide (alpha = 0%Z) || bool_decide (alpha = 2%Z)) with (is02 alpha).
    change (bool_decide (alpha = 1%Z) || bool_decide (alpha = 3%Z)) with (is13 alpha).
    change (bool_decide (alpha' = 0%Z) || bool_decide (alpha' = 2%Z)) with (is02 alpha').
    change (bool_decide (alpha' = 1%Z) || bool_decide (alpha' = 3%Z)) with (is13 alpha').
    by rw H02 H13.
Qed.

End PlaneIndex.

(** ** The further properties on concrete inputs *)

Lemma QcOrder : OrderLaws QcScalar QcMore.
Proof.
  split.
  - intros a b. change (Qc_leb a b = negb (Qc_ltb b a)).
    unfold Qc_leb, Qc_ltb, Qccompare.
    rw -(Qcompare_antisym b a). by destruct (b ?= a)%Q.
  - intros a b c H. change (Qc_ltb a b = true) in H.
    change (Qc_ltb (a + c)%Qc (b + c)%Qc = true). unfold Qc_ltb in *.
    destruct (a ?= b)%Qc eqn:E; try discriminate.
    destruct (Qclt_alt a b) as [_ Hab]. specialize (Hab E).
    destruct (Qclt_alt (a + c) (b + c)) as [Hc _].
    rw Hc; [|done].
    unfold Qclt, Qcplus. cbn [this Q2Qc]. rw !Qred_correct. by apply Qplus_lt_l.
Qed.

Definition q3 : Qc := Qc_of_Z 3.

(** X1 on one prism and one sensor. *)
Lemma sensitivity_overwrites_empty_scenario :
  ∃ G, sensitivity (K := QcKernel) 1 [q0] [q0] [q1] [mag_z] 0 None no_junk = Ok G ∧
       sensitivity (K := QcKernel) 1 [q0] [q0] [q1] [mag_z] 0 None (λ _ _, q5) = Ok G.
Proof.
  apply (sensitivity_overwrites_empty (K := QcKernel) 1 [q0] [q0] [q1] [mag_z] 0 None
           no_junk (λ _ _, q5)).
  - left. reflexivity.
  - exact valid_eff_None.
  - reflexivity.
  - reflexivity.
  - simpl. lia.
Defined.

(** X2 for the plane index 4. *)
Lemma sensitivity_unchecked_alpha_scenario :
  ∃ G, sensitivity (K := QcKernel) 1 [q0] [q0] [q1] [mag_z] 4 None no_junk = Ok G ∧
       shape G = (1, 3).
Proof.
  destruct (sensitivity_unchecked_alpha (K := QcKernel) 1 [q0] [q0] [q1] [mag_z] 4 None
              no_junk) as (G & HG & Hs & _).
  - unfold alpha_ok. lia.
  - exact valid_eff_None.
  - intros _. split; reflexivity.
  - exists G. split; [exact HG|exact Hs].
Defined.

(** X3 with one grain. *)
Lemma magnetic_data_length_scenario :
  ∃ B, magnetic_data (K := QcKernel) [q0; q1] [q0; q5] [q1; q1] [mag_x; mag_z] 1
         (Some (q10, q10)) (Some [mag_y]) = Ok B ∧
       length B = 2.
Proof.
  apply (magnetic_data_length (K := QcKernel) [q0; q1] [q0; q5] [q1; q1] [mag_x; mag_z] 1
           (Some (q10, q10)) (Some [mag_y])).
  - right. left. reflexivity.
  - exact valid_eff_10.
  - reflexivity.
  - reflexivity.
Defined.

(** X4 for the plane index 4. *)
Lemma coordplane_unchecked_alpha_scenario :
  coordplane (Gr := QcGridder) q5 q10 2 2 (q0, q1, q0, q1) 4 q0 = Err IndexError.
Proof.
  apply (coordplane_unchecked_alpha (Gr := QcGridder) q5 q10 2 2 (q0, q1, q0, q1) 4 q0).
  unfold alpha_ok. lia.
Defined.

(** X5 for plane 1. *)
Lemma coordplane_lengths_scenario :
  ∃ xr yr zr, coordplane (Gr := QcGridder) q5 q10 2 2 (q0, q1, q0, q1) 1 q0
              = Ok (xr, yr, zr) ∧
    length xr = length yr.
Proof.
  destruct (coordplane_lengths (Gr := QcGridder) q5 q10 2 2 (q0, q1, q0, q1) 1 q0)
    as (xr & yr & zr & H & Lx & Ly & _).
  - right. left. reflexivity.
  - exists xr, yr, zr. split; [exact H|]. exact (eq_trans Lx (eq_sym Ly)).
Defined.

(** X7 for the angle 0 on plane 2. *)
Lemma coordplane_no_rotation_scenario :
  ∃ w, coordplane (Gr := QcGridder) q5 q10 2 2 (q0, q1, q0, q1) 2 q0
       = Ok ((regular_xy (Gridder := QcGridder) (q0, q1, q0, q1) (2, 2)).*1,
             (regular_xy (Gridder := QcGridder) (q0, q1, q0, q1) (2, 2)).*2, w).
Proof.
  destruct (coordplane_no_rotation (Gr := QcGridder) (EA := QcExact) q5 q10 2 2
              (q0, q1, q0, q1) 2 q0) as (w & H).
  - right. right. left. reflexivity.
  - apply Qc_is_canon. reflexivity.
  - apply Qc_is_canon. reflexivity.
  - exists w. exact H.
Defined.

(** X9 on one sensor with [ns = 1]. *)
Lemma point2grid_z_repeated_scenario :
  point2grid (Sc := QcScalar) [q0] [q0] (q10, q10) 1 (Some [q1])
  = (let! '(xg, yg, _) := point2grid (Sc := QcScalar) [q0] [q0] (q10, q10) 1 None in
     Ok (xg, yg, Some (tile (Z.to_nat (1 * 1)) [q1]))).
Proof.
  apply (point2grid_z_repeated (Sc := QcScalar) [q0] [q0] (q10, q10) 1 [q1]).
  reflexivity.
Defined.

(** X10 for two magnetized prisms. *)
Lemma sample_model_scenario :
  ∃ model, sample (M := QcMesher) q1 q1 q1 2 (Some [q1; q1]) (Some [q0; q5])
             (Some [q5; q0]) = Ok model ∧
           length model = 2.
Proof.
  destruct (sample_model (M := QcMesher) q1 q1 q1 2 (Some [q1; q1]) (Some [q0; q5])
              (Some [q5; q0])) as (model & H & Hlen & _).
  - simpl. lia.
  - exists model. split; [exact H|exact Hlen].
Defined.

(** X11 for two prisms without magnetization. *)
Lemma sample_contiguous_scenario :
  ∃ model, sample (M := QcMesher) q1 q1 q1 2 None None None = Ok model.
Proof.
  destruct (sample_contiguous (M := QcMesher) q1 q1 q1 2 None None None)
    as (model & _ & _ & _ & _ & _ & H & _).
  - exact I.
  - exists model. exact H.
Defined.

(** X12 for two prisms and one inclination. *)
Lemma sample_short_angles_scenario :
  sample (M := QcMesher) q1 q1 q1 2 (Some [q1; q1]) (Some [q0]) (Some [q5; q0])
  = Err IndexError.
Proof.
  apply (sample_short_angles (M := QcMesher) q1 q1 q1 2 [q1; q1] [q0] [q5; q0]).
  right. left. simpl. lia.
Defined.

(** X13 for two prisms seen by one sensor. *)
Lemma sample_feeds_sensitivity_scenario :
  ∃ model G B,
    sample (M := QcMesher) q1 q1 q1 (Z.of_nat 2) (Some [q1; q1]) (Some [q0; q5])
      (Some [q5; q0]) = Ok model ∧
    sensitivity (K := QcKernel) 2 [q0] [q0] [q1] model 0 None no_junk = Ok G ∧
    shape G = (1, 6) ∧
    magnetic_data (K := QcKernel) [q0] [q0] [q1] model 0 None None = Ok B ∧
    length B = 1.
Proof.
  apply (sample_feeds_sensitivity (M := QcMesher) q1 q1 q1 2 (Some [q1; q1])
           (Some [q0; q5]) (Some [q5; q0]) [q0] [q0] [q1] 0 None no_junk).
  - simpl. lia.
  - left. reflexivity.
  - exact valid_eff_None.
  - reflexivity.
  - reflexivity.
Defined.


(** X15 for one prism. *)
Lemma parameters_sph_rows_scenario :
  ∃ rows, parameters_sph (SM := QcMore) (M := QcMesher) 1 [q1; q0; q5] = Ok rows ∧
          length rows = 1.
Proof.
  destruct (parameters_sph_rows (SM := QcMore) (M := QcMesher) 1 [q1; q0; q5])
    as (rows & H & Hlen & _).
  - simpl. lia.
  - exists rows. split; [exact H|exact Hlen].
Defined.

(** X16 for two prisms and five numbers. *)
Lemma parameters_sph_short_scenario :
  parameters_sph (SM := QcMore) (M := QcMesher) 2 [q1; q0; q5; q1; q0]
  = Err IndexError.
Proof.
  apply (parameters_sph_short (SM := QcMore) (M := QcMesher) 2 [q1; q0; q5; q1; q0]).
  simpl. lia.
Defined.

(** X17 for one prism whose declination is 200. *)
Lemma parameters_sph_declination_scenario :
  ∃ rows intensity inclination declination,
    parameters_sph (SM := QcMore) (M := QcMesher) 1 [q1; q0; Qc_of_Z 200] = Ok rows ∧
    rows !! 0 = Some (intensity, inclination, declination) ∧
    Qc_ltb (Qc_of_Z (-180)) declination = true ∧
    Qc_ltb (Qc_of_Z 180) declination = false.
Proof.
  apply (parameters_sph_declination (SM := QcMore) (M := QcMesher) (EA := QcExact)
           (OL := QcOrder) 1 [q1; q0; Qc_of_Z 200] 0 q1 q0 (Qc_of_Z 200)).
  - simpl. lia.
  - lia.
  - reflexivity.
  - reflexivity.
  - reflexivity.
  - reflexivity.
  - reflexivity.
Defined.

(** X18 for the observations 3, 1 and the predictions 0, 0: the residuals
    have mean 2 and standard deviation 1. *)
Lemma residual_normalised_scenario :
  ∃ r_norm r_mean r_std,
    residual (SM := QcMore) [q3; q1] [q0; q0] = Ok (r_norm, r_mean, r_std) ∧
    np_mean r_norm = q0.
Proof.
  destruct (residual_normalised (SM := QcMore) (EA := QcExact) [q3; q1] [q0; q0])
    as (r & r_norm & r_mean & r_std & _ & H & _ & Hm & _).
  - reflexivity.
  - discriminate.
  - intros r [= <-].
    assert (np_std (SM := QcMore) (zip_with Qcminus [q3; q1] [q0; q0]) = q1) as E.
    { apply Qc_is_canon. reflexivity. }
    intros E0. rw E in E0. discriminate E0.
  - exists r_norm, r_mean, r_std. split; [exact H|exact Hm].
Defined.

(** X19 for one row with a positive inclination. *)
Lemma proj_polar_markers_scenario :
  ∃ calls : list (plot_call (Sc := QcScalar) string string Z),
    proj_polar (SM := QcMore) 1 [[q1; q5; q0]] "k"%string "o"%string 10%Z []
    = (Ok (), [] ++ calls) ∧
    length calls = 1.
Proof.
  destruct (proj_polar_markers (SM := QcMore) 1 [[q1; q5; q0]] "k"%string "o"%string
              10%Z []) as (calls & H & Hlen & _).
  - intros i Hi. exists [q1; q5; q0]. destruct i as [|i]; [|simpl in Hi; lia].
    split; [reflexivity|simpl; lia].
  - exists calls. split; [exact H|exact Hlen].
Defined.

(** X20 for two rows asked of an array of one complete row. *)
Lemma proj_polar_short_scenario :
  proj_polar (SM := QcMore) 2 [[q1; q5; q0]] "k"%string "o"%string 10%Z []
  = (Err IndexError, []).
Proof.
  apply (proj_polar_short (SM := QcMore) 2 [[q1; q5; q0]] "k"%string "o"%string 10%Z []
           1).
  - simpl. lia.
  - intros row Hrow. discriminate Hrow.
Defined.

(** X21 for one row with the declination 0. *)
Lemma proj_polar_radius_scenario :
  ∃ calls : list (plot_call (Sc := QcScalar) string string Z),
    proj_polar (SM := QcMore) 1 [[q1; q5; q0]] "k"%string "o"%string 10%Z []
    = (Ok (), [] ++ calls).
Proof.
  destruct (proj_polar_radius (SM := QcMore) (EA := QcExact) 1 [[q1; q5; q0]]
              "k"%string "o"%string 10%Z []) as (calls & H & _).
  - intros i Hi. exists [q1; q5; q0]. destruct i as [|i]; [|simpl in Hi; lia].
    split; [reflexivity|simpl; lia].
  - intros i dec Hi Hdec. destruct i as [|i]; [|simpl in Hi; lia].
    injection Hdec as <-. apply Qc_is_canon. reflexivity.
  - exists calls. exact H.
Defined.

(** X22 for one prism. *)
Lemma parameters_sph_plotted_scenario :
  ∃ rows (calls : list (plot_call (Sc := QcScalar) string string Z)),
    parameters_sph (SM := QcMore) (M := QcMesher) 1 [q1; q0; q5] = Ok rows ∧
    proj_polar (SM := QcMore) (Z.of_nat 1) (array_rows rows) "k"%string "o"%string
      10%Z []
    = (Ok (), [] ++ calls) ∧
    length calls = 1.
Proof.
  destruct (parameters_sph_plotted (SM := QcMore) (M := QcMesher) 1 [q1; q0; q5]
              "k"%string "o"%string 10%Z []) as (rows & calls & H & Hp & Hlen & _).
  - simpl. lia.
  - exists rows, calls. split; [exact H|]. split; [exact Hp|exact Hlen].
Defined.

Lemma QcRandomLaws : RandomLaws QcScalar QcRandom.
Proof.
  split.
  - intros seed Hseed. exists seed. cbn. by rw bool_decide_eq_true_2.
  - intros seed Hseed. cbn. by rw bool_decide_eq_false_2.
  - intros st loc scale n Hs. cbn in *. by rw Hs.
  - intros st lo hi n l st' [= <- _]. apply length_replicate.
  - intros st loc scale n l st' H. cbn in H.
    destruct (Qc_ltb scale 0%Qc); [done|]. injection H as <- _.
    apply length_replicate.
Qed.

(** X23: the seed -1 is refused; the seed 7 gives two spheres. *)
Lemma dipolesrand_spheres_scenario :
  dipolesrand (M := QcMesher) (Rng := QcRandom) 3 (-1) 2 q5 q10 q1 q1 q1 q5 q5 q5 0%Z
  = (Err ValueError, 0%Z) ∧
  ∃ modelrand Coordx Coordy Coordz st,
    dipolesrand (M := QcMesher) (Rng := QcRandom) 3 7 2 q5 q10 q1 q1 q1 q5 q5 q5 0%Z
    = (Ok (modelrand, Coordx, Coordy, Coordz), st) ∧
    length modelrand = 2.
Proof.
  split.
  - apply (proj1 (dipolesrand_spheres (M := QcMesher) (RL := QcRandomLaws) 3 (-1) 2
                    q5 q10 q1 q1 q1 q5 q5 q5 0%Z)).
    lia.
  - destruct (proj2 (proj2 (dipolesrand_spheres (M := QcMesher) (RL := QcRandomLaws)
                              3 7 2 q5 q10 q1 q1 q1 q5 q5 q5 0%Z))
                _ _ _ _ _ _ _ _ _ _ _ eq_refl eq_refl eq_refl eq_refl eq_refl eq_refl)
      as (modelrand & H & Hlen & _).
    eexists modelrand, _, _, _, _. split; [exact H|exact Hlen].
Defined.

(** X24 for the planes 0 and 2. *)
Lemma plane_index_tests_scenario :
  magnetic_data (K := QcKernel) [q0] [q0] [q1] [mag_z] 0 None None
  = magnetic_data (K := QcKernel) [q0] [q0] [q1] [mag_z] 2 None None ∧
  sensitivity (K := QcKernel) 1 [q0] [q0] [q1] [mag_z] 0 None no_junk
  = sensitivity (K := QcKernel) 1 [q0] [q0] [q1] [mag_z] 2 None no_junk.
Proof.
  apply (plane_index_tests (K := QcKernel) 1 [q0] [q0] [q1] [mag_z] None None no_junk 0 2).
  - reflexivity.
  - reflexivity.
Defined.
